(** * CalProxy: the calendar reconciliation core, embedded in Rocq

    A shallow embedding of the TypeScript sources of the proxy
    (lib/parser.ts, lib/normalize.ts, lib/serialize.ts, lib/state.ts and the
    reconciliation loop of index.ts), followed by the properties of the
    specification that are settled against it.

    Modelling conventions.
    - A JavaScript string is a [string]: a sequence of 8-bit characters.  The
      embedding is exact for ASCII feeds; for other text a character stands
      for one byte of its UTF-8 encoding, which is what [TextEncoder] hands
      to the digest, while lengths are then counted in bytes.
    - A JavaScript number that holds a counter or a time stamp is a [Z].
    - [null] and [undefined] are [None].
    - The key-value namespace is a finite map; a [put] takes effect when it is
      issued and neither [get] nor [put] fails.
    - [Date.now()] and [new Date()] read a wall clock given as an oracle. *)

From Stdlib Require Import ZArith NArith Ascii String List Bool Lia.
From Stdlib Require Import DecimalString Sorting.Sorted Sorting.Permutation.
From stdpp Require Import gmap strings list fin_maps.
Import ListNotations.

Local Open Scope Z_scope.

(** ** JavaScript string primitives *)

Module JS.

Definition ascii_eqb (a b : ascii) : bool := Ascii.eqb a b.

(** [s.length] *)
Definition length (s : string) : nat := String.length s.

(** [s.substring(0, n)] *)
Fixpoint take (n : nat) (s : string) : string :=
  match n, s with
  | S n', String c s' => String c (take n' s')
  | _, _ => EmptyString
  end.

(** [s.substring(n)] *)
Fixpoint drop (n : nat) (s : string) : string :=
  match n, s with
  | S n', String _ s' => drop n' s'
  | _, _ => s
  end.

(** [s.startsWith(p)] *)
Fixpoint startsWith (p s : string) : bool :=
  match p, s with
  | EmptyString, _ => true
  | String a p', String b s' => ascii_eqb a b && startsWith p' s'
  | String _ _, EmptyString => false
  end.

(** [s.includes(sub)] *)
Fixpoint includes (sub s : string) : bool :=
  startsWith sub s ||
  match s with
  | EmptyString => false
  | String _ s' => includes sub s'
  end.

(** [s.indexOf(c)] for a one-character needle; [None] stands for -1. *)
Fixpoint indexOf (c : ascii) (s : string) : option nat :=
  match s with
  | EmptyString => None
  | String a s' =>
      if ascii_eqb a c then Some O
      else match indexOf c s' with
           | Some i => Some (S i)
           | None => None
           end
  end.

(** the last character of [s], if any *)
Fixpoint last (s : string) : option ascii :=
  match s with
  | EmptyString => None
  | String a EmptyString => Some a
  | String _ s' => last s'
  end.

(** [s.endsWith(c)] for a one-character suffix *)
Definition endsWith (c : ascii) (s : string) : bool :=
  match last s with
  | Some a => ascii_eqb a c
  | None => false
  end.

(** [s.slice(0, -1)] *)
Fixpoint dropLast (s : string) : string :=
  match s with
  | EmptyString => EmptyString
  | String _ EmptyString => EmptyString
  | String a s' => String a (dropLast s')
  end.

(** [s.split(c)] for a one-character separator: never the empty list. *)
Fixpoint split (c : ascii) (s : string) : list string :=
  match s with
  | EmptyString => [EmptyString]
  | String a s' =>
      if ascii_eqb a c then EmptyString :: split c s'
      else match split c s' with
           | h :: t => String a h :: t
           | [] => [String a EmptyString]
           end
  end.

(** [s.split(/\r?\n/)]: a line feed, together with one carriage return
    directly before it, separates two lines. *)
Fixpoint splitLines (s : string) : list string :=
  match s with
  | EmptyString => [EmptyString]
  | String a s' =>
      if ascii_eqb a "010" then EmptyString :: splitLines s'
      else if ascii_eqb a "013" && startsWith (String "010" EmptyString) s'
      then splitLines s'
      else match splitLines s' with
           | h :: t => String a h :: t
           | [] => [String a EmptyString]
           end
  end.

(** [parts.join(sep)] *)
Definition join (sep : string) (parts : list string) : string :=
  String.concat sep parts.

Definition upperChar (a : ascii) : ascii :=
  let n := nat_of_ascii a in
  if (97 <=? n)%nat && (n <=? 122)%nat then ascii_of_nat (n - 32) else a.

(** [s.toUpperCase()], on the ASCII letters *)
Fixpoint toUpperCase (s : string) : string :=
  match s with
  | EmptyString => EmptyString
  | String a s' => String (upperChar a) (toUpperCase s')
  end.

Definition isSpace (a : ascii) : bool :=
  let n := nat_of_ascii a in
  ((9 <=? n)%nat && (n <=? 13)%nat) || (n =? 32)%nat.

Fixpoint trimStart (s : string) : string :=
  match s with
  | String a s' => if isSpace a then trimStart s' else s
  | EmptyString => EmptyString
  end.

Fixpoint trimEnd (s : string) : string :=
  match s with
  | EmptyString => EmptyString
  | String a s' =>
      match trimEnd s' with
      | EmptyString => if isSpace a then EmptyString else String a EmptyString
      | t => String a t
      end
  end.

(** [s.trim()], on the ASCII white space *)
Definition trim (s : string) : string := trimEnd (trimStart s).

(** [s.padStart(2, '0')] *)
Definition padStart2 (s : string) : string :=
  match s with
  | EmptyString => "00"
  | String a EmptyString => String "0" (String a EmptyString)
  | _ => s
  end.

(** [n.toString()] for an integer *)
Definition toString (n : Z) : string :=
  DecimalString.NilZero.string_of_int (Z.to_int n).

Definition isDigit (a : ascii) : bool :=
  let n := nat_of_ascii a in (48 <=? n)%nat && (n <=? 57)%nat.

Definition isUpper (a : ascii) : bool :=
  let n := nat_of_ascii a in (65 <=? n)%nat && (n <=? 90)%nat.

(** a value is truthy when it is not the empty string *)
Definition truthy (s : string) : bool :=
  match s with EmptyString => false | _ => true end.

(** [a || b] on strings *)
Definition orElse (a b : string) : string := if truthy a then a else b.

(** [a || b] where [a] may be [undefined] *)
Definition optOrElse (a : option string) (b : string) : string :=
  match a with
  | Some s => orElse s b
  | None => b
  end.

End JS.


(** ** The platform digest: [crypto.subtle.digest('SHA-256', data)]

    The digest is a service of the runtime, not code of the repository.  It
    is given here by its definition in FIPS 180-4, on 32-bit words held in
    [N] with the wrap-around written out, so that the identity functions
    below can be evaluated on concrete events. *)

Module SHA256.
Local Open Scope N_scope.

Definition wrap (x : N) : N := N.land x 0xFFFFFFFF.
Definition plus (x y : N) : N := wrap (x + y).
Definition rotr (n x : N) : N :=
  N.lor (N.shiftr x n) (wrap (N.shiftl x (32 - n))).
Definition neg (x : N) : N := N.lxor x 0xFFFFFFFF.

Definition Ch (x y z : N) : N := N.lxor (N.land x y) (N.land (neg x) z).
Definition Maj (x y z : N) : N :=
  N.lxor (N.lxor (N.land x y) (N.land x z)) (N.land y z).
Definition bigS0 (x : N) : N := N.lxor (N.lxor (rotr 2 x) (rotr 13 x)) (rotr 22 x).
Definition bigS1 (x : N) : N := N.lxor (N.lxor (rotr 6 x) (rotr 11 x)) (rotr 25 x).
Definition smallS0 (x : N) : N := N.lxor (N.lxor (rotr 7 x) (rotr 18 x)) (N.shiftr x 3).
Definition smallS1 (x : N) : N := N.lxor (N.lxor (rotr 17 x) (rotr 19 x)) (N.shiftr x 10).

(** [p] is a prime: no number from 2 to [p - 1] divides it. *)
Definition isPrime (p : N) : bool :=
  (2 <=? p)
  && forallb (fun d => negb (p mod (N.of_nat d) =? 0)) (seq 2 (N.to_nat p - 2)).

(** The primes below [bound], in ascending order. *)
Definition primesBelow (bound : nat) : list N :=
  List.filter isPrime (map N.of_nat (seq 0 bound)).

(** The integer cube root, found bit by bit from the top. *)
Fixpoint cubeRootBits (bits : nat) (n r : N) : N :=
  match bits with
  | O => r
  | S bits' =>
      let candidate := r + 2 ^ N.of_nat bits' in
      cubeRootBits bits' n (if candidate ^ 3 <=? n then candidate else r)
  end.

Definition cubeRoot (n : N) : N := cubeRootBits 40 n 0.

(** The round constants: the first 32 bits of the fractional parts of the
    cube roots of the first 64 primes. *)
Definition K : list N :=
  Eval vm_compute in
    map (fun p => wrap (cubeRoot (p * 2 ^ 96))) (firstn 64 (primesBelow 312)).

(** The initial hash value: the first 32 bits of the fractional parts of the
    square roots of the first 8 primes. *)
Definition H0 : list N :=
  Eval vm_compute in
    map (fun p => wrap (N.sqrt (p * 2 ^ 64))) (firstn 8 (primesBelow 20)).

(** the eight working registers a .. h *)
Definition regs : Type := N * N * N * N * N * N * N * N.

Definition initial : regs :=
  (nth 0 H0 0, nth 1 H0 0, nth 2 H0 0, nth 3 H0 0,
   nth 4 H0 0, nth 5 H0 0, nth 6 H0 0, nth 7 H0 0).

(** big-endian bytes of a 32-bit word, and of the 64-bit bit count *)
Definition bytesOfWord (x : N) : list N :=
  [ N.land (N.shiftr x 24) 255; N.land (N.shiftr x 16) 255;
    N.land (N.shiftr x 8) 255; N.land x 255 ].

Definition bytesOfLength (x : N) : list N :=
  bytesOfWord (N.shiftr x 32) ++ bytesOfWord (wrap x).

Definition pad (msg : list N) : list N :=
  let len := N.of_nat (List.length msg) in
  let zeros := N.to_nat ((119 - len mod 64) mod 64) in
  msg ++ [128] ++ repeat 0 zeros ++ bytesOfLength (8 * len).

Fixpoint wordsOfBytes (bs : list N) : list N :=
  match bs with
  | b0 :: b1 :: b2 :: b3 :: rest =>
      (N.shiftl b0 24 + N.shiftl b1 16 + N.shiftl b2 8 + b3) :: wordsOfBytes rest
  | _ => []
  end.

(** the message schedule, most recent word first *)
Fixpoint extend (n : nat) (w : list N) : list N :=
  match n with
  | O => w
  | S n' =>
      let next :=
        plus (plus (smallS1 (nth 1 w 0)) (nth 6 w 0))
             (plus (smallS0 (nth 14 w 0)) (nth 15 w 0)) in
      extend n' (next :: w)
  end.

Definition schedule (block : list N) : list N :=
  List.rev (extend 48 (List.rev (wordsOfBytes block))).

Definition round (r : regs) (kw : N * N) : regs :=
  let '(a, b, c, d, e, f, g, h) := r in
  let t1 := plus (plus (plus h (bigS1 e)) (plus (Ch e f g) (fst kw))) (snd kw) in
  let t2 := plus (bigS0 a) (Maj a b c) in
  (plus t1 t2, a, b, c, plus d t1, e, f, g).

Definition compress (r : regs) (block : list N) : regs :=
  let '(a, b, c, d, e, f, g, h) := r in
  let '(a', b', c', d', e', f', g', h') :=
    fold_left round (combine K (schedule block)) r in
  (plus a a', plus b b', plus c c', plus d d',
   plus e e', plus f f', plus g g', plus h h').

Fixpoint blocks (fuel : nat) (r : regs) (bs : list N) : regs :=
  match fuel, bs with
  | S fuel', _ :: _ => blocks fuel' (compress r (firstn 64 bs)) (skipn 64 bs)
  | _, _ => r
  end.

Definition bytesOfRegs (r : regs) : list N :=
  let '(a, b, c, d, e, f, g, h) := r in
  bytesOfWord a ++ bytesOfWord b ++ bytesOfWord c ++ bytesOfWord d ++
  bytesOfWord e ++ bytesOfWord f ++ bytesOfWord g ++ bytesOfWord h.

(** the 32 bytes of the digest of a byte sequence *)
Definition digest (msg : list N) : list N :=
  let padded := pad msg in
  bytesOfRegs (blocks (List.length padded) initial padded).

End SHA256.

(** [new TextEncoder().encode(s)] *)
Fixpoint encode (s : string) : list N :=
  match s with
  | EmptyString => []
  | String a s' => N_of_ascii a :: encode s'
  end.

Definition hexDigit (n : N) : ascii :=
  match n with
  | 0 => "0" | 1 => "1" | 2 => "2" | 3 => "3" | 4 => "4" | 5 => "5"
  | 6 => "6" | 7 => "7" | 8 => "8" | 9 => "9" | 10 => "a" | 11 => "b"
  | 12 => "c" | 13 => "d" | 14 => "e" | _ => "f"
  end%N%char.

(** [b.toString(16).padStart(2, '0')] for a byte *)
Definition hexByte (b : N) : string :=
  String (hexDigit (N.shiftr b 4)) (String (hexDigit (N.land b 15)) EmptyString).

(** [bytes.map(b => b.toString(16).padStart(2, '0')).join('')] *)
Fixpoint hexOfBytes (bs : list N) : string :=
  match bs with
  | [] => EmptyString
  | b :: rest => hexByte b +:+ hexOfBytes rest
  end.

(** the 64 hexadecimal characters of the SHA-256 digest of a string *)
Definition sha256Hex (s : string) : string :=
  hexOfBytes (SHA256.digest (encode s)).

(** ** Data model (lib/types.ts) *)

(** A JavaScript [Map<string, string>]: the entries in insertion order, each
    key once. *)
Definition JsMap : Type := list (string * string).

(** [m.get(k)] *)
Fixpoint Map_get (k : string) (m : JsMap) : option string :=
  match m with
  | [] => None
  | (k', v) :: m' => if String.eqb k' k then Some v else Map_get k m'
  end.

(** [m.set(k, v)]: an existing key keeps its place. *)
Fixpoint Map_set (k v : string) (m : JsMap) : JsMap :=
  match m with
  | [] => [(k, v)]
  | (k', v') :: m' =>
      if String.eqb k' k then (k', v) :: m' else (k', v') :: Map_set k v m'
  end.

Record IcsProperty : Type := {
  name : string;
  params : JsMap;
  value : string;
}.

Record IcsEvent : Type := {
  uid : string;
  properties : list IcsProperty;
  rawLines : list string;
}.

Record ParsedCalendar : Type := {
  headerLines : list string;
  timezoneBlocks : list string;
  events : list IcsEvent;
  footerLines : list string;
}.

Module NormalizedEvent.
Record t : Type := {
  stableUid : string;
  sequence : Z;
  isException : bool;
  recurrenceId : option string;
  lines : list string;
}.
End NormalizedEvent.
Abbreviation NormalizedEvent := NormalizedEvent.t.

(** [{ ...parsed, normalizedEvents }] *)
Record NormalizedCalendar : Type := {
  parsed : ParsedCalendar;
  normalizedEvents : list NormalizedEvent;
}.

Module EventState.
Record t : Type := {
  sequence : Z;
  contentHash : string;
  lastSeen : Z;
}.
End EventState.
Abbreviation EventState := EventState.t.

Record CalendarSnapshot : Type := {
  eventKeys : list string;
  generatedAt : Z;
}.

(** The constants of lib/constants.ts.  The file is not part of the sources
    at hand, so the development is parametric in them.  A look-up
    [MS_TO_IANA_TIMEZONES[tzid]] is a partial function on the keys of the
    table. *)
Class Constants : Type := {
  DEFAULT_TIMEZONE : string;
  MS_TO_IANA_TIMEZONES : string -> option string;
  PROPERTY_ORDER : list string;
}.

(** [a.localeCompare(b)], the collation of the runtime. *)
Class Locale : Type := {
  localeCompare : string -> string -> comparison;
}.

(** [xs.sort((a, b) => ...)]: the sort of the runtime is stable; [le a b]
    says that the comparator does not put [b] before [a]. *)
Section StableSort.
Context {A : Type} (le : A -> A -> bool).

Fixpoint insertSorted (x : A) (l : list A) : list A :=
  match l with
  | [] => [x]
  | y :: l' => if le x y then x :: l else y :: insertSorted x l'
  end.

Fixpoint sortBy (l : list A) : list A :=
  match l with
  | [] => []
  | x :: l' => insertSorted x (sortBy l')
  end.
End StableSort.

(** [xs.sort()] on strings: ascending order of the code units. *)
Definition sortStrings (l : list string) : list string := sortBy String.leb l.

(** ** Parser (lib/parser.ts) *)

Definition SP : string := String " " EmptyString.
Definition TAB : string := String "009" EmptyString.
Definition LF : string := String "010" EmptyString.
Definition CRLF : string := String "013" (String "010" EmptyString).

(** One iteration of the loop of [unfoldLines]. *)
Definition unfoldStep (unfolded : list string) (line : string) : list string :=
  if (JS.startsWith SP line || JS.startsWith TAB line)
     && (0 <? List.length unfolded)%nat
  then alter (fun prev => prev +:+ JS.drop 1 line) (List.length unfolded - 1)%nat unfolded
  else unfolded ++ [line].

Definition unfoldLines (ics : string) : list string :=
  fold_left unfoldStep (JS.splitLines ics) [].

(** The loop of [parseProperty] over the parameter parts. *)
Definition addParam (m : JsMap) (part : string) : JsMap :=
  match JS.indexOf "=" part with
  | Some eqIdx => Map_set (JS.toUpperCase (JS.take eqIdx part)) (JS.drop (S eqIdx) part) m
  | None => m
  end.

Definition parseProperty (line : string) : option IcsProperty :=
  match JS.indexOf ":" line with
  | None => None
  | Some colonIdx =>
      let beforeColon := JS.take colonIdx line in
      let value := JS.drop (S colonIdx) line in
      match JS.indexOf ";" beforeColon with
      | None =>
          Some {| name := JS.toUpperCase beforeColon; params := []; value := value |}
      | Some semiIdx =>
          let name := JS.take semiIdx beforeColon in
          let paramStr := JS.drop (S semiIdx) beforeColon in
          Some {| name := JS.toUpperCase name;
                  params := fold_left addParam (JS.split ";" paramStr) [];
                  value := value |}
      end
  end.

(** The variables of [parseIcs]. *)
Record ParserState : Type := {
  out : ParsedCalendar;
  inTimezone : bool;
  inEvent : bool;
  currentTimezoneLines : list string;
  currentEventLines : list string;
  currentEventProps : list IcsProperty;
  currentUid : string;
  headerDone : bool;
}.

Definition parserStart : ParserState :=
  {| out := {| headerLines := []; timezoneBlocks := []; events := []; footerLines := [] |};
     inTimezone := false; inEvent := false;
     currentTimezoneLines := []; currentEventLines := [];
     currentEventProps := []; currentUid := EmptyString; headerDone := false |}.

Definition pushTimezone (block : string) (c : ParsedCalendar) : ParsedCalendar :=
  {| headerLines := headerLines c; timezoneBlocks := timezoneBlocks c ++ [block];
     events := events c; footerLines := footerLines c |}.

Definition pushEvent (e : IcsEvent) (c : ParsedCalendar) : ParsedCalendar :=
  {| headerLines := headerLines c; timezoneBlocks := timezoneBlocks c;
     events := events c ++ [e]; footerLines := footerLines c |}.

Definition pushHeader (line : string) (c : ParsedCalendar) : ParsedCalendar :=
  {| headerLines := headerLines c ++ [line]; timezoneBlocks := timezoneBlocks c;
     events := events c; footerLines := footerLines c |}.

Definition pushFooter (line : string) (c : ParsedCalendar) : ParsedCalendar :=
  {| headerLines := headerLines c; timezoneBlocks := timezoneBlocks c;
     events := events c; footerLines := footerLines c ++ [line] |}.

(** One iteration of the loop of [parseIcs]. *)
Definition parseLine (st : ParserState) (line : string) : ParserState :=
  if String.eqb line "BEGIN:VTIMEZONE" then
    {| out := out st; inTimezone := true; inEvent := inEvent st;
       currentTimezoneLines := [line]; currentEventLines := currentEventLines st;
       currentEventProps := currentEventProps st; currentUid := currentUid st;
       headerDone := headerDone st |}
  else if inTimezone st then
    let tzLines := currentTimezoneLines st ++ [line] in
    let closing := String.eqb line "END:VTIMEZONE" in
    {| out := if closing then pushTimezone (JS.join CRLF tzLines) (out st) else out st;
       inTimezone := negb closing; inEvent := inEvent st;
       currentTimezoneLines := tzLines; currentEventLines := currentEventLines st;
       currentEventProps := currentEventProps st; currentUid := currentUid st;
       headerDone := headerDone st |}
  else if String.eqb line "BEGIN:VEVENT" then
    {| out := out st; inTimezone := inTimezone st; inEvent := true;
       currentTimezoneLines := currentTimezoneLines st; currentEventLines := [line];
       currentEventProps := []; currentUid := EmptyString; headerDone := true |}
  else if inEvent st then
    let evLines := currentEventLines st ++ [line] in
    let props :=
      match parseProperty line with
      | Some prop => currentEventProps st ++ [prop]
      | None => currentEventProps st
      end in
    let uid' :=
      match parseProperty line with
      | Some prop => if String.eqb (name prop) "UID" then value prop else currentUid st
      | None => currentUid st
      end in
    let closing := String.eqb line "END:VEVENT" in
    {| out := if closing
              then pushEvent {| uid := uid'; properties := props; rawLines := evLines |} (out st)
              else out st;
       inTimezone := inTimezone st; inEvent := negb closing;
       currentTimezoneLines := currentTimezoneLines st; currentEventLines := evLines;
       currentEventProps := props; currentUid := uid'; headerDone := headerDone st |}
  else if negb (headerDone st) then
    {| out := pushHeader line (out st); inTimezone := inTimezone st; inEvent := inEvent st;
       currentTimezoneLines := currentTimezoneLines st;
       currentEventLines := currentEventLines st;
       currentEventProps := currentEventProps st; currentUid := currentUid st;
       headerDone := headerDone st |}
  else if String.eqb line "END:VCALENDAR" then
    {| out := pushFooter line (out st); inTimezone := inTimezone st; inEvent := inEvent st;
       currentTimezoneLines := currentTimezoneLines st;
       currentEventLines := currentEventLines st;
       currentEventProps := currentEventProps st; currentUid := currentUid st;
       headerDone := headerDone st |}
  else st.

(** The state of the parser after a sequence of unfolded lines. *)
Definition parseFrom (st : ParserState) (lines : list string) : ParserState :=
  fold_left parseLine lines st.

Definition parseLines (lines : list string) : ParsedCalendar :=
  out (parseFrom parserStart lines).

Definition parseIcs (ics : string) : ParsedCalendar := parseLines (unfoldLines ics).

(** [event.properties.find((p) => p.name === name)] *)
Definition getProperty (event : IcsEvent) (n : string) : option IcsProperty :=
  List.find (fun p => String.eqb (name p) n) (properties event).

(** ** Normalizer (lib/normalize.ts) *)

Section Normalizer.
Context `{Constants} `{Locale}.

(** [MS_TO_IANA_TIMEZONES[tzid] || tzid] *)
Definition normalizeTimezone (tzid : string) : string :=
  JS.optOrElse (MS_TO_IANA_TIMEZONES tzid) tzid.

Record DateTimeValue : Type := {
  date : string;
  time : string;
  isUtc : bool;
  isDateOnly : bool;
}.

(** [const [date, time] = cleanValue.split('T')] takes the first two parts;
    the second exists whenever the value includes a [T]. *)
Definition parseDateTimeValue (v : string) : DateTimeValue :=
  let isUtc := JS.endsWith "Z" v in
  let cleanValue := if isUtc then JS.dropLast v else v in
  if JS.includes "T" cleanValue then
    let parts := JS.split "T" cleanValue in
    {| date := nth 0 parts EmptyString; time := nth 1 parts EmptyString;
       isUtc := isUtc; isDateOnly := false |}
  else
    {| date := cleanValue; time := EmptyString; isUtc := false; isDateOnly := true |}.

Definition normalizeDateTimeProp (prop : IcsProperty) (defaultTz : string) : string :=
  let v := parseDateTimeValue (value prop) in
  if isDateOnly v then name prop +:+ ";VALUE=DATE:" +:+ date v
  else if isUtc v then name prop +:+ ":" +:+ date v +:+ "T" +:+ time v +:+ "Z"
  else
    let tzid := JS.optOrElse (Map_get "TZID" (params prop)) defaultTz in
    let tzid := normalizeTimezone tzid in
    name prop +:+ ";TZID=" +:+ tzid +:+ ":" +:+ date v +:+ "T" +:+ time v.

(** The body of the loop of [normalizeExdateRdate]. *)
Definition reassemble (val : string) : string :=
  let v := parseDateTimeValue (JS.trim val) in
  if isDateOnly v then date v
  else if isUtc v then date v +:+ "T" +:+ time v +:+ "Z"
  else date v +:+ "T" +:+ time v.

(** [tzid] is [undefined] or a string; only its truthiness is tested, so
    [undefined] is the empty string here. *)
Definition normalizeExdateRdate (prop : IcsProperty) : string :=
  let values := JS.split "," (value prop) in
  let tzid := JS.optOrElse (Map_get "TZID" (params prop)) EmptyString in
  let tzid := if JS.truthy tzid then normalizeTimezone tzid else tzid in
  let normalized := sortStrings (map reassemble values) in
  let isDateOnlyResult :=
    match normalized with
    | first :: _ => JS.truthy first && negb (JS.includes "T" first)
    | [] => false
    end in
  if isDateOnlyResult then
    name prop +:+ ";VALUE=DATE:" +:+ JS.join "," normalized
  else if JS.truthy tzid then
    name prop +:+ ";TZID=" +:+ tzid +:+ ":" +:+ JS.join "," normalized
  else name prop +:+ ":" +:+ JS.join "," normalized.

(** *** Regular expressions of [normalizeRrule]

    A matcher reads a prefix of its input and returns the text it keeps
    and the rest; [search] is the leftmost match of an unanchored
    expression, with the text before it. *)

Fixpoint search {A : Type} (m : string -> option (A * string)) (s : string)
  : option (string * A * string) :=
  match m s with
  | Some (x, rest) => Some (EmptyString, x, rest)
  | None =>
      match s with
      | EmptyString => None
      | String a s' =>
          match search m s' with
          | Some (pre, x, rest) => Some (String a pre, x, rest)
          | None => None
          end
      end
  end.

(** [\d*], greedy *)
Fixpoint digits (s : string) : string * string :=
  match s with
  | String a s' =>
      if JS.isDigit a then let (ds, rest) := digits s' in (String a ds, rest)
      else (EmptyString, s)
  | EmptyString => (EmptyString, EmptyString)
  end.

(** [-?\d+] *)
Definition integer (s : string) : option (string * string) :=
  let (sign, s1) :=
    match s with
    | String "-" s' => ("-", s')
    | _ => (EmptyString, s)
    end in
  let (ds, rest) := digits s1 in
  if JS.truthy ds then Some (sign +:+ ds, rest) else None.

(** [BYSETPOS=(-?\d+)] at the start of [s]: the group and the rest *)
Definition reBysetpos (s : string) : option (string * string) :=
  if JS.startsWith "BYSETPOS=" s then integer (JS.drop 9 s) else None.

(** [;?BYSETPOS=-?\d+] at the start of [s] *)
Definition reSemiBysetpos (s : string) : option (string * string) :=
  match s with
  | String ";" s' =>
      match reBysetpos s' with
      | Some r => Some r
      | None => reBysetpos s
      end
  | _ => reBysetpos s
  end.

(** [BYDAY=([A-Z]{2})] at the start of [s]: the group and the rest *)
Definition reByday (s : string) : option (string * string) :=
  if JS.startsWith "BYDAY=" s then
    match JS.drop 6 s with
    | String a (String b rest) =>
        if JS.isUpper a && JS.isUpper b
        then Some (String a (String b EmptyString), rest) else None
    | _ => None
    end
  else None.

(** [[^;]*,] at the start of [s] *)
Fixpoint commaBeforeSemicolon (s : string) : bool :=
  match s with
  | EmptyString => false
  | String a s' =>
      if JS.ascii_eqb a ";" then false
      else if JS.ascii_eqb a "," then true
      else commaBeforeSemicolon s'
  end.

(** [BYDAY=[^;]*,] at the start of [s] *)
Definition reBydayList (s : string) : option (unit * string) :=
  if JS.startsWith "BYDAY=" s && commaBeforeSemicolon (JS.drop 6 s)
  then Some (tt, EmptyString) else None.

(** [value.replace(re, by)]: the leftmost match is replaced. *)
Definition replaceFirst {A : Type} (m : string -> option (A * string))
    (by_ : string) (s : string) : string :=
  match search m s with
  | Some (pre, _, rest) => pre +:+ by_ +:+ rest
  | None => s
  end.

Definition normalizeRrule (prop : IcsProperty) : string :=
  let v := value prop in
  let bysetposMatch := search reBysetpos v in
  let bydayMatch := search reByday v in
  match bysetposMatch, bydayMatch, search reBydayList v with
  | Some (_, pos, _), Some (_, day, _), None =>
      let v1 := replaceFirst reSemiBysetpos EmptyString v in
      let v2 := replaceFirst reByday ("BYDAY=" +:+ pos +:+ day) v1 in
      "RRULE:" +:+ v2
  | _, _, _ => "RRULE:" +:+ v
  end.

Definition normalizeRecurrenceId (prop : IcsProperty) (defaultTz : string) : string :=
  let v := parseDateTimeValue (value prop) in
  if isDateOnly v then "RECURRENCE-ID;VALUE=DATE:" +:+ date v
  else if isUtc v then "RECURRENCE-ID:" +:+ date v +:+ "T" +:+ time v +:+ "Z"
  else
    let tzid := JS.optOrElse (Map_get "TZID" (params prop)) defaultTz in
    let tzid := normalizeTimezone tzid in
    "RECURRENCE-ID;TZID=" +:+ tzid +:+ ":" +:+ date v +:+ "T" +:+ time v.

Definition localeLe (a b : string) : bool :=
  match localeCompare a b with Gt => false | _ => true end.

Definition reconstructProperty (prop : IcsProperty) : string :=
  let sortedParams := sortBy (fun a b => localeLe (fst a) (fst b)) (params prop) in
  fold_left (fun result kv => result +:+ ";" +:+ fst kv +:+ "=" +:+ snd kv)
            sortedParams (name prop)
  +:+ ":" +:+ value prop.

Definition oneOf (names : list string) (n : string) : bool :=
  existsb (String.eqb n) names.

Definition normalizeProperty (prop : IcsProperty) (defaultTz : string) : string :=
  if oneOf ["DTSTART"; "DTEND"] (name prop) then normalizeDateTimeProp prop defaultTz
  else if String.eqb (name prop) "RECURRENCE-ID" then normalizeRecurrenceId prop defaultTz
  else if String.eqb (name prop) "RRULE" then normalizeRrule prop
  else if oneOf ["EXDATE"; "RDATE"] (name prop) then normalizeExdateRdate prop
  else if oneOf ["DTSTAMP"; "CREATED"; "LAST-MODIFIED"] (name prop)
  then normalizeDateTimeProp prop "UTC"
  else reconstructProperty prop.

(** [propsByName]: the properties grouped by name, the names in the order
    of their first occurrence. *)
Fixpoint groupAdd (prop : IcsProperty) (m : list (string * list IcsProperty))
  : list (string * list IcsProperty) :=
  match m with
  | [] => [(name prop, [prop])]
  | (n, ps) :: m' =>
      if String.eqb n (name prop) then (n, ps ++ [prop]) :: m'
      else (n, ps) :: groupAdd prop m'
  end.

Fixpoint groupGet (n : string) (m : list (string * list IcsProperty))
  : option (list IcsProperty) :=
  match m with
  | [] => None
  | (n', ps) :: m' => if String.eqb n' n then Some ps else groupGet n m'
  end.

Definition pushLine (lines : list string) (line : string) : list string :=
  if JS.truthy line then lines ++ [line] else lines.

(** The loop over [PROPERTY_ORDER]: the lines and the names emitted so far. *)
Definition emitOrdered (tz : string) (propsByName : list (string * list IcsProperty))
    (acc : list string * list string) (propName : string)
  : list string * list string :=
  match groupGet propName propsByName with
  | None => acc
  | Some props =>
      (fold_left (fun lines prop => pushLine lines (normalizeProperty prop tz))
                 props (fst acc),
       snd acc ++ [propName])
  end.

(** The loop over the remaining names of [propsByName]. *)
Definition emitRemaining (emittedProps : list string) (lines : list string)
    (entry : string * list IcsProperty) : list string :=
  if oneOf emittedProps (fst entry) then lines
  else if oneOf ["BEGIN"; "END"] (fst entry) then lines
  else fold_left (fun ls prop => ls ++ [reconstructProperty prop]) (snd entry) lines.

Definition normalizeEventLines (event : IcsEvent) (stableUid : string)
    (sequence : Z) (defaultTz : option string) : list string :=
  let tz := JS.optOrElse defaultTz DEFAULT_TIMEZONE in
  let lines :=
    ["BEGIN:VEVENT"; "UID:" +:+ stableUid +:+ "@calproxy";
     "SEQUENCE:" +:+ JS.toString sequence] in
  let propsByName := fold_left (fun m p => groupAdd p m) (properties event) [] in
  let '(lines, emittedProps) :=
    fold_left (emitOrdered tz propsByName) PROPERTY_ORDER (lines, ["UID"; "SEQUENCE"]) in
  let lines := fold_left (emitRemaining emittedProps) propsByName lines in
  lines ++ ["END:VEVENT"].

(** [getProperty(event, n)?.value || ''] *)
Definition valueOf (event : IcsEvent) (n : string) : string :=
  JS.optOrElse (option_map value (getProperty event n)) EmptyString.

Definition stableUidInput (event : IcsEvent) : string :=
  JS.join "|" [valueOf event "DTSTART"; valueOf event "SUMMARY";
               valueOf event "ORGANIZER"; uid event].

Definition computeStableUid (event : IcsEvent) : string :=
  hexOfBytes (firstn 16 (SHA256.digest (encode (stableUidInput event)))).

Definition volatile (p : IcsProperty) : bool :=
  oneOf ["DTSTAMP"; "LAST-MODIFIED"; "SEQUENCE"] (name p).

Definition stableProps (event : IcsEvent) : string :=
  JS.join LF
    (sortStrings
       (map (fun p => name p +:+ ":" +:+ value p)
            (List.filter (fun p => negb (volatile p)) (properties event)))).

Definition computeContentHash (event : IcsEvent) : string :=
  sha256Hex (stableProps event).

(** *** The UTC fields of a [Date] whose time value is [ms] *)

Definition msPerDay : Z := 86400000.

(** year, month (1 .. 12) and day of the month of a count of days since
    1970-01-01, in the proleptic Gregorian calendar *)
Definition civilOfDays (days : Z) : Z * Z * Z :=
  let z := days + 719468 in
  let era := z / 146097 in
  let doe := z - era * 146097 in
  let yoe := (doe - doe / 1460 + doe / 36524 - doe / 146096) / 365 in
  let doy := doe - (365 * yoe + yoe / 4 - yoe / 100) in
  let mp := (5 * doy + 2) / 153 in
  let d := doy - (153 * mp + 2) / 5 + 1 in
  let m := if mp <? 10 then mp + 3 else mp - 9 in
  ((if m <=? 2 then yoe + era * 400 + 1 else yoe + era * 400), m, d).

Definition getUTCFullYear (ms : Z) : Z := fst (fst (civilOfDays (ms / msPerDay))).
(** [getUTCMonth() + 1] *)
Definition utcMonth (ms : Z) : Z := snd (fst (civilOfDays (ms / msPerDay))).
Definition getUTCDate (ms : Z) : Z := snd (civilOfDays (ms / msPerDay)).
Definition getUTCHours (ms : Z) : Z := (ms mod msPerDay) / 3600000.
Definition getUTCMinutes (ms : Z) : Z := ((ms mod msPerDay) / 60000) mod 60.
Definition getUTCSeconds (ms : Z) : Z := ((ms mod msPerDay) / 1000) mod 60.

Definition pad2 (n : Z) : string := JS.padStart2 (JS.toString n).

Definition dtstampOf (now : Z) : string :=
  JS.toString (getUTCFullYear now) +:+ pad2 (utcMonth now) +:+ pad2 (getUTCDate now)
  +:+ "T" +:+ pad2 (getUTCHours now) +:+ pad2 (getUTCMinutes now)
  +:+ pad2 (getUTCSeconds now) +:+ "Z".

(** [createCancelledEventLines], with the time value of its [new Date()]
    as [now]. *)
Definition createCancelledEventLines (now : Z) (stableUid : string) (sequence : Z)
    (recurrenceId : option string) : list string :=
  let dtstamp := dtstampOf now in
  let lines :=
    ["BEGIN:VEVENT"; "UID:" +:+ stableUid +:+ "@calproxy";
     "SEQUENCE:" +:+ JS.toString sequence; "DTSTAMP:" +:+ dtstamp;
     "STATUS:CANCELLED"] in
  let lines :=
    if JS.truthy (JS.optOrElse recurrenceId EmptyString)
    then lines ++ ["RECURRENCE-ID:" +:+ JS.optOrElse recurrenceId EmptyString;
                   "DTSTART:" +:+ JS.optOrElse recurrenceId EmptyString]
    else lines ++ ["DTSTART:" +:+ dtstamp] in
  lines ++ ["SUMMARY:Cancelled Event"; "END:VEVENT"].

Definition masterLe (a b : NormalizedEvent) : bool :=
  localeLe (NormalizedEvent.stableUid a) (NormalizedEvent.stableUid b).

Definition exceptionLe (a b : NormalizedEvent) : bool :=
  match localeCompare (NormalizedEvent.stableUid a) (NormalizedEvent.stableUid b) with
  | Eq => localeLe (JS.optOrElse (NormalizedEvent.recurrenceId a) EmptyString)
                   (JS.optOrElse (NormalizedEvent.recurrenceId b) EmptyString)
  | Lt => true
  | Gt => false
  end.

Definition sortEvents (evs : list NormalizedEvent) : list NormalizedEvent :=
  let masters := List.filter (fun e => negb (NormalizedEvent.isException e)) evs in
  let exceptions := List.filter NormalizedEvent.isException evs in
  sortBy masterLe masters ++ sortBy exceptionLe exceptions.
End Normalizer.

(** ** Serializer (lib/serialize.ts) *)

Section Serializer.
Context `{Constants} `{Locale}.

(** The [while] loop of [foldLine]; every iteration removes up to 74
    characters of a non-empty [remaining], so [fuel] iterations suffice
    when [fuel] is the length of [remaining]. *)
Fixpoint foldLoop (fuel : nat) (remaining : string) (result : list string)
  : list string :=
  match fuel with
  | O => result
  | S fuel' =>
      if (0 <? JS.length remaining)%nat
      then foldLoop fuel' (JS.drop 74 remaining) (result ++ [SP +:+ JS.take 74 remaining])
      else result
  end.

Definition foldLine (line : string) : string :=
  if (JS.length line <=? 75)%nat then line
  else JS.join CRLF
         (foldLoop (JS.length line) (JS.drop 75 line) [JS.take 75 line]).

(** A template literal: its line breaks are line feeds. *)
Definition template (lines : list string) : string := JS.join LF lines.

Definition usTimezone (tzid std dst offStd offDst : string) : string :=
  template
    ["BEGIN:VTIMEZONE"; "TZID:" +:+ tzid; "BEGIN:STANDARD";
     "DTSTART:19701101T020000"; "RRULE:FREQ=YEARLY;BYMONTH=11;BYDAY=1SU";
     "TZOFFSETFROM:" +:+ offDst; "TZOFFSETTO:" +:+ offStd; "TZNAME:" +:+ std;
     "END:STANDARD"; "BEGIN:DAYLIGHT"; "DTSTART:19700308T020000";
     "RRULE:FREQ=YEARLY;BYMONTH=3;BYDAY=2SU"; "TZOFFSETFROM:" +:+ offStd;
     "TZOFFSETTO:" +:+ offDst; "TZNAME:" +:+ dst; "END:DAYLIGHT"; "END:VTIMEZONE"].

Definition generateVtimezone (tzid : string) : string :=
  if String.eqb tzid "America/Indiana/Indianapolis" || String.eqb tzid "America/New_York"
  then usTimezone tzid "EST" "EDT" "-0500" "-0400"
  else if String.eqb tzid "America/Chicago"
  then usTimezone "America/Chicago" "CST" "CDT" "-0600" "-0500"
  else if String.eqb tzid "America/Los_Angeles"
  then usTimezone "America/Los_Angeles" "PST" "PDT" "-0800" "-0700"
  else template
         ["BEGIN:VTIMEZONE"; "TZID:" +:+ tzid; "BEGIN:STANDARD";
          "DTSTART:19700101T000000"; "TZOFFSETFROM:+0000"; "TZOFFSETTO:+0000";
          "TZNAME:" +:+ tzid; "END:STANDARD"; "END:VTIMEZONE"].

(** [[^\r\n]*], greedy *)
Fixpoint lineRest (s : string) : string * string :=
  match s with
  | String a s' =>
      if JS.ascii_eqb a "013" || JS.ascii_eqb a "010" then (EmptyString, s)
      else let (run, rest) := lineRest s' in (String a run, rest)
  | EmptyString => (EmptyString, EmptyString)
  end.

(** [TZID:([^\r\n]+)] at the start of [s] *)
Definition reTzid (s : string) : option (string * string) :=
  if JS.startsWith "TZID:" s then
    let (run, rest) := lineRest (JS.drop 5 s) in
    if JS.truthy run then Some (run, rest) else None
  else None.

(** a literal pattern at the start of [s] *)
Definition reLiteral (needle s : string) : option (unit * string) :=
  if JS.startsWith needle s then Some (tt, JS.drop (JS.length needle) s) else None.

(** The body of the loop over the time zone blocks; the replacement text
    is taken literally. *)
Definition rewriteTimezoneBlock (tzBlock : string) : string :=
  match search reTzid tzBlock with
  | Some (_, found, _) =>
      let tzid := normalizeTimezone found in
      if negb (String.eqb tzid found)
      then replaceFirst (reLiteral found) tzid tzBlock
      else tzBlock
  | None => tzBlock
  end.

(** The entries of [output] before they are joined. *)
Definition outputEntries (c : NormalizedCalendar) (defaultTz : option string)
  : list string :=
  let tz := JS.optOrElse defaultTz DEFAULT_TIMEZONE in
  headerLines (parsed c)
  ++ (if existsb (fun tzBlock => JS.includes ("TZID:" +:+ tz) tzBlock)
                 (timezoneBlocks (parsed c))
      then [] else [generateVtimezone tz])
  ++ map rewriteTimezoneBlock (timezoneBlocks (parsed c))
  ++ flat_map (fun event => map foldLine (NormalizedEvent.lines event))
              (sortEvents (normalizedEvents c))
  ++ footerLines (parsed c).

Definition serializeCalendar (c : NormalizedCalendar) (defaultTz : option string)
  : string :=
  JS.join CRLF (outputEntries c defaultTz).
End Serializer.

(** ** State store (lib/state.ts)

    The namespace maps keys to the text that [JSON.stringify] produced; a
    stored value is kept here as the record it encodes, which [JSON.parse]
    gives back. *)

Inductive KvValue : Type :=
| VEventState (st : EventState)
| VSnapshot (snap : CalendarSnapshot)
| VText (text : string).

(** The environment of a request: the namespace, and the wall clock as the
    sequence of its readings. *)
Record World : Type := {
  kv : gmap string KvValue;
  clock : nat -> Z;
  ticks : nat;
}.

(** A computation that reads and writes the environment. *)
Definition M (A : Type) : Type := World -> A * World.

#[global] Instance M_ret : MRet M := fun A (x : A) w => (x, w).
#[global] Instance M_bind : MBind M :=
  fun A B (f : A -> M B) (m : M A) w => let (x, w') := m w in f x w'.

(** [kv.get(key)] *)
Definition kvGet (key : string) : M (option KvValue) :=
  fun w => (kv w !! key, w).

(** [kv.put(key, value)] *)
Definition kvPut (key : string) (v : KvValue) : M unit :=
  fun w => (tt, {| kv := <[key := v]> (kv w); clock := clock w; ticks := ticks w |}).

(** [Date.now()] and the time value of [new Date()] *)
Definition Date_now : M Z :=
  fun w => (clock w (ticks w), {| kv := kv w; clock := clock w; ticks := S (ticks w) |}).

(** [prefix ? `${prefix}:${rest}` : rest] *)
Definition scoped (prefix : option string) (rest : string) : string :=
  match prefix with
  | Some p => if JS.truthy p then p +:+ ":" +:+ rest else rest
  | None => rest
  end.

Definition eventStoreKey (prefix : option string) (stableUid : string) : string :=
  scoped prefix ("event:" +:+ stableUid).

Definition snapshotStoreKey (prefix : option string) : string :=
  scoped prefix "snapshot:keys".

Definition getEventState (stableUid : string) (prefix : option string)
  : M (option EventState) :=
  data ← kvGet (eventStoreKey prefix stableUid);
  mret (match data with Some (VEventState st) => Some st | _ => None end).

Definition saveEventState (stableUid : string) (st : EventState)
    (prefix : option string) : M unit :=
  kvPut (eventStoreKey prefix stableUid) (VEventState st).

Definition getPreviousSnapshot (prefix : option string) : M (option CalendarSnapshot) :=
  data ← kvGet (snapshotStoreKey prefix);
  mret (match data with Some (VSnapshot snap) => Some snap | _ => None end).

Definition saveSnapshotKeys (keys : list string) (prefix : option string) : M unit :=
  now ← Date_now;
  kvPut (snapshotStoreKey prefix) (VSnapshot {| eventKeys := keys; generatedAt := now |}).

(** ** Reconciliation (index.ts)

    [normalizeCalendar] of the multi-tenant worker; the single-tenant worker
    is the same function without a prefix. *)

Section Reconciler.
Context `{Constants} `{Locale}.

Definition eventKeyOf (event : IcsEvent) : string :=
  match getProperty event "RECURRENCE-ID" with
  | Some recurrenceIdProp => computeStableUid event +:+ "#" +:+ value recurrenceIdProp
  | None => computeStableUid event
  end.

(** [prevState ? (changed ? prevState.sequence + 1 : prevState.sequence) : 0] *)
Definition nextSequence (prevState : option EventState) (contentHash : string) : Z :=
  match prevState with
  | Some st =>
      if negb (String.eqb (EventState.contentHash st) contentHash)
      then EventState.sequence st + 1 else EventState.sequence st
  | None => 0
  end.

(** The body of the loop over [parsed.events]: the key pushed to
    [currentKeys] and the event pushed to [normalizedEvents]. *)
Definition processEvent (tenantHash defaultTimezone : option string) (event : IcsEvent)
  : M (string * NormalizedEvent) :=
  let stableUid := computeStableUid event in
  let contentHash := computeContentHash event in
  let recurrenceIdProp := getProperty event "RECURRENCE-ID" in
  let isException := match recurrenceIdProp with Some _ => true | None => false end in
  let eventKey := eventKeyOf event in
  prevState ← getEventState eventKey tenantHash;
  let sequence := nextSequence prevState contentHash in
  now ← Date_now;
  saveEventState eventKey
    {| EventState.sequence := sequence; EventState.contentHash := contentHash;
       EventState.lastSeen := now |} tenantHash;;
  mret (eventKey,
        {| NormalizedEvent.stableUid := stableUid;
           NormalizedEvent.sequence := sequence;
           NormalizedEvent.isException := isException;
           NormalizedEvent.recurrenceId :=
             match recurrenceIdProp with
             | Some p => if JS.truthy (value p) then Some (value p) else None
             | None => None
             end;
           NormalizedEvent.lines :=
             normalizeEventLines event stableUid sequence defaultTimezone |}).

Fixpoint eventLoop (tenantHash defaultTimezone : option string) (evs : list IcsEvent)
    (normalizedEvents : list NormalizedEvent) (currentKeys : list string)
  : M (list NormalizedEvent * list string) :=
  match evs with
  | [] => mret (normalizedEvents, currentKeys)
  | event :: rest =>
      '(eventKey, ne) ← processEvent tenantHash defaultTimezone event;
      eventLoop tenantHash defaultTimezone rest
                (normalizedEvents ++ [ne]) (currentKeys ++ [eventKey])
  end.

Definition createCancelledEventFromState (eventKey : string) (tenantHash : option string)
  : M (option NormalizedEvent) :=
  prevState ← getEventState eventKey tenantHash;
  match prevState with
  | None => mret None
  | Some st =>
      let parts := JS.split "#" eventKey in
      let stableUid := if JS.includes "#" eventKey then nth 0 parts EmptyString else eventKey in
      let recurrenceId := if JS.includes "#" eventKey then Some (nth 1 parts EmptyString) else None in
      let newSequence := EventState.sequence st + 1 in
      now ← Date_now;
      saveEventState eventKey
        {| EventState.sequence := newSequence; EventState.contentHash := "CANCELLED";
           EventState.lastSeen := now |} tenantHash;;
      today ← Date_now;
      mret (Some
        {| NormalizedEvent.stableUid := stableUid;
           NormalizedEvent.sequence := newSequence;
           NormalizedEvent.isException := JS.truthy (JS.optOrElse recurrenceId EmptyString);
           NormalizedEvent.recurrenceId := recurrenceId;
           NormalizedEvent.lines :=
             createCancelledEventLines today stableUid newSequence recurrenceId |})
  end.

(** The loop over [prevSnapshot.eventKeys]. *)
Fixpoint cancelLoop (tenantHash : option string) (currentKeys oldKeys : list string)
    (normalizedEvents : list NormalizedEvent) : M (list NormalizedEvent) :=
  match oldKeys with
  | [] => mret normalizedEvents
  | oldKey :: rest =>
      if negb (existsb (String.eqb oldKey) currentKeys) then
        cancelled ← createCancelledEventFromState oldKey tenantHash;
        cancelLoop tenantHash currentKeys rest
          (match cancelled with
           | Some ne => normalizedEvents ++ [ne]
           | None => normalizedEvents
           end)
      else cancelLoop tenantHash currentKeys rest normalizedEvents
  end.

Definition normalizeCalendar (parsed : ParsedCalendar) (tenantHash : option string)
    (defaultTimezone : option string) : M NormalizedCalendar :=
  '(normalizedEvents, currentKeys) ←
    eventLoop tenantHash defaultTimezone (events parsed) [] [];
  prevSnapshot ← getPreviousSnapshot tenantHash;
  normalizedEvents ←
    match prevSnapshot with
    | Some snap => cancelLoop tenantHash currentKeys (eventKeys snap) normalizedEvents
    | None => mret normalizedEvents
    end;
  saveSnapshotKeys currentKeys tenantHash;;
  mret {| parsed := parsed; normalizedEvents := normalizedEvents |}.
End Reconciler.

(** ** Concrete constants for evaluation *)

(** Modelled from the spec: lib/constants.ts is not among the sources.  The
    default zone is the fallback the specification names, the table holds
    the four entries that the specification and the README list, and the
    property order is the canonical order of the specification. *)
Definition specConstants : Constants :=
  {| DEFAULT_TIMEZONE := "America/New_York";
     MS_TO_IANA_TIMEZONES := fun tzid =>
       if String.eqb tzid "US Eastern Standard Time" then Some "America/Indiana/Indianapolis"
       else if String.eqb tzid "Eastern Standard Time" then Some "America/New_York"
       else if String.eqb tzid "Central Standard Time" then Some "America/Chicago"
       else if String.eqb tzid "Pacific Standard Time" then Some "America/Los_Angeles"
       else None;
     PROPERTY_ORDER :=
       ["DTSTAMP"; "DTSTART"; "DTEND"; "SUMMARY"; "DESCRIPTION"; "LOCATION";
        "STATUS"; "ORGANIZER"; "ATTENDEE"; "RECURRENCE-ID"; "RRULE"; "EXDATE";
        "RDATE"; "CREATED"; "LAST-MODIFIED"; "CATEGORIES"; "PRIORITY"; "TRANSP";
        "CLASS"] |}.

(** The collation by code units; it agrees with the collation of the runtime
    on the lower-case hexadecimal text of the stable identifiers. *)
Definition codeUnitLocale : Locale := {| localeCompare := String.compare |}.

(** A property without parameters. *)
Definition prop (n v : string) : IcsProperty := {| name := n; params := []; value := v |}.

(** ** Definitions that follow the words of the specification *)

(** A line that begins with a space or a tab continues the line before it. *)
Definition isContinuation (line : string) : bool :=
  JS.startsWith SP line || JS.startsWith TAB line.

(** Unfolding as the specification words it, with the first line kept as it
    is: [current] is the line being assembled, and a continuation line
    among [rest] is appended to it without its first character. *)
Fixpoint unfoldSpec (current : string) (rest : list string) : list string :=
  match rest with
  | [] => [current]
  | line :: rest' =>
      if isContinuation line then unfoldSpec (current +:+ JS.drop 1 line) rest'
      else current :: unfoldSpec line rest'
  end.

Definition unfoldLinesSpec (ics : string) : list string :=
  match JS.splitLines ics with
  | [] => []
  | first :: rest => unfoldSpec first rest
  end.

(** [s] has no occurrence of the character [c]. *)
Fixpoint lacks (c : ascii) (s : string) : bool :=
  match s with
  | EmptyString => true
  | String a s' => negb (JS.ascii_eqb a c) && lacks c s'
  end.


(** The continuation lines of a folded line, as the specification words
    them: each chunk of up to 74 characters of [rest] is preceded by a line
    break and one space.  [fuel] bounds the number of chunks. *)
Fixpoint continuation (fuel : nat) (rest : string) : string :=
  match fuel with
  | O => EmptyString
  | S fuel' =>
      if JS.truthy rest
      then CRLF +:+ SP +:+ JS.take 74 rest +:+ continuation fuel' (JS.drop 74 rest)
      else EmptyString
  end.

Definition foldedTail (rest : string) : string :=
  continuation (String.length rest) rest.

(** A calendar without events whose header holds a line of 80 characters. *)
Definition longHeaderLine : string :=
  "X-WR-CALDESC:0123456789012345678901234567890123456789012345678901234567890123456".

Definition headerOnlyCalendar : NormalizedCalendar :=
  {| parsed := {| headerLines := ["BEGIN:VCALENDAR"; longHeaderLine];
                  timezoneBlocks := []; events := [];
                  footerLines := ["END:VCALENDAR"] |};
     normalizedEvents := [] |}.

(** The text of [s] before its first [c]; all of [s] when it has none. *)
Fixpoint upTo (c : ascii) (s : string) : string :=
  match s with
  | EmptyString => EmptyString
  | String a s' => if JS.ascii_eqb a c then EmptyString else String a (upTo c s')
  end.

(** The first entry of a sorted list is there, is not empty and has no [T]. *)
Definition startsDateOnly (sorted : list string) : bool :=
  match sorted with
  | first :: _ => JS.truthy first && lacks "T" first
  | [] => false
  end.

(** The order of [xs.sort()] on strings. *)
Definition codeUnitLe (a b : string) : Prop := String.leb a b = true.

(** Every character of [s] satisfies [f]. *)
Fixpoint allChars (f : ascii -> bool) (s : string) : bool :=
  match s with
  | EmptyString => true
  | String a s' => f a && allChars f s'
  end.

(** A decimal digit or one of [a] .. [f]. *)
Definition isLowerHex (a : ascii) : bool :=
  JS.isDigit a || ((97 <=? nat_of_ascii a)%nat && (nat_of_ascii a <=? 102)%nat).

Definition named (n : string) (p : IcsProperty) : bool := String.eqb (name p) n.

(** The number of properties of an event that are named [n]. *)
Definition occurrences (n : string) (props : list IcsProperty) : nat :=
  List.length (List.filter (named n) props).

Definition stable (p : IcsProperty) : bool := negb (volatile p).

(** The state record that [getEventState] finds for a key. *)
Definition priorState (tenantHash : option string) (w : World) (eventKey : string)
  : option EventState :=
  fst (getEventState eventKey tenantHash w).

(** Two events with the same two DTSTART properties, in the two orders. *)
Definition twoStarts : IcsEvent :=
  {| uid := "X"; properties := [prop "DTSTART" "20240601"; prop "DTSTART" "20240602"];
     rawLines := [] |}.

Definition twoStartsSwapped : IcsEvent :=
  {| uid := "X"; properties := [prop "DTSTART" "20240602"; prop "DTSTART" "20240601"];
     rawLines := [] |}.

(** The event of the first scenario of the specification, and the same
    event with another time stamp. *)
Definition meeting : IcsEvent :=
  {| uid := "X";
     properties :=
       [prop "UID" "X"; prop "DTSTAMP" "20240101T000000Z";
        {| name := "DTSTART"; params := [("TZID", "Eastern Standard Time")];
           value := "20240601T090000" |};
        prop "SUMMARY" "M"; prop "ORGANIZER" "O"; prop "END" "VEVENT"];
     rawLines := [] |}.

Definition meetingRestamped : IcsEvent :=
  {| uid := "X";
     properties :=
       [prop "UID" "X";
        {| name := "DTSTART"; params := [("TZID", "Eastern Standard Time")];
           value := "20240601T090000" |};
        prop "SUMMARY" "M"; prop "SEQUENCE" "7"; prop "ORGANIZER" "O";
        prop "DTSTAMP" "20240202T000000Z"; prop "END" "VEVENT"];
     rawLines := [] |}.

(** A clock that starts at a fixed time and advances by one millisecond. *)
Definition sampleClock (n : nat) : Z := 1700000000000 + Z.of_nat n.

Definition emptyWorld : World := {| kv := ∅; clock := sampleClock; ticks := 0 |}.

(** The stable identifier that an event key begins with. *)
Definition stableUidOfKey (eventKey : string) : string := upTo "#" eventKey.

(** A key of the previous snapshot has disappeared and still has a state
    record: it is not a key of the current events, and [prior] has it. *)
Definition disappeared (currentKeys : list string)
    (prior : string -> option EventState) (oldKey : string) : bool :=
  negb (existsb (String.eqb oldKey) currentKeys)
  && match prior oldKey with Some _ => true | None => false end.

(** [ne] is the cancellation of [eventKey]: it carries the stable identifier
    of the key, [STATUS:CANCELLED], and the stored sequence plus one. *)
Definition cancellationOf (prior : string -> option EventState) (eventKey : string)
    (ne : NormalizedEvent) : Prop :=
  exists st,
    prior eventKey = Some st
    /\ NormalizedEvent.stableUid ne = stableUidOfKey eventKey
    /\ NormalizedEvent.sequence ne = EventState.sequence st + 1
    /\ In "STATUS:CANCELLED" (NormalizedEvent.lines ne)
    /\ In ("UID:" +:+ stableUidOfKey eventKey +:+ "@calproxy") (NormalizedEvent.lines ne)
    /\ In ("SEQUENCE:" +:+ JS.toString (EventState.sequence st + 1))
          (NormalizedEvent.lines ne).

Section LoopResults.
Context `{Constants} `{Locale}.

(** The world after the loop over the parsed events, and the events the
    loop has pushed. *)
Fixpoint worldAfter (tenantHash defaultTimezone : option string) (evs : list IcsEvent)
    (w : World) : World :=
  match evs with
  | [] => w
  | event :: rest =>
      worldAfter tenantHash defaultTimezone rest
        (snd (processEvent tenantHash defaultTimezone event w))
  end.

Fixpoint eventsFrom (tenantHash defaultTimezone : option string) (evs : list IcsEvent)
    (w : World) : list NormalizedEvent :=
  match evs with
  | [] => []
  | event :: rest =>
      snd (fst (processEvent tenantHash defaultTimezone event w))
      :: eventsFrom tenantHash defaultTimezone rest
           (snd (processEvent tenantHash defaultTimezone event w))
  end.
End LoopResults.

(** A store that holds a snapshot with one key and no state record for it,
    and a store whose snapshot lists one key twice. *)
Definition orphanWorld : World :=
  {| kv := {[ "snapshot:keys" := VSnapshot {| eventKeys := ["abc"]; generatedAt := 0 |} ]};
     clock := sampleClock; ticks := 0 |}.

Definition repeatedKeyWorld : World :=
  {| kv := <[ "event:abc" := VEventState {| EventState.sequence := 3;
                                             EventState.contentHash := "h";
                                             EventState.lastSeen := 0 |} ]>
           {[ "snapshot:keys" := VSnapshot {| eventKeys := ["abc"; "abc"];
                                              generatedAt := 0 |} ]};
     clock := sampleClock; ticks := 0 |}.

Definition emptyCalendar : ParsedCalendar :=
  {| headerLines := ["BEGIN:VCALENDAR"]; timezoneBlocks := []; events := [];
     footerLines := [] |}.

(** A calendar with the one event [meeting], and a store whose snapshot
    holds the key of an exception, with its state record. *)
Definition meetingCalendar : ParsedCalendar :=
  {| headerLines := ["BEGIN:VCALENDAR"]; timezoneBlocks := []; events := [meeting];
     footerLines := ["END:VCALENDAR"] |}.

Definition departedWorld : World :=
  {| kv := <[ "event:abc#20240601T090000" :=
                VEventState {| EventState.sequence := 3; EventState.contentHash := "h";
                               EventState.lastSeen := 0 |} ]>
           {[ "snapshot:keys" :=
                VSnapshot {| eventKeys := ["abc#20240601T090000"]; generatedAt := 0 |} ]};
     clock := sampleClock; ticks := 0 |}.

(** The feed of the first scenario of the specification, with a time stamp
    and a summary to choose. *)
Definition scenarioFeed (dtstamp summary : string) : string :=
  JS.join CRLF
    ["BEGIN:VCALENDAR"; "VERSION:2.0"; "BEGIN:VEVENT"; "UID:X";
     "DTSTAMP:" +:+ dtstamp;
     "DTSTART;TZID=Eastern Standard Time:20240601T090000";
     "SUMMARY:" +:+ summary; "ORGANIZER:O"; "END:VEVENT"; "END:VCALENDAR"].

(** One run of the reconciliation on a feed, for the tenant [t1]. *)
Definition runFeed (feed : string) (w : World) : NormalizedCalendar * World :=
  @normalizeCalendar specConstants codeUnitLocale (parseIcs feed) (Some "t1") None w.

(** The stable identifiers and the sequence numbers of the events of an
    output. *)
Definition sequencesOf (c : NormalizedCalendar) : list (string * Z) :=
  map (fun ne => (NormalizedEvent.stableUid ne, NormalizedEvent.sequence ne))
      (normalizedEvents c).


Section AfterLoops.
Context `{Constants} `{Locale}.

(** The world after the two loops of [normalizeCalendar]. *)
Definition afterLoops (parsed : ParsedCalendar) (tenantHash defaultTimezone : option string)
    (w : World) : World :=
  let reached := worldAfter tenantHash defaultTimezone (events parsed) w in
  match kv reached !! snapshotStoreKey tenantHash with
  | Some (VSnapshot snap) =>
      snd (cancelLoop tenantHash (map eventKeyOf (events parsed)) (eventKeys snap)
             (eventsFrom tenantHash defaultTimezone (events parsed) w) reached)
  | _ => reached
  end.

End AfterLoops.
(** A namespace that the tenants [t1] and [t2] share: [t1] has a snapshot
    with one key and the state record of that key, [t2] has a state record
    for the same key. *)
Definition sharedWorld : World :=
  {| kv := <[ "t2:event:abc" := VEventState {| EventState.sequence := 5;
                                                EventState.contentHash := "h";
                                                EventState.lastSeen := 0 |} ]>
           (<[ "t1:event:abc" := VEventState {| EventState.sequence := 3;
                                                 EventState.contentHash := "h";
                                                 EventState.lastSeen := 0 |} ]>
            {[ "t1:snapshot:keys" := VSnapshot {| eventKeys := ["abc"];
                                                  generatedAt := 0 |} ]});
     clock := sampleClock; ticks := 0 |}.

(** The name and the value of a property, without its parameters. *)
Definition nameValue (p : IcsProperty) : string * string := (name p, value p).

(** Two events with the same summary and the same start: the second one
    lists them in the other order, names another zone in the parameter of
    the start and carries a time stamp. *)
Definition lunch : IcsEvent :=
  {| uid := "L";
     properties :=
       [prop "SUMMARY" "Lunch";
        {| name := "DTSTART"; params := [("TZID", "Eastern Standard Time")];
           value := "20240601T120000" |}];
     rawLines := [] |}.

Definition lunchReordered : IcsEvent :=
  {| uid := "L";
     properties :=
       [{| name := "DTSTART"; params := [("TZID", "Pacific Standard Time")];
           value := "20240601T120000" |};
        prop "DTSTAMP" "20240101T000000Z";
        prop "SUMMARY" "Lunch"];
     rawLines := [] |}.

(** ** The shape of what the parser returns *)

(** The properties that the lines of an event give: the lines without a
    colon give none. *)
Definition parsedProps (lines : list string) : list IcsProperty :=
  flat_map (fun line => match parseProperty line with Some p => [p] | None => [] end)
           lines.

(** The value of the last UID among [props], the empty string without one. *)
Definition lastUid (props : list IcsProperty) : string :=
  fold_left (fun u p => if String.eqb (name p) "UID" then value p else u)
            props EmptyString.

Definition eventBlock (body : list string) : list string :=
  "BEGIN:VEVENT" :: body ++ ["END:VEVENT"].

Definition timezoneBlock (body : list string) : list string :=
  "BEGIN:VTIMEZONE" :: body ++ ["END:VTIMEZONE"].

(** The event that the parser makes of the lines [body] between
    BEGIN:VEVENT and END:VEVENT. *)
Definition eventOfBody (body : list string) : IcsEvent :=
  {| uid := lastUid (parsedProps (body ++ ["END:VEVENT"]));
     properties := parsedProps (body ++ ["END:VEVENT"]);
     rawLines := eventBlock body |}.

(** The lines that can stand before the first block, inside an event and
    inside a time zone block without opening or closing a block. *)
Definition headerLine (line : string) : bool :=
  negb (oneOf ["BEGIN:VTIMEZONE"; "BEGIN:VEVENT"] line).

Definition eventBodyLine (line : string) : bool :=
  negb (oneOf ["BEGIN:VTIMEZONE"; "BEGIN:VEVENT"; "END:VEVENT"] line).

Definition timezoneBodyLine (line : string) : bool :=
  negb (oneOf ["BEGIN:VTIMEZONE"; "END:VTIMEZONE"] line).

Definition wellFormedEvent (e : IcsEvent) : Prop :=
  exists body, forallb eventBodyLine body = true /\ e = eventOfBody body.

Definition wellFormedBlock (block : string) : Prop :=
  exists body,
    forallb timezoneBodyLine body = true /\ block = JS.join CRLF (timezoneBlock body).

(** What holds of the variables of [parseIcs] after every line. *)
Definition parserInvariant (st : ParserState) : Prop :=
  Forall wellFormedEvent (events (out st))
  /\ Forall wellFormedBlock (timezoneBlocks (out st))
  /\ Forall (eq "END:VCALENDAR") (footerLines (out st))
  /\ (inEvent st = true ->
      exists body,
        currentEventLines st = "BEGIN:VEVENT" :: body
        /\ forallb eventBodyLine body = true
        /\ currentEventProps st = parsedProps body
        /\ currentUid st = lastUid (parsedProps body))
  /\ (inTimezone st = true ->
      exists body,
        currentTimezoneLines st = "BEGIN:VTIMEZONE" :: body
        /\ forallb timezoneBodyLine body = true).

(** The state of the parser between two blocks. *)
Definition idle (c : ParsedCalendar) (tzLines evLines : list string)
    (props : list IcsProperty) (u : string) (done : bool) : ParserState :=
  {| out := c; inTimezone := false; inEvent := false;
     currentTimezoneLines := tzLines; currentEventLines := evLines;
     currentEventProps := props; currentUid := u; headerDone := done |}.

(** A feed with a header, time zone blocks, events and the closing line. *)
Definition feedLines (header : list string) (zones bodies : list (list string))
  : list string :=
  header ++ flat_map timezoneBlock zones ++ flat_map eventBlock bodies
  ++ ["END:VCALENDAR"].

Definition sampleHeader : list string := ["BEGIN:VCALENDAR"; "VERSION:2.0"].

Definition sampleZone : list string := ["TZID:Eastern Standard Time"].

Definition sampleBody : list string := ["UID:X"; "SUMMARY:M"; "no colon here"].

(** The distinct names of [props], in the order of their first occurrence. *)
Definition distinctNames (props : list IcsProperty) : list string :=
  fold_left (fun names p => if oneOf names (name p) then names else names ++ [name p])
            props [].

(** The names that [normalizeEventLines] leaves to its last loop. *)
Definition unordered (order : list string) (n : string) : bool :=
  negb (oneOf (["UID"; "SEQUENCE"; "BEGIN"; "END"] ++ order) n).

(** A property whose normalized line cannot depend on the default zone: it
    is not one of DTSTART, DTEND and RECURRENCE-ID, or it names a zone of
    its own, or its value is a date or a UTC time. *)
Definition zoneFree (p : IcsProperty) : bool :=
  negb (oneOf ["DTSTART"; "DTEND"; "RECURRENCE-ID"] (name p))
  || JS.truthy (JS.optOrElse (Map_get "TZID" (params p)) EmptyString)
  || isDateOnly (parseDateTimeValue (value p))
  || isUtc (parseDateTimeValue (value p)).

(** An event with a date, a UTC time stamp and a start in a zone of its
    own. *)
Definition zonedEvent : IcsEvent :=
  {| uid := "Z";
     properties :=
       [prop "DTSTAMP" "20240101T000000Z";
        {| name := "DTSTART"; params := [("TZID", "Pacific Standard Time")];
           value := "20240601T090000" |};
        prop "DTEND" "20240602"; prop "SUMMARY" "Z"];
     rawLines := [] |}.

(** An exception and a master, the exception first. *)
Definition unsortedEvents : list NormalizedEvent :=
  [ {| NormalizedEvent.stableUid := "b"; NormalizedEvent.sequence := 0;
       NormalizedEvent.isException := true;
       NormalizedEvent.recurrenceId := Some "20240601T090000";
       NormalizedEvent.lines := [] |};
    {| NormalizedEvent.stableUid := "c"; NormalizedEvent.sequence := 0;
       NormalizedEvent.isException := false; NormalizedEvent.recurrenceId := None;
       NormalizedEvent.lines := [] |};
    {| NormalizedEvent.stableUid := "a"; NormalizedEvent.sequence := 1;
       NormalizedEvent.isException := false; NormalizedEvent.recurrenceId := None;
       NormalizedEvent.lines := [] |} ].

(** A name that the parser reads back as it is: in upper case, without a
    colon and without a semicolon. *)
Definition plainName (n : string) : bool :=
  String.eqb (JS.toUpperCase n) n && lacks ":" n && lacks ";" n.

(** A parameter that the parser reads back as it is. *)
Definition plainParam (kv : string * string) : bool :=
  plainName (fst kv) && lacks "=" (fst kv) && lacks ":" (snd kv) && lacks ";" (snd kv).

(** The text of the parameters in a reconstructed line. *)
Fixpoint paramText (ps : JsMap) : string :=
  match ps with
  | [] => EmptyString
  | kv :: rest => ";" +:+ fst kv +:+ "=" +:+ snd kv +:+ paramText rest
  end.

(** An attendee with two parameters, the later one first. *)
Definition attendee : IcsProperty :=
  {| name := "ATTENDEE"; params := [("ROLE", "CHAIR"); ("CN", "Ada")];
     value := "mailto:ada@example.org" |}.

(** ** Snapshots and tenants of the state store (lib/state.ts) *)

(** [TenantConfig] *)
Record TenantConfig : Type := {
  sourceUrl : string;
  createdAt : Z;
  timezone : option string;
}.

Section Snapshots.
(** [JSON.stringify] on the records of the store, and [JSON.parse] on the
    text of a tenant configuration: [None] where it throws or gives
    [null]. *)
Context (stateJson : EventState -> string) (snapshotJson : CalendarSnapshot -> string).
Context (parseConfig : string -> option TenantConfig).

(** The text that [kv.get] returns for a stored value. *)
Definition storedText (v : KvValue) : string :=
  match v with
  | VEventState st => stateJson st
  | VSnapshot snap => snapshotJson snap
  | VText text => text
  end.

Definition latestStoreKey (prefix : option string) : string :=
  scoped prefix "snapshot:latest".

Definition upstreamHashStoreKey (prefix : option string) : string :=
  scoped prefix "snapshot:upstream_hash".

Definition getLastGoodSnapshot (prefix : option string) : M (option string) :=
  data ← kvGet (latestStoreKey prefix);
  mret (option_map storedText data).

Definition saveSnapshot (content upstreamHash : string) (prefix : option string)
  : M unit :=
  kvPut (latestStoreKey prefix) (VText content);;
  kvPut (upstreamHashStoreKey prefix) (VText upstreamHash).

Definition getUpstreamHash (prefix : option string) : M (option string) :=
  data ← kvGet (upstreamHashStoreKey prefix);
  mret (option_map storedText data).

(** [if (data) return JSON.parse(data)], and [null] otherwise *)
Definition getTenantConfig (hash : string) : M (option TenantConfig) :=
  data ← kvGet ("tenant:" +:+ hash);
  mret (match data with
        | Some v => if JS.truthy (storedText v) then parseConfig (storedText v) else None
        | None => None
        end).
End Snapshots.

(** ** The request handler of a tenant (index.ts) *)

(** What an awaited call gives: a value, or the error it throws. *)
Inductive Outcome (A : Type) : Type :=
| Returned (a : A)
| Thrown (error : string).
Arguments Returned {A} a.
Arguments Thrown {A} error.

(** The response of the upstream server: its status, and what reading its
    text gives. *)
Record UpstreamResponse : Type := {
  upstreamStatus : Z;
  upstreamText : Outcome string;
}.

(** [response.ok] *)
Definition upstreamOk (r : UpstreamResponse) : bool :=
  (200 <=? upstreamStatus r) && (upstreamStatus r <=? 299).

Module Response.
Record t : Type := {
  status : Z;
  body : option string;
  headers : list (string * string);
}.
End Response.

Definition corsHeaders : list (string * string) :=
  [("Access-Control-Allow-Origin", "*");
   ("Access-Control-Allow-Methods", "GET, HEAD, POST, OPTIONS");
   ("Access-Control-Allow-Headers", "Content-Type, If-None-Match")].

Definition QUOTE : string := String "034" EmptyString.

Definition createIcsResponse (content etag : string) : Response.t :=
  {| Response.status := 200;
     Response.body := Some content;
     Response.headers :=
       [("Content-Type", "text/calendar; charset=utf-8");
        ("Content-Disposition",
         "attachment; filename=" +:+ QUOTE +:+ "calendar.ics" +:+ QUOTE);
        ("Cache-Control", "no-store, no-cache, must-revalidate, max-age=0");
        ("ETag", etag)] ++ corsHeaders |}.

(** [new Response(null, { status: 304, headers: { ETag: etag, ... } })] *)
Definition notModified (etag : string) : Response.t :=
  {| Response.status := 304; Response.body := None;
     Response.headers := ("ETag", etag) :: corsHeaders |}.

(** A response with a text and the CORS headers. *)
Definition failure (status : Z) (text : string) : Response.t :=
  {| Response.status := status; Response.body := Some text;
     Response.headers := corsHeaders |}.

(** [ifNoneMatch === etag] *)
Definition matches (ifNoneMatch : option string) (etag : string) : bool :=
  match ifNoneMatch with
  | Some t => String.eqb t etag
  | None => false
  end.

(** [a || b] where both may be [undefined] *)
Definition orUndefined (a b : option string) : option string :=
  match a with
  | Some s => if JS.truthy s then Some s else b
  | None => b
  end.

(** [text ? then(text) : otherwise] where [text] may be [null] *)
Definition ifText {A : Type} (text : option string) (yes : string -> A) (no : A) : A :=
  match text with
  | Some s => if JS.truthy s then yes s else no
  | None => no
  end.

Section Handler.
Context `{Constants} `{Locale}.
(** [computeEtag] and [computeHash] of the library, whose text is not among
    the sources. *)
Context (computeEtag computeHash : string -> string).
Context (stateJson : EventState -> string) (snapshotJson : CalendarSnapshot -> string).
Context (parseConfig : string -> option TenantConfig).

(** [createIcsResponse(lastGood, await computeEtag(lastGood))] *)
Definition serveSnapshot (lastGood : string) : Response.t :=
  createIcsResponse lastGood (computeEtag lastGood).

(** The [catch] block of [handleCalendarRequest]. *)
Definition caught (hash error : string) : M Response.t :=
  lastGood ← getLastGoodSnapshot stateJson snapshotJson (Some hash);
  mret (ifText lastGood serveSnapshot
          (failure 500 ("Error processing calendar: " +:+ error))).

(** From [const parsed = parseIcs(rawIcs)] to the end of the [try] block;
    the task given to [ctx.waitUntil] is run before the handler ends. *)
Definition serveFresh (ifNoneMatch : option string) (hash : string)
    (effectiveTimezone : option string) (rawIcs upstreamHash : string) : M Response.t :=
  let parsed := parseIcs rawIcs in
  normalized ← normalizeCalendar parsed (Some hash) effectiveTimezone;
  let output := serializeCalendar normalized effectiveTimezone in
  let etag := computeEtag output in
  if matches ifNoneMatch etag then mret (notModified etag)
  else
    saveSnapshot output upstreamHash (Some hash);;
    mret (createIcsResponse output etag).

(** From [const upstreamHash = await computeHash(rawIcs)] on. *)
Definition serveCachedOrFresh (ifNoneMatch : option string) (hash : string)
    (effectiveTimezone : option string) (rawIcs : string) : M Response.t :=
  let upstreamHash := computeHash rawIcs in
  cachedHash ← getUpstreamHash stateJson snapshotJson (Some hash);
  cached ←
    (if decide (cachedHash = Some upstreamHash)
     then getLastGoodSnapshot stateJson snapshotJson (Some hash)
     else mret None);
  ifText cached
    (fun cached =>
       let etag := computeEtag cached in
       mret (if matches ifNoneMatch etag then notModified etag
             else createIcsResponse cached etag))
    (serveFresh ifNoneMatch hash effectiveTimezone rawIcs upstreamHash).

(** From [const rawIcs = await response.text()] on. *)
Definition serveText (ifNoneMatch : option string) (hash : string)
    (effectiveTimezone : option string) (rawIcs : string) : M Response.t :=
  if negb (JS.includes "BEGIN:VCALENDAR" rawIcs)
  then mret (failure 502 "Invalid ICS: missing VCALENDAR")
  else
    lastGood ←
      (if negb (JS.includes "BEGIN:VEVENT" rawIcs)
       then getLastGoodSnapshot stateJson snapshotJson (Some hash)
       else mret None);
    ifText lastGood (fun lastGood => mret (serveSnapshot lastGood))
      (serveCachedOrFresh ifNoneMatch hash effectiveTimezone rawIcs).

(** [handleCalendarRequest]: [ifNoneMatch] is the header of the request,
    [envTimezone] is [env.DEFAULT_TIMEZONE], and [upstream] is what
    [fetch(config.sourceUrl, ...)] gives. *)
Definition handleCalendarRequest (ifNoneMatch : option string) (hash : string)
    (envTimezone : option string) (upstream : Outcome UpstreamResponse)
  : M Response.t :=
  config ← getTenantConfig stateJson snapshotJson parseConfig hash;
  match config with
  | None =>
      mret {| Response.status := 404; Response.body := Some "Calendar not found";
              Response.headers := [] |}
  | Some config =>
      let effectiveTimezone := orUndefined (timezone config) envTimezone in
      match upstream with
      | Thrown error => caught hash error
      | Returned response =>
          if negb (upstreamOk response) then
            lastGood ← getLastGoodSnapshot stateJson snapshotJson (Some hash);
            mret (if JS.truthy (default EmptyString lastGood)
                     && (400 <=? upstreamStatus response)
                  then serveSnapshot (default EmptyString lastGood)
                  else failure 502 ("Upstream calendar unavailable: "
                                    +:+ JS.toString (upstreamStatus response)))
          else
            match upstreamText response with
            | Thrown error => caught hash error
            | Returned rawIcs => serveText ifNoneMatch hash effectiveTimezone rawIcs
            end
      end
  end.
End Handler.
(** A namespace with the one tenant [ab12], a decoder that takes the stored
    text for the address of the feed, and an upstream server that answers
    with the feed of the first scenario. *)
Definition tenantWorld : World :=
  {| kv := {[ "tenant:ab12" := VText "https://example.org/calendar.ics" ]};
     clock := sampleClock; ticks := 0 |}.

Definition sampleConfig (text : string) : option TenantConfig :=
  Some {| sourceUrl := text; createdAt := 0; timezone := None |}.

Definition sampleUpstream : Outcome UpstreamResponse :=
  Returned {| upstreamStatus := 200;
              upstreamText := Returned (scenarioFeed "20240101T000000Z" "M") |}.

(** The handler with the constants of the specification, the collation by
    code units and SHA-256 for the two digests. *)
Definition sampleHandler (ifNoneMatch : option string) (w : World) : Response.t * World :=
  @handleCalendarRequest specConstants codeUnitLocale sha256Hex sha256Hex
    (fun _ => "{}") (fun _ => "{}") sampleConfig ifNoneMatch "ab12" None
    sampleUpstream w.

(** A line that can be folded and found again: it has no line feed and does
    not begin with a space or a tab. *)
Definition foldable (line : string) : bool :=
  lacks "010" line && negb (isContinuation line).

(** The calendar [parsed] with the events [evs] in place of its own. *)
Definition withEvents (parsed : ParsedCalendar) (evs : list IcsEvent) : ParsedCalendar :=
  {| headerLines := headerLines parsed; timezoneBlocks := timezoneBlocks parsed;
     events := evs; footerLines := footerLines parsed |}.

(** * Properties *)

(** ** Facts about the string primitives *)

Section StringFacts.
Implicit Types (s t p : string) (a c : ascii) (n : nat).

Lemma append_nil_l s : "" +:+ s = s.
Proof. reflexivity. Qed.

Lemma append_cons a s t : String a s +:+ t = String a (s +:+ t).
Proof. reflexivity. Qed.

Lemma append_nil_r s : s +:+ "" = s.
Proof. induction s as [|a s IH]; [reflexivity|]. by rewrite append_cons, IH. Qed.

Lemma append_assoc s t p : (s +:+ t) +:+ p = s +:+ (t +:+ p).
Proof. induction s as [|a s IH]; [reflexivity|]. by rewrite !append_cons, IH. Qed.

Lemma length_append s t : String.length (s +:+ t) = (String.length s + String.length t)%nat.
Proof. induction s as [|a s IH]; [reflexivity|]. rewrite append_cons. simpl. by rewrite IH. Qed.

Lemma take_drop n s : JS.take n s +:+ JS.drop n s = s.
Proof.
  revert s; induction n as [|n IH]; intros [|a s]; try reflexivity.
  simpl. by rewrite append_cons, IH.
Qed.

Lemma length_take n s : String.length (JS.take n s) = Nat.min n (String.length s).
Proof. revert s; induction n as [|n IH]; intros [|a s]; simpl; auto. Qed.

Lemma length_drop n s : String.length (JS.drop n s) = (String.length s - n)%nat.
Proof. revert s; induction n as [|n IH]; intros [|a s]; simpl; auto. Qed.

Lemma take_all n s : (String.length s <= n)%nat -> JS.take n s = s.
Proof.
  revert s; induction n as [|n IH]; intros [|a s]; simpl; intros Hl; try reflexivity.
  - lia.
  - f_equal. apply IH. lia.
Qed.

Lemma take_append s t : JS.take (String.length s) (s +:+ t) = s.
Proof. induction s as [|a s IH]; [by destruct t|]. rewrite append_cons. simpl. by rewrite IH. Qed.

Lemma drop_append s t : JS.drop (String.length s) (s +:+ t) = t.
Proof. induction s as [|a s IH]; [by destruct t|]. rewrite append_cons. simpl. by rewrite IH. Qed.

Lemma ascii_eqb_refl a : JS.ascii_eqb a a = true.
Proof. apply Ascii.eqb_refl. Qed.

Lemma ascii_eqb_eq a c : JS.ascii_eqb a c = true <-> a = c.
Proof. apply Ascii.eqb_eq. Qed.

Lemma ascii_eqb_neq a c : JS.ascii_eqb a c = false <-> a <> c.
Proof. apply Ascii.eqb_neq. Qed.

Lemma startsWith_append p s : JS.startsWith p (p +:+ s) = true.
Proof.
  induction p as [|a p IH]; [by destruct s|].
  rewrite append_cons. simpl. by rewrite ascii_eqb_refl, IH.
Qed.

Lemma startsWith_spec p s : JS.startsWith p s = true <-> exists t, s = p +:+ t.
Proof.
  split.
  - revert s; induction p as [|a p IH]; intros s Hp.
    + by exists s.
    + destruct s as [|b s]; [discriminate|]. simpl in Hp.
      apply andb_true_iff in Hp as [Hab Hp]. apply ascii_eqb_eq in Hab as ->.
      destruct (IH _ Hp) as [t ->]. by exists t.
  - intros [t ->]. apply startsWith_append.
Qed.
End StringFacts.

(** ** Line unfolding *)

Section Unfolding.

Lemma alter_last {A : Type} (f : A -> A) (acc : list A) (x : A) :
  alter f (List.length (acc ++ [x]) - 1)%nat (acc ++ [x]) = acc ++ [f x].
Proof.
  rewrite length_app. simpl.
  replace (List.length acc + 1 - 1)%nat with (List.length acc + 0)%nat by lia.
  by rewrite alter_app_r.
Qed.

Lemma unfoldStep_continuation acc cur line :
  isContinuation line = true ->
  unfoldStep (acc ++ [cur]) line = acc ++ [cur +:+ JS.drop 1 line].
Proof.
  intros Hc. unfold unfoldStep. unfold isContinuation in Hc. rewrite Hc.
  assert ((0 <? List.length (acc ++ [cur]))%nat = true) as ->.
  { apply Nat.ltb_lt. rewrite length_app. simpl. lia. }
  cbn [andb]. apply (alter_last (fun prev => prev +:+ JS.drop 1 line)).
Qed.

Lemma unfoldStep_fresh acc line :
  isContinuation line = false -> unfoldStep acc line = acc ++ [line].
Proof. intros Hc. unfold unfoldStep. unfold isContinuation in Hc. by rewrite Hc. Qed.

Lemma unfoldStep_first line : unfoldStep [] line = [line].
Proof. unfold unfoldStep. simpl. by rewrite andb_false_r. Qed.

Lemma unfold_loop rest : forall acc cur,
  fold_left unfoldStep rest (acc ++ [cur]) = acc ++ unfoldSpec cur rest.
Proof.
  induction rest as [|line rest IH]; intros acc cur; [reflexivity|].
  simpl. destruct (isContinuation line) eqn:Hc.
  - rewrite unfoldStep_continuation by done. apply IH.
  - rewrite unfoldStep_fresh by done. rewrite IH. by rewrite <- app_assoc.
Qed.

Lemma unfoldLines_refines ics : unfoldLines ics = unfoldLinesSpec ics.
Proof.
  unfold unfoldLines, unfoldLinesSpec.
  destruct (JS.splitLines ics) as [|first rest]; [reflexivity|].
  simpl. rewrite unfoldStep_first. apply (unfold_loop rest [] first).
Qed.
End Unfolding.

(** ** Splitting into raw lines *)

Section SplitLines.
Implicit Types (s l rest : string) (a c : ascii).

Lemma splitLines_cons a s :
  JS.ascii_eqb a "010" = false ->
  JS.ascii_eqb a "013" && JS.startsWith LF s = false ->
  JS.splitLines (String a s) =
    match JS.splitLines s with
    | h :: t => String a h :: t
    | [] => [String a EmptyString]
    end.
Proof. intros Ha Hb. cbn [JS.splitLines]. fold LF. by rewrite Ha, Hb. Qed.

Lemma ascii_eqb_sym a c : JS.ascii_eqb a c = JS.ascii_eqb c a.
Proof. apply Ascii.eqb_sym. Qed.

Lemma startsWith_LF_cons c s : JS.startsWith LF (String c s) = JS.ascii_eqb "010" c.
Proof. unfold LF. cbn [JS.startsWith]. apply andb_true_r. Qed.

Lemma lacks_cons c a s :
  lacks c (String a s) = true <-> JS.ascii_eqb a c = false /\ lacks c s = true.
Proof. cbn [lacks]. rewrite andb_true_iff, negb_true_iff. tauto. Qed.

Lemma startsWith_LF_lacks l rest c :
  lacks "010" l = true -> JS.ascii_eqb c "010" = false ->
  JS.startsWith LF (l +:+ String c rest) = false.
Proof.
  intros Hl Hc. destruct l as [|b l].
  - rewrite append_nil_l, startsWith_LF_cons. by rewrite ascii_eqb_sym.
  - apply lacks_cons in Hl as [Hb _].
    rewrite append_cons, startsWith_LF_cons. by rewrite ascii_eqb_sym.
Qed.

(** A carriage return and a line feed end a line. *)
Lemma splitLines_crlf l rest :
  lacks "010" l = true ->
  JS.splitLines (l +:+ CRLF +:+ rest) = l :: JS.splitLines rest.
Proof.
  intros Hl. induction l as [|a l IH].
  - rewrite append_nil_l. unfold CRLF. rewrite !append_cons, append_nil_l.
    cbn [JS.splitLines]. fold LF. rewrite startsWith_LF_cons, !ascii_eqb_refl.
    replace (JS.ascii_eqb "013" "010") with false by reflexivity. reflexivity.
  - apply lacks_cons in Hl as [Ha Hl].
    rewrite append_cons. rewrite splitLines_cons; [by rewrite IH | done |].
    apply andb_false_intro2. unfold CRLF. rewrite append_cons.
    by apply startsWith_LF_lacks.
Qed.

(** A line feed alone ends a line that does not end in a carriage return. *)
Lemma splitLines_lf l rest :
  lacks "010" l = true -> JS.endsWith "013" l = false ->
  JS.splitLines (l +:+ LF +:+ rest) = l :: JS.splitLines rest.
Proof.
  intros Hl. induction l as [|a l IH]; intros He.
  - rewrite append_nil_l. unfold LF. rewrite append_cons, append_nil_l.
    cbn [JS.splitLines]. by rewrite ascii_eqb_refl.
  - apply lacks_cons in Hl as [Ha Hl].
    rewrite append_cons. destruct l as [|b l].
    + unfold JS.endsWith in He. cbn [JS.last] in He.
      rewrite append_nil_l in *. rewrite splitLines_cons; [| done | by rewrite He].
      specialize (IH eq_refl eq_refl). by rewrite IH.
    + rewrite splitLines_cons; [rewrite IH; auto | done |].
      apply andb_false_intro2. apply lacks_cons in Hl as [Hb _].
      rewrite append_cons, startsWith_LF_cons. by rewrite ascii_eqb_sym.
Qed.

(** Text without a line feed is one line. *)
Lemma splitLines_one l : lacks "010" l = true -> JS.splitLines l = [l].
Proof.
  induction l as [|a l IH]; intros Hl; [reflexivity|].
  apply lacks_cons in Hl as [Ha Hl].
  rewrite splitLines_cons; [by rewrite IH | done |].
  apply andb_false_intro2. destruct l as [|b l]; [reflexivity|].
  apply lacks_cons in Hl as [Hb _].
  rewrite startsWith_LF_cons. by rewrite ascii_eqb_sym.
Qed.
End SplitLines.

(** ** C8: line unfolding *)

Section UnfoldLines.

Lemma splitLines_nonempty ics : JS.splitLines ics <> [].
Proof.
  induction ics as [|a s IH]; [discriminate|]. cbn [JS.splitLines].
  destruct (JS.ascii_eqb a "010"); [discriminate|].
  destruct (_ && _); [exact IH|]. destruct (JS.splitLines s); discriminate.
Qed.

Lemma unfoldSpec_head rest : forall first,
  exists joined tail, unfoldSpec first rest = (first +:+ joined) :: tail.
Proof.
  induction rest as [|line rest IH]; intros first.
  - exists EmptyString, []. by rewrite append_nil_r.
  - cbn [unfoldSpec]. destruct (isContinuation line).
    + destruct (IH (first +:+ JS.drop 1 line)) as (joined & tail & ->).
      exists (JS.drop 1 line +:+ joined), tail. by rewrite append_assoc.
    + exists EmptyString, (unfoldSpec line rest). by rewrite append_nil_r.
Qed.

(** C8, against the claim as it is stated: a continuation line at position 0
    is not discarded; it is the first line of the result, with its leading
    white space. *)
Lemma unfoldLines_keeps_first_continuation :
  unfoldLines (" abc" +:+ LF +:+ "d") = [" abc"; "d"]
  /\ In " abc" (unfoldLines (" abc" +:+ LF +:+ "d")).
Proof. split; [reflexivity | by left]. Qed.

(** C8, as amended.  [unfoldLines] breaks its input at every line feed, a
    carriage return directly before the line feed belonging to the break;
    every later line that begins with a space or a tab is appended, without
    that first character, to the line before it; and the first line is kept
    as it is, also when it begins with a space or a tab. *)
Theorem unfoldLines_spec :
  (forall l rest, lacks "010" l = true ->
     JS.splitLines (l +:+ CRLF +:+ rest) = l :: JS.splitLines rest)
  /\ (forall l rest, lacks "010" l = true -> JS.endsWith "013" l = false ->
        JS.splitLines (l +:+ LF +:+ rest) = l :: JS.splitLines rest)
  /\ (forall l, lacks "010" l = true -> JS.splitLines l = [l])
  /\ (forall ics, exists first rest,
        JS.splitLines ics = first :: rest /\ unfoldLines ics = unfoldSpec first rest)
  /\ (forall current, unfoldSpec current [] = [current])
  /\ (forall current line rest, isContinuation line = true ->
        unfoldSpec current (line :: rest)
        = unfoldSpec (current +:+ JS.drop 1 line) rest)
  /\ (forall current line rest, isContinuation line = false ->
        unfoldSpec current (line :: rest) = current :: unfoldSpec line rest)
  /\ (forall first rest, exists joined tail,
        unfoldSpec first rest = (first +:+ joined) :: tail).
Proof.
  repeat split.
  - apply splitLines_crlf.
  - apply splitLines_lf.
  - apply splitLines_one.
  - intros ics. rewrite unfoldLines_refines. unfold unfoldLinesSpec.
    pose proof (splitLines_nonempty ics) as Hne.
    destruct (JS.splitLines ics) as [|first rest]; [done | by exists first, rest].
  - intros current line rest Hc. cbn [unfoldSpec]. by rewrite Hc.
  - intros current line rest Hc. cbn [unfoldSpec]. by rewrite Hc.
  - intros first rest. apply unfoldSpec_head.
Qed.

(** C8 on a folded line. *)
Lemma unfoldLines_spec_witness :
  JS.splitLines ("a" +:+ CRLF +:+ " b") = "a" :: JS.splitLines " b"
  /\ unfoldSpec "a" [" b"; "c"] = unfoldSpec ("a" +:+ JS.drop 1 " b") ["c"].
Proof.
  split.
  - exact (proj1 unfoldLines_spec "a" " b" eq_refl).
  - exact (proj1 (proj2 (proj2 (proj2 (proj2 (proj2 unfoldLines_spec)))))
             "a" " b" ["c"] eq_refl).
Defined.
End UnfoldLines.

(** ** C10: blocks that are never closed *)

Section UnterminatedBlocks.
Implicit Types (st : ParserState) (line : string) (inside before : list string).

Lemma parseFrom_app st before inside :
  parseFrom st (before ++ inside) = parseFrom (parseFrom st before) inside.
Proof. apply fold_left_app. Qed.

Lemma parseFrom_cons st line inside :
  parseFrom st (line :: inside) = parseFrom (parseLine st line) inside.
Proof. reflexivity. Qed.








End UnterminatedBlocks.

(** ** C9: line folding and the serialized text *)

Section Folding.
Context `{Constants} `{Locale}.
Implicit Types (line rest s : string) (fuel : nat).

Lemma truthy_length s : JS.truthy s = (0 <? JS.length s)%nat.
Proof. by destruct s. Qed.

Lemma join_snoc sep (parts : list string) s :
  parts <> [] -> JS.join sep (parts ++ [s]) = JS.join sep parts +:+ sep +:+ s.
Proof.
  induction parts as [|x parts IH]; intros Hne; [done|].
  destruct parts as [|y parts]; [reflexivity|].
  change (JS.join sep ((x :: y :: parts) ++ [s]))
    with (x +:+ sep +:+ JS.join sep ((y :: parts) ++ [s])).
  rewrite IH by done.
  change (JS.join sep (x :: y :: parts)) with (x +:+ sep +:+ JS.join sep (y :: parts)).
  by rewrite !append_assoc.
Qed.

(** Fuel beyond the length of the text changes nothing. *)
Lemma continuation_fuel fuel : forall fuel' rest,
  (String.length rest <= fuel)%nat -> (String.length rest <= fuel')%nat ->
  continuation fuel rest = continuation fuel' rest.
Proof.
  induction fuel as [|fuel IH]; intros fuel' rest Hf Hf'.
  - destruct rest; [|simpl in Hf; lia]. by destruct fuel'.
  - destruct rest as [|a rest]; [by destruct fuel'|].
    destruct fuel' as [|fuel']; [simpl in Hf'; lia|].
    cbn [continuation JS.truthy]. f_equal. f_equal. f_equal.
    apply IH; rewrite length_drop; simpl in *; lia.
Qed.

Lemma foldedTail_empty : foldedTail EmptyString = EmptyString.
Proof. reflexivity. Qed.

Lemma foldedTail_step rest :
  rest <> EmptyString ->
  foldedTail rest = CRLF +:+ SP +:+ JS.take 74 rest +:+ foldedTail (JS.drop 74 rest).
Proof.
  intros Hne. destruct rest as [|a rest]; [done|]. unfold foldedTail at 1.
  cbn [String.length continuation JS.truthy]. f_equal. f_equal. f_equal.
  apply continuation_fuel; [|done]. rewrite length_drop. simpl. lia.
Qed.

(** The loop of [foldLine] ends within its fuel and adds the continuation
    lines to the text collected so far. *)
Lemma foldLoop_join fuel : forall rest result,
  (String.length rest <= fuel)%nat -> result <> [] ->
  JS.join CRLF (foldLoop fuel rest result) = JS.join CRLF result +:+ foldedTail rest.
Proof.
  induction fuel as [|fuel IH]; intros rest result Hf Hne.
  - destruct rest; [|simpl in Hf; lia]. cbn. by rewrite append_nil_r.
  - cbn [foldLoop]. rewrite <- truthy_length.
    destruct rest as [|a rest]; [cbn; by rewrite append_nil_r|].
    cbn [JS.truthy]. rewrite IH.
    + rewrite join_snoc by done. rewrite (foldedTail_step (String a rest)) by done.
      by rewrite !append_assoc.
    + rewrite length_drop. simpl in *. lia.
    + by destruct result.
Qed.

Lemma foldLine_short line :
  (String.length line <= 75)%nat -> foldLine line = line.
Proof. intros Hl. unfold foldLine, JS.length. by apply Nat.leb_le in Hl as ->. Qed.

Lemma foldLine_long line :
  (75 < String.length line)%nat ->
  foldLine line = JS.take 75 line +:+ foldedTail (JS.drop 75 line).
Proof.
  intros Hl. unfold foldLine, JS.length.
  assert ((String.length line <=? 75)%nat = false) as -> by (apply Nat.leb_gt; lia).
  rewrite foldLoop_join; [done | rewrite length_drop; lia | done].
Qed.

(** The stable sort keeps the elements. *)
Lemma insertSorted_perm {A : Type} (le : A -> A -> bool) x (l : list A) :
  Permutation (insertSorted le x l) (x :: l).
Proof.
  induction l as [|y l IH]; [done|]. cbn [insertSorted].
  destruct (le x y); [done|]. rewrite IH. apply perm_swap.
Qed.

Lemma sortBy_perm {A : Type} (le : A -> A -> bool) (l : list A) :
  Permutation (sortBy le l) l.
Proof.
  induction l as [|x l IH]; [done|]. cbn [sortBy].
  rewrite insertSorted_perm. by constructor.
Qed.

Lemma sortEvents_In ev evs : In ev evs -> In ev (sortEvents evs).
Proof.
  intros Hin. unfold sortEvents. apply in_or_app.
  destruct (NormalizedEvent.isException ev) eqn:Hex.
  - right. eapply Permutation_in; [symmetry; apply sortBy_perm|].
    apply filter_In. by split.
  - left. eapply Permutation_in; [symmetry; apply sortBy_perm|].
    apply filter_In. split; [done|]. by rewrite Hex.
Qed.

Lemma folded_line_emitted (c : NormalizedCalendar) defaultTz ev line :
  In ev (normalizedEvents c) -> In line (NormalizedEvent.lines ev) ->
  In (foldLine line) (outputEntries c defaultTz).
Proof.
  intros Hev Hline. unfold outputEntries.
  apply in_or_app; right. apply in_or_app; right. apply in_or_app; right.
  apply in_or_app; left. apply in_flat_map. exists ev. split.
  - by apply sortEvents_In.
  - by apply in_map.
Qed.

Lemma join_all_but_last sep (parts : list string) s :
  JS.join sep (parts ++ [s])
  = fold_right (fun part text => part +:+ sep +:+ text) s parts.
Proof.
  induction parts as [|x parts IH]; [reflexivity|].
  cbn [fold_right]. rewrite <- IH.
  destruct parts; reflexivity.
Qed.

(** C9, as amended.  A line of at most 75 characters is emitted as it is.
    Of a longer line the first 75 characters stand, and every following
    chunk of up to 74 characters is preceded by CRLF and one space.  Every
    line of every normalized event is an entry of the output in this folded
    form, and the serialized text is the entries joined by CRLF: each entry
    but the last is followed by CRLF. *)
Theorem foldLine_serializeCalendar_spec (c : NormalizedCalendar) (defaultTz : option string) :
  (forall line, (String.length line <= 75)%nat -> foldLine line = line)
  /\ (forall line, (75 < String.length line)%nat ->
        foldLine line = JS.take 75 line +:+ foldedTail (JS.drop 75 line))
  /\ foldedTail EmptyString = EmptyString
  /\ (forall rest, rest <> EmptyString ->
        foldedTail rest
        = CRLF +:+ SP +:+ JS.take 74 rest +:+ foldedTail (JS.drop 74 rest))
  /\ (forall ev line,
        In ev (normalizedEvents c) -> In line (NormalizedEvent.lines ev) ->
        In (foldLine line) (outputEntries c defaultTz))
  /\ (forall entries final,
        outputEntries c defaultTz = entries ++ [final] ->
        serializeCalendar c defaultTz
        = fold_right (fun entry text => entry +:+ CRLF +:+ text) final entries).
Proof.
  repeat split.
  - apply foldLine_short.
  - apply foldLine_long.
  - apply foldedTail_step.
  - apply folded_line_emitted.
  - intros entries final He. unfold serializeCalendar. rewrite He.
    apply join_all_but_last.
Qed.
End Folding.

(** C9, against the claim as it is stated: the serialized text of a calendar
    does not end in a line break, a header line of 80 characters is emitted
    unfolded, and the lines of the injected time zone block end in a line
    feed alone. *)
Lemma serializeCalendar_lines_not_all_folded_or_crlf :
  let text := @serializeCalendar specConstants codeUnitLocale headerOnlyCalendar None in
  JS.endsWith "010" text = false
  /\ (75 <? String.length longHeaderLine)%nat = true
  /\ existsb (String.eqb longHeaderLine) (JS.splitLines text) = true
  /\ JS.includes ("BEGIN:VTIMEZONE" +:+ LF +:+ "TZID:America/New_York" +:+ LF) text = true.
Proof. vm_compute. repeat split. Qed.

(** C9 on a line of 80 characters. *)
Lemma foldLine_serializeCalendar_spec_witness :
  foldLine longHeaderLine
  = JS.take 75 longHeaderLine +:+ foldedTail (JS.drop 75 longHeaderLine)
  /\ foldedTail "56"
     = CRLF +:+ SP +:+ JS.take 74 "56" +:+ foldedTail (JS.drop 74 "56").
Proof.
  pose proof (@foldLine_serializeCalendar_spec specConstants codeUnitLocale
                headerOnlyCalendar None) as (_ & Hlong & _ & Hstep & _).
  split.
  - apply Hlong. vm_compute. lia.
  - apply Hstep. discriminate.
Defined.

(** ** Characters, separators and suffixes *)

Section Separators.
Implicit Types (s t d r : string) (a c : ascii).

Lemma lacks_append c s t : lacks c (s +:+ t) = lacks c s && lacks c t.
Proof.
  induction s as [|a s IH]; [reflexivity|].
  rewrite append_cons. cbn [lacks]. by rewrite IH, andb_assoc.
Qed.

Lemma includes_char c s : JS.includes (String c EmptyString) s = negb (lacks c s).
Proof.
  induction s as [|a s IH]; [reflexivity|].
  cbn [JS.includes JS.startsWith lacks]. rewrite IH, andb_true_r.
  rewrite negb_andb, negb_involutive. by rewrite (ascii_eqb_sym c a).
Qed.

Lemma split_cons_other c a s :
  JS.ascii_eqb a c = false ->
  JS.split c (String a s)
  = String a (nth 0 (JS.split c s) EmptyString) :: tl (JS.split c s).
Proof.
  intros Ha. cbn [JS.split]. rewrite Ha.
  destruct (JS.split c s) eqn:E; [|reflexivity].
  destruct s; cbn [JS.split] in E; [discriminate|].
  destruct (JS.ascii_eqb _ c); [discriminate|]. by destruct (JS.split c s).
Qed.

Lemma split_lacks c s : lacks c s = true -> JS.split c s = [s].
Proof.
  induction s as [|a s IH]; intros Hl; [reflexivity|].
  apply lacks_cons in Hl as [Ha Hl]. rewrite split_cons_other by done.
  by rewrite IH.
Qed.

(** The first separator ends the first part. *)
Lemma split_at c d r :
  lacks c d = true -> JS.split c (d +:+ String c r) = d :: JS.split c r.
Proof.
  induction d as [|a d IH]; intros Hl.
  - rewrite append_nil_l. cbn [JS.split]. by rewrite ascii_eqb_refl.
  - apply lacks_cons in Hl as [Ha Hl]. rewrite append_cons.
    rewrite split_cons_other by done. by rewrite IH.
Qed.

Lemma split_head c s : nth 0 (JS.split c s) EmptyString = upTo c s.
Proof.
  induction s as [|a s IH]; [reflexivity|]. cbn [upTo].
  destruct (JS.ascii_eqb a c) eqn:Ha.
  - cbn [JS.split]. by rewrite Ha.
  - rewrite split_cons_other by done. cbn [nth]. by rewrite IH.
Qed.

Lemma upTo_lacks c s : lacks c s = true -> upTo c s = s.
Proof.
  induction s as [|a s IH]; intros Hl; [reflexivity|].
  apply lacks_cons in Hl as [Ha Hl]. cbn [upTo]. by rewrite Ha, IH.
Qed.

Lemma last_snoc s c : JS.last (s +:+ String c EmptyString) = Some c.
Proof.
  induction s as [|a s IH]; [reflexivity|]. rewrite append_cons.
  cbn [JS.last]. rewrite IH. destruct s; reflexivity.
Qed.

Lemma endsWith_snoc s c : JS.endsWith c (s +:+ String c EmptyString) = true.
Proof. unfold JS.endsWith. rewrite last_snoc. apply ascii_eqb_refl. Qed.

Lemma dropLast_snoc s c : JS.dropLast (s +:+ String c EmptyString) = s.
Proof.
  induction s as [|a s IH]; [reflexivity|]. rewrite append_cons.
  cbn [JS.dropLast]. rewrite IH. destruct s; reflexivity.
Qed.

Lemma lacks_dropLast c s : lacks c s = true -> lacks c (JS.dropLast s) = true.
Proof.
  induction s as [|a s IH]; intros Hl; [reflexivity|].
  apply lacks_cons in Hl as [Ha Hl]. destruct s as [|b s]; [reflexivity|].
  change (JS.dropLast (String a (String b s))) with (String a (JS.dropLast (String b s))).
  apply lacks_cons. auto.
Qed.
End Separators.

(** ** C5: date and time values *)

Section DateTime.
Context `{Constants} `{Locale}.
Implicit Types (p : IcsProperty) (d t v : string).

Lemma parse_date_only v :
  lacks "T" v = true ->
  parseDateTimeValue v
  = {| date := if JS.endsWith "Z" v then JS.dropLast v else v; time := EmptyString;
       isUtc := false; isDateOnly := true |}.
Proof.
  intros Hl. unfold parseDateTimeValue.
  assert (JS.includes "T" (if JS.endsWith "Z" v then JS.dropLast v else v) = false) as ->;
    [|done].
  rewrite includes_char. apply negb_false_iff.
  destruct (JS.endsWith "Z" v); [by apply lacks_dropLast | done].
Qed.

Lemma parse_date_time d t :
  lacks "T" d = true ->
  JS.includes "T" (d +:+ "T" +:+ t) = true
  /\ nth 0 (JS.split "T" (d +:+ "T" +:+ t)) EmptyString = d
  /\ nth 1 (JS.split "T" (d +:+ "T" +:+ t)) EmptyString = upTo "T" t.
Proof.
  intros Hd. change ("T" +:+ t) with (String "T" t). split; [|split].
  - rewrite includes_char, lacks_append. cbn [lacks].
    rewrite ascii_eqb_refl. cbn. by rewrite andb_false_r.
  - by rewrite split_at.
  - rewrite split_at by done. cbn [nth]. apply split_head.
Qed.

Lemma parse_utc d t :
  lacks "T" d = true ->
  parseDateTimeValue (d +:+ "T" +:+ t +:+ "Z")
  = {| date := d; time := upTo "T" t; isUtc := true; isDateOnly := false |}.
Proof.
  intros Hd. unfold parseDateTimeValue.
  replace (d +:+ "T" +:+ t +:+ "Z") with ((d +:+ "T" +:+ t) +:+ String "Z" EmptyString)
    by (by rewrite !append_assoc).
  rewrite endsWith_snoc, dropLast_snoc.
  destruct (parse_date_time d t Hd) as (-> & -> & ->). done.
Qed.

Lemma parse_floating d t :
  lacks "T" d = true -> JS.endsWith "Z" (d +:+ "T" +:+ t) = false ->
  parseDateTimeValue (d +:+ "T" +:+ t)
  = {| date := d; time := upTo "T" t; isUtc := false; isDateOnly := false |}.
Proof.
  intros Hd Hz. unfold parseDateTimeValue. rewrite Hz.
  destruct (parse_date_time d t Hd) as (-> & -> & ->). done.
Qed.

(** C5, as amended.  For a DTSTART or DTEND property: a value without [T]
    is emitted as [NAME;VALUE=DATE:<date>], the date being the value
    without a final [Z]; a value [<date>T<time>Z] is emitted as
    [NAME:<date>T<time>Z]; any other value [<date>T<time>] is emitted as
    [NAME;TZID=<tz>:<date>T<time>], where [<tz>] is the time zone mapping
    applied to the TZID parameter when that is present and not empty, and
    applied to the default zone otherwise.  [<time>] ends before a second
    [T]. *)
Theorem normalizeProperty_datetime p defaultTz :
  oneOf ["DTSTART"; "DTEND"] (name p) = true ->
  (lacks "T" (value p) = true ->
   normalizeProperty p defaultTz
   = name p +:+ ";VALUE=DATE:"
     +:+ (if JS.endsWith "Z" (value p) then JS.dropLast (value p) else value p))
  /\ (forall d t, lacks "T" d = true -> value p = d +:+ "T" +:+ t +:+ "Z" ->
        normalizeProperty p defaultTz
        = name p +:+ ":" +:+ d +:+ "T" +:+ upTo "T" t +:+ "Z")
  /\ (forall d t, lacks "T" d = true -> value p = d +:+ "T" +:+ t ->
        JS.endsWith "Z" (value p) = false ->
        normalizeProperty p defaultTz
        = name p +:+ ";TZID="
          +:+ normalizeTimezone (JS.optOrElse (Map_get "TZID" (params p)) defaultTz)
          +:+ ":" +:+ d +:+ "T" +:+ upTo "T" t)
  /\ (forall t, lacks "T" t = true -> upTo "T" t = t).
Proof.
  intros Hname. unfold normalizeProperty. rewrite Hname.
  unfold normalizeDateTimeProp. repeat split.
  - intros Hl. by rewrite parse_date_only.
  - intros d t Hd ->. by rewrite parse_utc.
  - intros d t Hd Hv Hz. rewrite Hv in *. by rewrite parse_floating.
  - intros t. apply upTo_lacks.
Qed.
End DateTime.

(** C5, against the claim as it is stated: for a floating value without a
    TZID parameter the emitted zone is the mapping of the default zone, not
    the default zone itself. *)
Lemma default_zone_is_mapped :
  @normalizeProperty specConstants codeUnitLocale
     (prop "DTSTART" "20240601T090000") "Eastern Standard Time"
  = "DTSTART;TZID=America/New_York:20240601T090000"
  /\ @normalizeProperty specConstants codeUnitLocale
       (prop "DTSTART" "20240601T090000") "Eastern Standard Time"
     <> "DTSTART;TZID=Eastern Standard Time:20240601T090000".
Proof. split; [reflexivity | discriminate]. Qed.

(** C5 on a floating value with a TZID parameter of the mapping. *)
Lemma normalizeProperty_datetime_witness :
  @normalizeProperty specConstants codeUnitLocale
     {| name := "DTEND"; params := [("TZID", "Pacific Standard Time")];
        value := "20240601T090000" |} "UTC"
  = "DTEND" +:+ ";TZID="
    +:+ @normalizeTimezone specConstants
          (JS.optOrElse (Some "Pacific Standard Time") "UTC")
    +:+ ":" +:+ "20240601" +:+ "T" +:+ upTo "T" "090000".
Proof.
  exact (proj1 (proj2 (proj2
           (@normalizeProperty_datetime specConstants codeUnitLocale
              {| name := "DTEND"; params := [("TZID", "Pacific Standard Time")];
                 value := "20240601T090000" |} "UTC" eq_refl)))
           "20240601" "090000" eq_refl eq_refl eq_refl).
Defined.

(** ** C6: lists of dates *)

Section SortedStrings.
Implicit Types (x y : string) (l : list string).

Lemma insertSorted_HdRel x y l :
  codeUnitLe y x -> HdRel codeUnitLe y l ->
  HdRel codeUnitLe y (insertSorted String.leb x l).
Proof.
  intros Hyx Hy. destruct l as [|z l]; cbn [insertSorted]; [by constructor|].
  destruct (String.leb x z); constructor; [done|]. by inversion Hy.
Qed.

Lemma insertSorted_sorted x l :
  Sorted codeUnitLe l -> Sorted codeUnitLe (insertSorted String.leb x l).
Proof.
  induction 1 as [|y l Hs IH Hy]; cbn [insertSorted]; [by repeat constructor|].
  destruct (String.leb x y) eqn:Hxy.
  - constructor; [by constructor|]. by constructor.
  - constructor; [done|]. apply insertSorted_HdRel; [|done].
    destruct (String.leb_total x y) as [Hle|Hle]; [congruence | done].
Qed.

Lemma sortStrings_sorted l : Sorted codeUnitLe (sortStrings l).
Proof.
  unfold sortStrings. induction l as [|x l IH]; [constructor|].
  cbn [sortBy]. by apply insertSorted_sorted.
Qed.

Lemma sortStrings_perm l : Permutation (sortStrings l) l.
Proof. apply sortBy_perm. Qed.

Lemma sortStrings_Forall (P : string -> Prop) l :
  Forall P l -> Forall P (sortStrings l).
Proof.
  intros Hl. eapply Permutation_Forall; [|exact Hl].
  symmetry. apply sortStrings_perm.
Qed.

Lemma sortStrings_nil l : sortStrings l = [] -> l = [].
Proof.
  intros Hs. apply Permutation_nil. rewrite <- Hs. apply sortStrings_perm.
Qed.
End SortedStrings.

Section ExdateRdate.
Context `{Constants} `{Locale}.
Implicit Types (p : IcsProperty) (e d t : string).

Lemma split_not_nil c s : JS.split c s <> [].
Proof.
  destruct s as [|a s]; [discriminate|]. cbn [JS.split].
  destruct (JS.ascii_eqb a c); [discriminate|]. by destruct (JS.split c s).
Qed.

Lemma startsDateOnly_all (entries : list string) :
  entries <> [] ->
  Forall (fun e => JS.truthy e = true /\ lacks "T" e = true) entries ->
  startsDateOnly (sortStrings entries) = true.
Proof.
  intros Hne Hall. apply sortStrings_Forall in Hall.
  destruct (sortStrings entries) as [|first rest] eqn:E.
  - by apply sortStrings_nil in E.
  - inversion Hall as [|? ? [Ht Hl] _]; subst. cbn. by rewrite Ht, Hl.
Qed.

Lemma startsDateOnly_none (entries : list string) :
  Forall (fun e => lacks "T" e = false) entries ->
  startsDateOnly (sortStrings entries) = false.
Proof.
  intros Hall. apply sortStrings_Forall in Hall.
  destruct (sortStrings entries) as [|first rest]; [done|].
  inversion Hall as [|? ? Hl _]; subst. cbn. by rewrite Hl, andb_false_r.
Qed.

Lemma normalizeExdateRdate_unfold p :
  normalizeExdateRdate p
  = let sorted := sortStrings (map reassemble (JS.split "," (value p))) in
    let tzid := JS.optOrElse (Map_get "TZID" (params p)) EmptyString in
    if startsDateOnly sorted
    then name p +:+ ";VALUE=DATE:" +:+ JS.join "," sorted
    else if JS.truthy tzid
    then name p +:+ ";TZID=" +:+ normalizeTimezone tzid +:+ ":" +:+ JS.join "," sorted
    else name p +:+ ":" +:+ JS.join "," sorted.
Proof.
  unfold normalizeExdateRdate. cbv zeta.
  set (sorted := sortStrings _). set (tzid := JS.optOrElse _ _).
  assert (match sorted with
          | first :: _ => JS.truthy first && negb (JS.includes "T" first)
          | [] => false
          end = startsDateOnly sorted) as ->.
  { destruct sorted as [|first rest]; [done|]. cbn.
    by rewrite includes_char, negb_involutive. }
  destruct (startsDateOnly sorted); [done|].
  destruct (JS.truthy tzid) eqn:Ht; [|by rewrite Ht].
  assert (JS.truthy (normalizeTimezone tzid) = true) as ->; [|done].
  unfold normalizeTimezone, JS.optOrElse, JS.orElse.
  destruct (MS_TO_IANA_TIMEZONES tzid) as [m|]; [|done].
  by destruct (JS.truthy m) eqn:Hm.
Qed.

Lemma reassemble_cases e :
  (lacks "T" (JS.trim e) = true ->
   reassemble e = if JS.endsWith "Z" (JS.trim e) then JS.dropLast (JS.trim e) else JS.trim e)
  /\ (forall d t, lacks "T" d = true -> JS.trim e = d +:+ "T" +:+ t +:+ "Z" ->
        reassemble e = d +:+ "T" +:+ upTo "T" t +:+ "Z")
  /\ (forall d t, lacks "T" d = true -> JS.trim e = d +:+ "T" +:+ t ->
        JS.endsWith "Z" (JS.trim e) = false ->
        reassemble e = d +:+ "T" +:+ upTo "T" t).
Proof.
  unfold reassemble. repeat split.
  - intros Hl. by rewrite parse_date_only.
  - intros d t Hd ->. by rewrite parse_utc.
  - intros d t Hd Hv Hz. rewrite Hv in *. by rewrite parse_floating.
Qed.

(** C6, as amended.  For an EXDATE or RDATE property every entry of the
    comma-separated value is trimmed and reassembled by the rules for date
    and time values, and the entries are emitted in ascending order of
    their code units, joined by commas.  The property carries [VALUE=DATE]
    exactly when the first entry in that order is not empty and has no [T]:
    so it does when all entries are non-empty dates, and does not when every
    entry has a time.  Otherwise it carries [TZID=], with the mapped zone,
    exactly when the property has a TZID parameter that is not empty. *)
Theorem normalizeProperty_exdate_rdate p defaultTz :
  oneOf ["EXDATE"; "RDATE"] (name p) = true ->
  let entries := map reassemble (JS.split "," (value p)) in
  let sorted := sortStrings entries in
  let tzid := JS.optOrElse (Map_get "TZID" (params p)) EmptyString in
  (forall e, lacks "T" (JS.trim e) = true ->
     reassemble e
     = if JS.endsWith "Z" (JS.trim e) then JS.dropLast (JS.trim e) else JS.trim e)
  /\ (forall e d t, lacks "T" d = true -> JS.trim e = d +:+ "T" +:+ t +:+ "Z" ->
        reassemble e = d +:+ "T" +:+ upTo "T" t +:+ "Z")
  /\ (forall e d t, lacks "T" d = true -> JS.trim e = d +:+ "T" +:+ t ->
        JS.endsWith "Z" (JS.trim e) = false ->
        reassemble e = d +:+ "T" +:+ upTo "T" t)
  /\ Permutation sorted entries
  /\ Sorted codeUnitLe sorted
  /\ normalizeProperty p defaultTz
     = (if startsDateOnly sorted
        then name p +:+ ";VALUE=DATE:" +:+ JS.join "," sorted
        else if JS.truthy tzid
        then name p +:+ ";TZID=" +:+ normalizeTimezone tzid +:+ ":" +:+ JS.join "," sorted
        else name p +:+ ":" +:+ JS.join "," sorted)
  /\ (Forall (fun e => JS.truthy e = true /\ lacks "T" e = true) entries ->
      startsDateOnly sorted = true)
  /\ (Forall (fun e => lacks "T" e = false) entries -> startsDateOnly sorted = false).
Proof.
  intros Hname entries sorted tzid.
  split; [intros e; apply reassemble_cases|].
  split; [intros e; apply reassemble_cases|].
  split; [intros e; apply reassemble_cases|].
  split; [apply sortStrings_perm|].
  split; [apply sortStrings_sorted|].
  split; [|split].
  - assert (normalizeProperty p defaultTz = normalizeExdateRdate p) as ->.
    { unfold normalizeProperty. rewrite Hname. unfold oneOf in Hname.
      cbn [existsb] in Hname. rewrite orb_false_r in Hname.
      apply orb_true_iff in Hname as [Hn|Hn]; apply String.eqb_eq in Hn;
        by rewrite Hn. }
    apply normalizeExdateRdate_unfold.
  - apply startsDateOnly_all. unfold entries.
    pose proof (split_not_nil "," (value p)). by destruct (JS.split "," (value p)).
  - apply startsDateOnly_none.
Qed.
End ExdateRdate.

(** C6, against the claim as it is stated: a list whose smallest entry is a
    date carries [VALUE=DATE] although another entry has a time, and it
    carries no [TZID=] although that entry is floating and the property has
    a TZID parameter. *)
Lemma exdate_mixed_list :
  @normalizeProperty specConstants codeUnitLocale
     {| name := "EXDATE"; params := [("TZID", "Eastern Standard Time")];
        value := "20240102T100000,20240101" |} "UTC"
  = "EXDATE;VALUE=DATE:20240101,20240102T100000"
  /\ existsb (fun e => negb (lacks "T" e)) (JS.split "," "20240102T100000,20240101") = true.
Proof. split; reflexivity. Qed.

(** C6 on a list of two dates. *)
Lemma normalizeProperty_exdate_rdate_witness :
  @normalizeProperty specConstants codeUnitLocale (prop "RDATE" "20240102, 20240101") "UTC"
  = "RDATE;VALUE=DATE:20240101,20240102".
Proof.
  pose proof (@normalizeProperty_exdate_rdate specConstants codeUnitLocale
                (prop "RDATE" "20240102, 20240101") "UTC" eq_refl) as Hspec.
  cbv zeta in Hspec. destruct Hspec as (_ & _ & _ & _ & _ & -> & Hdate & _).
  rewrite Hdate; [reflexivity|]. repeat constructor.
Defined.

(** ** C7: recurrence rules *)

(** The scenario of the specification: a position and one day. *)
Example normalizeRrule_first_monday :
  normalizeRrule (prop "RRULE" "FREQ=MONTHLY;BYDAY=MO;BYSETPOS=1")
  = "RRULE:FREQ=MONTHLY;BYDAY=1MO".
Proof. reflexivity. Qed.

Example normalizeRrule_day_list :
  normalizeRrule (prop "RRULE" "FREQ=MONTHLY;BYDAY=MO,TU,WE,TH,FR;BYSETPOS=-1")
  = "RRULE:FREQ=MONTHLY;BYDAY=MO,TU,WE,TH,FR;BYSETPOS=-1".
Proof. reflexivity. Qed.

(** A value passes through when it has no text [BYSETPOS=] followed by an
    integer, no text [BYDAY=] followed by two capital letters, or a comma
    in the value of a BYDAY clause. *)
Lemma normalizeRrule_verbatim (p : IcsProperty) :
  search reBysetpos (value p) = None
  \/ search reByday (value p) = None
  \/ search reBydayList (value p) <> None ->
  normalizeRrule p = "RRULE:" +:+ value p.
Proof.
  unfold normalizeRrule. intros [Hp | [Hd | Hl]].
  - by rewrite Hp.
  - rewrite Hd. by destruct (search reBysetpos (value p)) as [[[? ?] ?]|].
  - destruct (search reBysetpos (value p)) as [[[? ?] ?]|]; [|done].
    destruct (search reByday (value p)) as [[[? ?] ?]|]; [|done].
    by destruct (search reBydayList (value p)).
Qed.

(** C7.  The code departs from the claim on two rules.  A BYSETPOS clause
    that holds a list of positions is not a [BYSETPOS=<n>] clause, so the
    claim passes the value through; the code takes the first position into
    BYDAY and leaves the rest of the list behind.  A rule that begins with
    its BYSETPOS clause is rewritten, and the separator of the removed
    clause stays at the head of the value. *)
Theorem normalizeRrule_departures :
  normalizeRrule (prop "RRULE" "FREQ=MONTHLY;BYDAY=FR;BYSETPOS=1,3")
  = "RRULE:FREQ=MONTHLY;BYDAY=1FR,3"
  /\ normalizeRrule (prop "RRULE" "BYSETPOS=1;FREQ=MONTHLY;BYDAY=MO")
     = "RRULE:;FREQ=MONTHLY;BYDAY=1MO".
Proof. split; reflexivity. Qed.

(** ** C3 and C4: the stable identifier and the content hash *)

(** The digest on the test vectors of FIPS 180-4: one block and two. *)
Example sha256_abc :
  sha256Hex "abc" = "ba7816bf8f01cfea414140de5dae2223b00361a396177a9cb410ff61f20015ad".
Proof. vm_compute. reflexivity. Qed.

Example sha256_two_blocks :
  sha256Hex "abcdbcdecdefdefgefghfghighijhijkijkljklmklmnlmnomnopnopq"
  = "248d6a61d20638b8e5c026930c3e6039a33ce45964ff2167f6ecedd419db06c1".
Proof. vm_compute. reflexivity. Qed.

Section Identity.
Implicit Types (event : IcsEvent) (props : list IcsProperty) (n : string).

Lemma hexDigit_lower k : isLowerHex (hexDigit k) = true.
Proof.
  unfold hexDigit.
  repeat match goal with
         | |- context [match ?x with _ => _ end] => destruct x
         end; reflexivity.
Qed.

Lemma allChars_append f s t : allChars f (s +:+ t) = allChars f s && allChars f t.
Proof.
  induction s as [|a s IH]; [reflexivity|].
  rewrite append_cons. cbn [allChars]. by rewrite IH, andb_assoc.
Qed.

Lemma hexOfBytes_lower bs : allChars isLowerHex (hexOfBytes bs) = true.
Proof.
  induction bs as [|b bs IH]; [reflexivity|]. cbn [hexOfBytes].
  rewrite allChars_append, IH. unfold hexByte. cbn [allChars].
  by rewrite !hexDigit_lower.
Qed.

Lemma hexOfBytes_length bs : String.length (hexOfBytes bs) = (2 * List.length bs)%nat.
Proof.
  induction bs as [|b bs IH]; [reflexivity|]. cbn [hexOfBytes].
  rewrite length_append, IH. cbn. lia.
Qed.

Lemma digest_length msg : List.length (SHA256.digest msg) = 32%nat.
Proof.
  unfold SHA256.digest. cbv zeta.
  destruct (SHA256.blocks _ _ _) as [[[[[[[a b] c] d] e] f] g] h]. reflexivity.
Qed.

Lemma sha256Hex_length s : String.length (sha256Hex s) = 64%nat.
Proof. unfold sha256Hex. by rewrite hexOfBytes_length, digest_length. Qed.

Lemma stableUidInput_eq event :
  stableUidInput event
  = valueOf event "DTSTART" +:+ "|" +:+ valueOf event "SUMMARY" +:+ "|"
    +:+ valueOf event "ORGANIZER" +:+ "|" +:+ uid event.
Proof. reflexivity. Qed.

Lemma computeStableUid_length event : String.length (computeStableUid event) = 32%nat.
Proof.
  unfold computeStableUid. rewrite hexOfBytes_length, length_firstn, digest_length.
  reflexivity.
Qed.

(** The first match of [find] is the head of the matches. *)
Lemma find_filter_head {A : Type} (f : A -> bool) (l : list A) :
  List.find f l = hd_error (List.filter f l).
Proof.
  induction l as [|x l IH]; [reflexivity|]. cbn [List.find List.filter].
  by destruct (f x).
Qed.

Lemma find_permutation {A : Type} (f : A -> bool) (l l' : list A) :
  Permutation l l' -> (List.length (List.filter f l) <= 1)%nat ->
  List.find f l = List.find f l'.
Proof.
  intros Hp Hone. rewrite !find_filter_head.
  assert (Permutation (List.filter f l) (List.filter f l')) as Hf.
  { clear Hone. induction Hp as [|x l1 l2 Hp IH|x y l1|l1 l2 l3 Hp1 IH1 Hp2 IH2];
      cbn [List.filter].
    - done.
    - destruct (f x); [by constructor | done].
    - destruct (f x), (f y); try done. apply perm_swap.
    - by etrans. }
  destruct (List.filter f l) as [|x [|y rest]] eqn:E.
  - apply Permutation_nil in Hf. by rewrite Hf.
  - apply Permutation_length_1_inv in Hf. by rewrite Hf.
  - simpl in Hone. lia.
Qed.

(** Dropping properties that [f] never selects does not change what [find]
    returns. *)
Lemma find_filter {A : Type} (f g : A -> bool) (l : list A) :
  (forall x, f x = true -> g x = true) ->
  List.find f (List.filter g l) = List.find f l.
Proof.
  intros Hfg. induction l as [|x l IH]; [reflexivity|].
  cbn [List.find List.filter]. destruct (f x) eqn:Hf.
  - rewrite (Hfg x Hf). cbn [List.find]. by rewrite Hf.
  - destruct (g x); [|done]. cbn [List.find]. by rewrite Hf.
Qed.

Lemma named_stable n p :
  oneOf ["DTSTAMP"; "LAST-MODIFIED"; "SEQUENCE"] n = false ->
  named n p = true -> stable p = true.
Proof.
  intros Hn Hp. unfold named in Hp. apply String.eqb_eq in Hp.
  unfold stable, volatile. by rewrite Hp, Hn.
Qed.

Lemma getProperty_stable event event' n :
  oneOf ["DTSTAMP"; "LAST-MODIFIED"; "SEQUENCE"] n = false ->
  List.filter stable (properties event) = List.filter stable (properties event') ->
  getProperty event n = getProperty event' n.
Proof.
  intros Hn Hs. unfold getProperty. fold (named n).
  rewrite <- (find_filter (named n) stable (properties event))
    by (intros x; apply named_stable; done).
  rewrite <- (find_filter (named n) stable (properties event'))
    by (intros x; apply named_stable; done).
  by rewrite Hs.
Qed.

Lemma computeStableUid_values event event' :
  valueOf event "DTSTART" = valueOf event' "DTSTART" ->
  valueOf event "SUMMARY" = valueOf event' "SUMMARY" ->
  valueOf event "ORGANIZER" = valueOf event' "ORGANIZER" ->
  uid event = uid event' ->
  computeStableUid event = computeStableUid event'.
Proof.
  intros Hd Hs Ho Hu. unfold computeStableUid.
  by rewrite !stableUidInput_eq, Hd, Hs, Ho, Hu.
Qed.

Lemma computeStableUid_stable event event' :
  uid event = uid event' ->
  List.filter stable (properties event) = List.filter stable (properties event') ->
  computeStableUid event = computeStableUid event'.
Proof.
  intros Hu Hs. apply computeStableUid_values; [| | |done];
    unfold valueOf; by rewrite (getProperty_stable event event').
Qed.

Lemma eventKeyOf_stable event event' :
  uid event = uid event' ->
  List.filter stable (properties event) = List.filter stable (properties event') ->
  eventKeyOf event = eventKeyOf event'.
Proof.
  intros Hu Hs. unfold eventKeyOf.
  rewrite (getProperty_stable event event') by done.
  by rewrite (computeStableUid_stable event event').
Qed.

Lemma computeContentHash_stable event event' :
  List.filter stable (properties event) = List.filter stable (properties event') ->
  computeContentHash event = computeContentHash event'.
Proof.
  intros Hs. unfold computeContentHash, stableProps. fold stable. by rewrite Hs.
Qed.
End Identity.

Section IdentityClaims.
Context `{Constants} `{Locale}.
Implicit Types (event : IcsEvent) (w : World).

(** What one iteration of the loop over the parsed events computes. *)
Lemma processEvent_run tenantHash defaultTimezone event w :
  let eventKey := eventKeyOf event in
  let contentHash := computeContentHash event in
  let sequence := nextSequence (priorState tenantHash w eventKey) contentHash in
  let newState :=
    {| EventState.sequence := sequence; EventState.contentHash := contentHash;
       EventState.lastSeen := clock w (ticks w) |} in
  processEvent tenantHash defaultTimezone event w
  = ((eventKey,
      {| NormalizedEvent.stableUid := computeStableUid event;
         NormalizedEvent.sequence := sequence;
         NormalizedEvent.isException :=
           match getProperty event "RECURRENCE-ID" with Some _ => true | None => false end;
         NormalizedEvent.recurrenceId :=
           match getProperty event "RECURRENCE-ID" with
           | Some p => if JS.truthy (value p) then Some (value p) else None
           | None => None
           end;
         NormalizedEvent.lines :=
           normalizeEventLines event (computeStableUid event) sequence defaultTimezone |}),
     {| kv := <[eventStoreKey tenantHash eventKey := VEventState newState]> (kv w);
        clock := clock w; ticks := S (ticks w) |}).
Proof. reflexivity. Qed.

Lemma find_value_params n (props props' : list IcsProperty) :
  map (fun p => (name p, value p)) props' = map (fun p => (name p, value p)) props ->
  option_map value (List.find (named n) props')
  = option_map value (List.find (named n) props).
Proof.
  revert props. induction props' as [|p props' IH]; intros [|q props] Hmap;
    try discriminate; [reflexivity|].
  cbn in Hmap. injection Hmap as Hn Hv Hmap. cbn [List.find]. unfold named at 1 3.
  rewrite Hn. destruct (String.eqb (name q) n); [cbn; by rewrite Hv | by apply IH].
Qed.

(** C3, as amended.  [computeStableUid] returns the first 16 bytes, as 32
    lower-case hexadecimal characters, of the SHA-256 digest of the values
    of the first DTSTART, SUMMARY and ORGANIZER properties and of the
    upstream UID, joined by [|], an absent property counting as the empty
    string.  It depends on these four values only: not on parameters, not
    on the volatile properties, and not on the order of the properties as
    long as DTSTART, SUMMARY and ORGANIZER each occur at most once. *)
Theorem computeStableUid_spec event :
  computeStableUid event
  = hexOfBytes (firstn 16 (SHA256.digest (encode
      (valueOf event "DTSTART" +:+ "|" +:+ valueOf event "SUMMARY" +:+ "|"
       +:+ valueOf event "ORGANIZER" +:+ "|" +:+ uid event))))
  /\ (forall n, valueOf event n
               = match List.find (named n) (properties event) with
                 | Some p => value p
                 | None => EmptyString
                 end)
  /\ String.length (computeStableUid event) = 32%nat
  /\ allChars isLowerHex (computeStableUid event) = true
  /\ (forall event',
        valueOf event' "DTSTART" = valueOf event "DTSTART" ->
        valueOf event' "SUMMARY" = valueOf event "SUMMARY" ->
        valueOf event' "ORGANIZER" = valueOf event "ORGANIZER" ->
        uid event' = uid event ->
        computeStableUid event' = computeStableUid event)
  /\ (forall props' raw',
        map (fun p => (name p, value p)) props'
        = map (fun p => (name p, value p)) (properties event) ->
        computeStableUid {| uid := uid event; properties := props'; rawLines := raw' |}
        = computeStableUid event)
  /\ (forall props' raw',
        List.filter stable props' = List.filter stable (properties event) ->
        computeStableUid {| uid := uid event; properties := props'; rawLines := raw' |}
        = computeStableUid event)
  /\ (forall props' raw',
        Permutation (properties event) props' ->
        (occurrences "DTSTART" (properties event) <= 1)%nat ->
        (occurrences "SUMMARY" (properties event) <= 1)%nat ->
        (occurrences "ORGANIZER" (properties event) <= 1)%nat ->
        computeStableUid {| uid := uid event; properties := props'; rawLines := raw' |}
        = computeStableUid event).
Proof.
  split; [reflexivity|].
  split.
  { intros n. unfold valueOf, getProperty. fold (named n).
    destruct (List.find (named n) (properties event)) as [p|]; [|done].
    cbn. by destruct (value p). }
  split; [apply computeStableUid_length|].
  split; [apply hexOfBytes_lower|].
  split; [intros event'; apply computeStableUid_values|].
  split; [|split].
  - intros props' raw' Hmap. apply computeStableUid_values; [| | |done];
      unfold valueOf, getProperty; cbn [properties];
      fold (named "DTSTART"); fold (named "SUMMARY"); fold (named "ORGANIZER");
      by rewrite (find_value_params _ _ _ Hmap).
  - intros props' raw' Hs. by apply computeStableUid_stable.
  - intros props' raw' Hp Hd Hs Ho. apply computeStableUid_values; [| | |done];
      unfold valueOf, getProperty; cbn [properties]; fold (named "DTSTART");
      fold (named "SUMMARY"); fold (named "ORGANIZER");
      by rewrite (find_permutation _ _ _ Hp).
Qed.

(** C4.  Two events with the same upstream UID whose properties other than
    DTSTAMP, LAST-MODIFIED and SEQUENCE are the same have the same content
    hash, of 64 hexadecimal characters, and the same event key; so from the
    same state of the store the same sequence number is derived for both. *)
Theorem computeContentHash_volatile_independent event event' :
  uid event = uid event' ->
  List.filter stable (properties event) = List.filter stable (properties event') ->
  computeContentHash event = computeContentHash event'
  /\ String.length (computeContentHash event) = 64%nat
  /\ allChars isLowerHex (computeContentHash event) = true
  /\ eventKeyOf event = eventKeyOf event'
  /\ (forall tenantHash defaultTimezone w,
        NormalizedEvent.sequence (snd (fst (processEvent tenantHash defaultTimezone event w)))
        = NormalizedEvent.sequence
            (snd (fst (processEvent tenantHash defaultTimezone event' w)))).
Proof.
  intros Hu Hs.
  split; [by apply computeContentHash_stable|].
  split; [apply sha256Hex_length|].
  split; [apply hexOfBytes_lower|].
  split; [by apply eventKeyOf_stable|].
  intros tenantHash defaultTimezone w. rewrite !processEvent_run. cbn.
  by rewrite (eventKeyOf_stable event event'), (computeContentHash_stable event event').
Qed.
End IdentityClaims.

(** C3, against the claim as it is stated: two events with the same
    properties in a different order, and different stable identifiers. *)
Lemma stable_uid_depends_on_order :
  Permutation (properties twoStarts) (properties twoStartsSwapped)
  /\ uid twoStarts = uid twoStartsSwapped
  /\ computeStableUid twoStarts <> computeStableUid twoStartsSwapped.
Proof.
  split; [apply perm_swap|]. split; [reflexivity|].
  intros Heq. vm_compute in Heq. discriminate Heq.
Qed.

(** C3 on two events that differ in their volatile properties. *)
Lemma computeStableUid_spec_witness :
  computeStableUid
    {| uid := uid meeting; properties := properties meetingRestamped; rawLines := [] |}
  = computeStableUid meeting.
Proof.
  exact (proj1 (proj2 (proj2 (proj2 (proj2 (proj2 (proj2 (computeStableUid_spec meeting)))))))
           (properties meetingRestamped) [] eq_refl).
Defined.

(** C4 on the same two events. *)
Lemma computeContentHash_volatile_independent_witness :
  computeContentHash meeting = computeContentHash meetingRestamped
  /\ NormalizedEvent.sequence
       (snd (fst (@processEvent specConstants codeUnitLocale None None meeting emptyWorld)))
     = NormalizedEvent.sequence
         (snd (fst (@processEvent specConstants codeUnitLocale None None
                      meetingRestamped emptyWorld))).
Proof.
  pose proof (@computeContentHash_volatile_independent specConstants codeUnitLocale
                meeting meetingRestamped eq_refl eq_refl) as (Hhash & _ & _ & _ & Hseq).
  split; [exact Hhash | apply Hseq].
Defined.

(** ** The store and the reconciliation loops *)

Section StoreKeys.
Implicit Types (tenantHash : option string) (k : string).

Lemma scoped_inj tenantHash rest rest' :
  scoped tenantHash rest = scoped tenantHash rest' -> rest = rest'.
Proof.
  unfold scoped. destruct tenantHash as [p|]; [|done].
  destruct (JS.truthy p); [|done]. intros Heq.
  apply String.app_inj in Heq. by apply String.app_inj in Heq.
Qed.

(** Distinct event keys have distinct places in the namespace. *)
Lemma eventStoreKey_inj tenantHash k k' :
  eventStoreKey tenantHash k = eventStoreKey tenantHash k' -> k = k'.
Proof.
  unfold eventStoreKey. intros Heq. apply scoped_inj in Heq.
  by apply String.app_inj in Heq.
Qed.

(** No event key shares its place with the snapshot. *)
Lemma eventStoreKey_snapshot tenantHash k :
  eventStoreKey tenantHash k <> snapshotStoreKey tenantHash.
Proof.
  unfold eventStoreKey, snapshotStoreKey. intros Heq. apply scoped_inj in Heq.
  discriminate Heq.
Qed.
End StoreKeys.

Section Reconciliation.
Context `{Constants} `{Locale}.
Implicit Types (tenantHash defaultTimezone : option string) (w : World).
Implicit Types (event : IcsEvent) (evs : list IcsEvent) (k : string).

Lemma bind_run {A B : Type} (m : M A) (f : A -> M B) w :
  (m ≫= f) w = let (x, w') := m w in f x w'.
Proof. reflexivity. Qed.

Lemma priorState_lookup tenantHash w k :
  priorState tenantHash w k
  = match kv w !! eventStoreKey tenantHash k with
    | Some (VEventState st) => Some st
    | _ => None
    end.
Proof. reflexivity. Qed.

(** A state record is read back from the place it was written to, and a
    write to another event key leaves it alone. *)
Lemma priorState_insert tenantHash (m : gmap string KvValue) c t k k' st :
  priorState tenantHash
    {| kv := <[eventStoreKey tenantHash k := VEventState st]> m; clock := c; ticks := t |} k'
  = if decide (k = k') then Some st
    else priorState tenantHash {| kv := m; clock := c; ticks := t |} k'.
Proof.
  rewrite !priorState_lookup. cbn [kv]. destruct (decide (k = k')) as [->|Hne].
  - by rewrite lookup_insert_eq.
  - rewrite lookup_insert_ne; [done|]. intros Heq. by apply eventStoreKey_inj in Heq.
Qed.

Lemma processEvent_world tenantHash defaultTimezone event w :
  snd (processEvent tenantHash defaultTimezone event w)
  = {| kv := <[eventStoreKey tenantHash (eventKeyOf event) :=
                 VEventState
                   {| EventState.sequence :=
                        nextSequence (priorState tenantHash w (eventKeyOf event))
                                     (computeContentHash event);
                      EventState.contentHash := computeContentHash event;
                      EventState.lastSeen := clock w (ticks w) |}]> (kv w);
       clock := clock w; ticks := S (ticks w) |}.
Proof. by rewrite processEvent_run. Qed.

Lemma eventLoop_run tenantHash defaultTimezone evs : forall acc keys w,
  eventLoop tenantHash defaultTimezone evs acc keys w
  = ((acc ++ eventsFrom tenantHash defaultTimezone evs w, keys ++ map eventKeyOf evs),
     worldAfter tenantHash defaultTimezone evs w).
Proof.
  induction evs as [|event rest IH]; intros acc keys w.
  - cbn. by rewrite !app_nil_r.
  - cbn [eventLoop eventsFrom worldAfter map]. rewrite bind_run.
    rewrite (processEvent_run tenantHash defaultTimezone event w) at 1.
    cbv zeta. rewrite IH. rewrite <- !app_assoc. cbn [app].
    by rewrite !processEvent_run.
Qed.

Lemma worldAfter_app tenantHash defaultTimezone evs evs' w :
  worldAfter tenantHash defaultTimezone (evs ++ evs') w
  = worldAfter tenantHash defaultTimezone evs'
      (worldAfter tenantHash defaultTimezone evs w).
Proof. revert w. induction evs as [|event rest IH]; intros w; [done|]. cbn. apply IH. Qed.

Lemma eventsFrom_app tenantHash defaultTimezone evs evs' w :
  eventsFrom tenantHash defaultTimezone (evs ++ evs') w
  = eventsFrom tenantHash defaultTimezone evs w
    ++ eventsFrom tenantHash defaultTimezone evs'
         (worldAfter tenantHash defaultTimezone evs w).
Proof.
  revert w. induction evs as [|event rest IH]; intros w; [done|].
  cbn [app eventsFrom worldAfter]. by rewrite IH.
Qed.

Lemma eventsFrom_length tenantHash defaultTimezone evs w :
  List.length (eventsFrom tenantHash defaultTimezone evs w) = List.length evs.
Proof. revert w. induction evs as [|event rest IH]; intros w; [done|]. cbn. by rewrite IH. Qed.

(** The loop over the events writes to the places of their keys only. *)
Lemma worldAfter_frame tenantHash defaultTimezone evs : forall w place,
  (forall event, In event evs -> place <> eventStoreKey tenantHash (eventKeyOf event)) ->
  kv (worldAfter tenantHash defaultTimezone evs w) !! place = kv w !! place.
Proof.
  induction evs as [|event rest IH]; intros w place Hfree; [done|].
  cbn [worldAfter]. rewrite IH by (intros e He; apply Hfree; by right).
  rewrite processEvent_world. cbn [kv]. apply lookup_insert_ne.
  intros Heq. by apply (Hfree event); [left|].
Qed.

Lemma worldAfter_clock tenantHash defaultTimezone evs w :
  clock (worldAfter tenantHash defaultTimezone evs w) = clock w.
Proof.
  revert w. induction evs as [|event rest IH]; intros w; [done|].
  cbn [worldAfter]. rewrite IH. by rewrite processEvent_world.
Qed.

Lemma priorState_after_loop tenantHash defaultTimezone evs w k :
  existsb (String.eqb k) (map eventKeyOf evs) = false ->
  priorState tenantHash (worldAfter tenantHash defaultTimezone evs w) k
  = priorState tenantHash w k.
Proof.
  intros Hk. rewrite !priorState_lookup. rewrite worldAfter_frame; [done|].
  intros event Hin Heq. apply eventStoreKey_inj in Heq.
  assert (existsb (String.eqb k) (map eventKeyOf evs) = true) as Hex; [|congruence].
  apply existsb_exists. exists (eventKeyOf event). split.
  - by apply in_map.
  - rewrite Heq. apply String.eqb_refl.
Qed.
End Reconciliation.

Section EmittedLines.
Context `{Constants} `{Locale}.

Lemma fold_left_extends {A B : Type} (f : list B -> A -> list B) :
  (forall l a, exists more, f l a = l ++ more) ->
  forall xs l, exists more, fold_left f xs l = l ++ more.
Proof.
  intros Hf xs. induction xs as [|x xs IH]; intros l.
  - exists []. by rewrite app_nil_r.
  - cbn [fold_left]. destruct (Hf l x) as [m1 ->]. destruct (IH (l ++ m1)) as [m2 ->].
    exists (m1 ++ m2). by rewrite app_assoc.
Qed.

Lemma pushLine_extends lines line : exists more, pushLine lines line = lines ++ more.
Proof.
  unfold pushLine. destruct (JS.truthy line); [by exists [line]|].
  exists []. by rewrite app_nil_r.
Qed.

Lemma emitOrdered_extends tz propsByName acc propName :
  exists more, fst (emitOrdered tz propsByName acc propName) = fst acc ++ more.
Proof.
  unfold emitOrdered. destruct (groupGet propName propsByName) as [props|].
  - cbn [fst]. apply fold_left_extends. intros l a. apply pushLine_extends.
  - exists []. by rewrite app_nil_r.
Qed.

Lemma emitOrdered_fold_extends tz propsByName names : forall acc,
  exists more, fst (fold_left (emitOrdered tz propsByName) names acc) = fst acc ++ more.
Proof.
  induction names as [|n names IH]; intros acc.
  - exists []. by rewrite app_nil_r.
  - cbn [fold_left]. destruct (IH (emitOrdered tz propsByName acc n)) as [m2 ->].
    destruct (emitOrdered_extends tz propsByName acc n) as [m1 ->].
    exists (m1 ++ m2). by rewrite app_assoc.
Qed.

Lemma emitRemaining_extends emitted lines entry :
  exists more, emitRemaining emitted lines entry = lines ++ more.
Proof.
  unfold emitRemaining.
  destruct (oneOf emitted (fst entry)); [exists []; by rewrite app_nil_r|].
  destruct (oneOf _ (fst entry)); [exists []; by rewrite app_nil_r|].
  apply fold_left_extends. intros l a. by eexists.
Qed.

(** The first three lines of every emitted event. *)
Lemma normalizeEventLines_head event stableUid sequence defaultTz :
  exists rest,
    normalizeEventLines event stableUid sequence defaultTz
    = "BEGIN:VEVENT" :: ("UID:" +:+ stableUid +:+ "@calproxy")
      :: ("SEQUENCE:" +:+ JS.toString sequence) :: rest.
Proof.
  unfold normalizeEventLines. cbv zeta.
  set (tz := JS.optOrElse defaultTz DEFAULT_TIMEZONE).
  set (propsByName := fold_left _ (properties event) []).
  set (start := ["BEGIN:VEVENT"; _; _]).
  destruct (emitOrdered_fold_extends tz propsByName PROPERTY_ORDER
              (start, ["UID"; "SEQUENCE"])) as [m1 Hm1].
  destruct (fold_left (emitOrdered tz propsByName) PROPERTY_ORDER _)
    as [lines emitted]. cbn [fst] in Hm1. subst lines.
  destruct (fold_left_extends (emitRemaining emitted)
              (emitRemaining_extends emitted) propsByName (start ++ m1)) as [m2 ->].
  exists (m1 ++ m2 ++ ["END:VEVENT"]). subst start. by rewrite <- !app_assoc.
Qed.

Lemma createCancelledEventLines_carries now stableUid sequence recurrenceId :
  let lines := createCancelledEventLines now stableUid sequence recurrenceId in
  In "STATUS:CANCELLED" lines
  /\ In ("UID:" +:+ stableUid +:+ "@calproxy") lines
  /\ In ("SEQUENCE:" +:+ JS.toString sequence) lines.
Proof.
  unfold createCancelledEventLines. cbv zeta.
  destruct (JS.truthy _); repeat split;
    apply in_or_app; left; apply in_or_app; left; cbn; tauto.
Qed.
End EmittedLines.

Section Cancellations.
Context `{Constants} `{Locale}.
Implicit Types (tenantHash defaultTimezone : option string) (w : World).
Implicit Types (k : string) (old cur : list string).

Lemma stableUidOfKey_split k :
  (if JS.includes "#" k then nth 0 (JS.split "#" k) EmptyString else k)
  = stableUidOfKey k.
Proof.
  unfold stableUidOfKey. rewrite includes_char.
  destruct (lacks "#" k) eqn:Hl; cbn [negb].
  - by rewrite upTo_lacks.
  - apply split_head.
Qed.

Lemma createCancelled_none tenantHash w k :
  priorState tenantHash w k = None ->
  createCancelledEventFromState k tenantHash w = (None, w).
Proof.
  intros Hp. unfold createCancelledEventFromState. rewrite bind_run.
  change (getEventState k tenantHash w) with (priorState tenantHash w k, w).
  by rewrite Hp.
Qed.

Lemma createCancelled_some tenantHash w k st :
  priorState tenantHash w k = Some st ->
  exists ne,
    createCancelledEventFromState k tenantHash w
    = (Some ne,
       {| kv := <[eventStoreKey tenantHash k :=
                    VEventState {| EventState.sequence := EventState.sequence st + 1;
                                   EventState.contentHash := "CANCELLED";
                                   EventState.lastSeen := clock w (ticks w) |}]> (kv w);
          clock := clock w; ticks := S (S (ticks w)) |})
    /\ cancellationOf (fun _ => Some st) k ne.
Proof.
  intros Hp. unfold createCancelledEventFromState. rewrite bind_run.
  change (getEventState k tenantHash w) with (priorState tenantHash w k, w).
  rewrite Hp. eexists. split; [reflexivity|].
  exists st. split; [done|]. cbn [NormalizedEvent.stableUid NormalizedEvent.sequence
                                   NormalizedEvent.lines].
  rewrite stableUidOfKey_split. split; [done|]. split; [done|].
  apply createCancelledEventLines_carries.
Qed.

Lemma cancelLoop_cons tenantHash cur k old acc w :
  cancelLoop tenantHash cur (k :: old) acc w
  = if negb (existsb (String.eqb k) cur)
    then let (cancelled, w') := createCancelledEventFromState k tenantHash w in
         cancelLoop tenantHash cur old
           (match cancelled with Some ne => acc ++ [ne] | None => acc end) w'
    else cancelLoop tenantHash cur old acc w.
Proof. cbn [cancelLoop]. by destruct (negb (existsb (String.eqb k) cur)). Qed.

(** The loop over the keys of the previous snapshot, for keys that are all
    different.  [prior] gives the state records at the start of the loop: the
    loop adds one cancellation for each key that has disappeared and has a
    record, in the order of the keys, rewrites the record of each such key,
    and writes to no other place. *)
Lemma cancelLoop_spec tenantHash cur (prior : string -> option EventState) old :
  forall acc w,
  List.NoDup old ->
  (forall k, In k old -> existsb (String.eqb k) cur = false ->
             priorState tenantHash w k = prior k) ->
  exists added,
    fst (cancelLoop tenantHash cur old acc w) = acc ++ added
    /\ Forall2 (cancellationOf prior) (List.filter (disappeared cur prior) old) added
    /\ (forall k, In k (List.filter (disappeared cur prior) old) ->
          exists st t,
            prior k = Some st
            /\ priorState tenantHash (snd (cancelLoop tenantHash cur old acc w)) k
               = Some {| EventState.sequence := EventState.sequence st + 1;
                         EventState.contentHash := "CANCELLED";
                         EventState.lastSeen := t |})
    /\ (forall place, (forall k, In k old -> place <> eventStoreKey tenantHash k) ->
          kv (snd (cancelLoop tenantHash cur old acc w)) !! place = kv w !! place).
Proof.
  induction old as [|k old IH]; intros acc w Hnd Hprior.
  - exists []. cbn. rewrite app_nil_r. split; [done|]. split; [constructor|]. split; done.
  - apply List.NoDup_cons_iff in Hnd as [Hk Hnd]. rewrite cancelLoop_cons.
    cbn [List.filter].
    destruct (negb (existsb (String.eqb k) cur)) eqn:Hcur.
    2:{ assert (disappeared cur prior k = false) as ->
          by (unfold disappeared; by rewrite Hcur).
        destruct (IH acc w Hnd) as (added & Hacc & Hall & Hst & Hframe).
        { intros k' Hk'. apply Hprior. by right. }
        exists added. split; [done|]. split; [done|]. split; [done|].
        intros place Hfree. apply Hframe. intros k' Hk'. apply Hfree. by right. }
    pose proof (Hprior k (or_introl eq_refl) (proj1 (negb_true_iff _) Hcur)) as Hpk.
    destruct (prior k) as [st|] eqn:Hst0.
    2:{ assert (disappeared cur prior k = false) as ->
          by (unfold disappeared; by rewrite Hcur, Hst0).
        rewrite createCancelled_none by done.
        destruct (IH acc w Hnd) as (added & Hacc & Hall & Hst & Hframe).
        { intros k' Hk'. apply Hprior. by right. }
        exists added. split; [done|]. split; [done|]. split; [done|].
        intros place Hfree. apply Hframe. intros k' Hk'. apply Hfree. by right. }
    assert (disappeared cur prior k = true) as ->
      by (unfold disappeared; by rewrite Hcur, Hst0).
    destruct (createCancelled_some tenantHash w k st Hpk) as (ne & -> & Hne).
    set (w' := {| kv := _; clock := clock w; ticks := S (S (ticks w)) |}).
    destruct (IH (acc ++ [ne]) w' Hnd) as (added & Hacc & Hall & Hst & Hframe).
    { intros k' Hk' Hcur'. subst w'. rewrite priorState_insert.
      destruct (decide (k = k')) as [->|Hne']; [done|].
      rewrite <- (Hprior k') by (done || by right). by destruct w. }
    exists (ne :: added). split; [by rewrite Hacc, <- app_assoc|].
    split.
    { constructor; [|done]. destruct Hne as (st' & Hst' & Hrest).
      injection Hst' as <-. exists st. by rewrite Hst0. }
    split.
    { intros k' [<-|Hk'].
      - exists st, (clock w (ticks w)). split; [done|].
        rewrite priorState_lookup, Hframe.
        + subst w'. cbn [kv]. by rewrite lookup_insert_eq.
        + intros k' Hk' Heq. apply eventStoreKey_inj in Heq. by subst k'.
      - by apply Hst. }
    intros place Hfree. rewrite Hframe.
    + subst w'. cbn [kv]. apply lookup_insert_ne. intros Heq.
      by apply (Hfree k); [left|].
    + intros k' Hk'. apply Hfree. by right.
Qed.

Lemma normalizeCalendar_run parsed tenantHash defaultTimezone w :
  let reached := worldAfter tenantHash defaultTimezone (events parsed) w in
  let pushed := eventsFrom tenantHash defaultTimezone (events parsed) w in
  let currentKeys := map eventKeyOf (events parsed) in
  let afterCancel :=
    match kv reached !! snapshotStoreKey tenantHash with
    | Some (VSnapshot snap) =>
        cancelLoop tenantHash currentKeys (eventKeys snap) pushed reached
    | _ => (pushed, reached)
    end in
  normalizeCalendar parsed tenantHash defaultTimezone w
  = ({| parsed := parsed; normalizedEvents := fst afterCancel |},
     {| kv := <[snapshotStoreKey tenantHash :=
                  VSnapshot {| eventKeys := currentKeys;
                               generatedAt := clock (snd afterCancel)
                                                    (ticks (snd afterCancel)) |}]>
              (kv (snd afterCancel));
        clock := clock (snd afterCancel); ticks := S (ticks (snd afterCancel)) |}).
Proof.
  cbv zeta. unfold normalizeCalendar. rewrite bind_run, eventLoop_run. cbn [app].
  rewrite bind_run. unfold getPreviousSnapshot at 1. rewrite bind_run.
  unfold kvGet at 1. cbn [mret M_ret].
  destruct (kv (worldAfter tenantHash defaultTimezone (events parsed) w)
            !! snapshotStoreKey tenantHash) as [[st|snap|text]|];
    rewrite bind_run; try reflexivity.
  by destruct (cancelLoop _ _ _ _ _).
Qed.
End Cancellations.

(** ** C1 and C2: sequence numbers and cancellations *)

Section ReconcilerClaims.
Context `{Constants} `{Locale}.
Implicit Types (tenantHash defaultTimezone : option string) (w : World).

Lemma normalizeCalendar_events parsed tenantHash defaultTimezone w :
  exists added,
    normalizedEvents (fst (normalizeCalendar parsed tenantHash defaultTimezone w))
    = eventsFrom tenantHash defaultTimezone (events parsed) w ++ added.
Proof.
  rewrite normalizeCalendar_run. cbn [fst normalizedEvents].
  destruct (kv _ !! snapshotStoreKey tenantHash) as [[st|snap|text]|];
    try (exists []; by rewrite app_nil_r).
  set (cur := map eventKeyOf (events parsed)).
  set (reached := worldAfter tenantHash defaultTimezone (events parsed) w).
  assert (forall old acc w', exists added,
            fst (cancelLoop tenantHash cur old acc w') = acc ++ added) as Hacc.
  { induction old as [|k old IH]; intros acc w'.
    - exists []. cbn. by rewrite app_nil_r.
    - rewrite cancelLoop_cons. destruct (negb _); [|apply IH].
      destruct (createCancelledEventFromState k tenantHash w') as [[ne|] w''];
        [|apply IH].
      destruct (IH (acc ++ [ne]) w'') as [added ->]. exists (ne :: added).
      by rewrite <- app_assoc. }
  apply Hacc.
Qed.

(** C2, as amended.  Let the keys of the previous snapshot be all
    different.  For every key of the snapshot that is not the key of a
    current event and for which the store has a state record, exactly one
    cancellation is appended to the output, after the events of the feed and
    in the order of the snapshot: it carries [STATUS:CANCELLED],
    [UID:<stable-uid>@calproxy] and the stored sequence plus one, and the
    record of the key is rewritten with the content hash [CANCELLED] and
    that sequence. *)
Theorem normalizeCalendar_cancellations parsed tenantHash defaultTimezone w snap :
  kv w !! snapshotStoreKey tenantHash = Some (VSnapshot snap) ->
  List.NoDup (eventKeys snap) ->
  let currentKeys := map eventKeyOf (events parsed) in
  let prior := priorState tenantHash w in
  let gone := List.filter (disappeared currentKeys prior) (eventKeys snap) in
  let result := normalizeCalendar parsed tenantHash defaultTimezone w in
  exists kept cancellations,
    normalizedEvents (fst result) = kept ++ cancellations
    /\ List.length kept = List.length (events parsed)
    /\ Forall2 (cancellationOf prior) gone cancellations
    /\ List.NoDup gone
    /\ (forall k st, In k (eventKeys snap) -> ~ In k currentKeys -> prior k = Some st ->
          In k gone)
    /\ (forall k, In k gone ->
          exists st t,
            prior k = Some st
            /\ priorState tenantHash (snd result) k
               = Some {| EventState.sequence := EventState.sequence st + 1;
                         EventState.contentHash := "CANCELLED";
                         EventState.lastSeen := t |}).
Proof.
  intros Hsnap Hnd currentKeys prior gone result.
  subst result. rewrite normalizeCalendar_run. cbv zeta. cbn [fst snd normalizedEvents].
  set (reached := worldAfter tenantHash defaultTimezone (events parsed) w).
  set (pushed := eventsFrom tenantHash defaultTimezone (events parsed) w).
  fold currentKeys.
  assert (kv reached !! snapshotStoreKey tenantHash = Some (VSnapshot snap)) as ->.
  { subst reached. rewrite worldAfter_frame; [done|].
    intros e _ Heq. symmetry in Heq. by apply eventStoreKey_snapshot in Heq. }
  destruct (cancelLoop_spec tenantHash currentKeys prior (eventKeys snap) pushed reached Hnd)
    as (added & Hacc & Hall & Hst & _).
  { intros k _ Hcur. by apply priorState_after_loop. }
  exists pushed, added. split; [done|].
  split; [apply eventsFrom_length|].
  split; [done|].
  split; [by apply List.NoDup_filter|].
  split.
  { intros k st Hin Hcur Hp. apply filter_In. split; [done|].
    unfold disappeared. rewrite Hp, andb_true_r. apply negb_true_iff.
    destruct (existsb (String.eqb k) currentKeys) eqn:Hex; [|done].
    apply existsb_exists in Hex as (k' & Hk' & Heq). apply String.eqb_eq in Heq.
    by subst k'. }
  intros k Hk. destruct (Hst k Hk) as (st & t & Hp & Hfinal).
  exists st, t. split; [done|]. rewrite priorState_lookup in *. cbn [kv].
  rewrite lookup_insert_ne; [done|].
  intros Heq. symmetry in Heq. by apply eventStoreKey_snapshot in Heq.
Qed.
End ReconcilerClaims.

(** C2, against the claim as it is stated: a key of the previous snapshot
    without a state record gets no cancellation, and a key that the snapshot
    lists twice gets two, with the stored sequence plus one and plus two. *)
Lemma cancellations_not_exactly_one :
  normalizedEvents
    (fst (@normalizeCalendar specConstants codeUnitLocale emptyCalendar None None
            orphanWorld)) = []
  /\ map NormalizedEvent.sequence
       (normalizedEvents
          (fst (@normalizeCalendar specConstants codeUnitLocale emptyCalendar None None
                  repeatedKeyWorld))) = [4; 5].
Proof. split; reflexivity. Qed.

(** C2 on a store whose snapshot holds the key of an exception that has
    left the feed. *)
Lemma normalizeCalendar_cancellations_witness :
  exists cancellations,
    normalizedEvents
      (fst (@normalizeCalendar specConstants codeUnitLocale emptyCalendar None None
              departedWorld)) = [] ++ cancellations
    /\ Forall2 (cancellationOf (priorState None departedWorld))
         ["abc#20240601T090000"] cancellations.
Proof.
  destruct (@normalizeCalendar_cancellations specConstants codeUnitLocale emptyCalendar
              None None departedWorld
              {| eventKeys := ["abc#20240601T090000"]; generatedAt := 0 |})
    as (kept & cancellations & Hout & Hlen & Hall & _).
  - reflexivity.
  - repeat constructor. intros [].
  - destruct kept; [|discriminate Hlen]. by exists cancellations.
Defined.

(** ** Folding and unfolding agree *)

Section FoldUnfold.
Implicit Types (line rest prefix : string) (ls : list string).

Lemma lacks_take c n s : lacks c s = true -> lacks c (JS.take n s) = true.
Proof.
  revert s. induction n as [|n IH]; intros [|a s] Hl; try reflexivity.
  apply lacks_cons in Hl as [Ha Hl]. cbn [JS.take]. apply lacks_cons. auto.
Qed.

Lemma lacks_drop c n s : lacks c s = true -> lacks c (JS.drop n s) = true.
Proof.
  revert s. induction n as [|n IH]; intros [|a s] Hl; try done.
  apply lacks_cons in Hl as [Ha Hl]. cbn [JS.drop]. auto.
Qed.

(** The folded text splits into its first part and continuation lines that
    give back the rest. *)
Lemma splitLines_continuation fuel : forall rest prefix,
  lacks "010" prefix = true -> lacks "010" rest = true ->
  exists ls,
    JS.splitLines (prefix +:+ continuation fuel rest) = prefix :: ls
    /\ Forall (fun l => isContinuation l = true) ls
    /\ (String.length rest <= fuel -> fold_right (fun l text => JS.drop 1 l +:+ text) EmptyString ls = rest)%nat.
Proof.
  induction fuel as [|fuel IH]; intros rest prefix Hp Hr.
  - exists []. cbn [continuation]. rewrite append_nil_r, splitLines_one by done.
    split; [done|]. split; [constructor|]. destruct rest; [done|]. simpl. lia.
  - destruct rest as [|a rest].
    { exists []. cbn [continuation JS.truthy]. rewrite append_nil_r, splitLines_one by done.
      split; [done|]. split; [constructor|]. done. }
    cbn [continuation JS.truthy].
    set (chunk := JS.take 74 (String a rest)).
    set (more := JS.drop 74 (String a rest)).
    destruct (IH more (SP +:+ chunk)) as (ls & Hsplit & Hcont & Hback).
    { unfold SP. rewrite append_cons, append_nil_l. apply lacks_cons.
      split; [done|]. by apply lacks_take. }
    { by apply lacks_drop. }
    exists ((SP +:+ chunk) :: ls).
    replace (prefix +:+ CRLF +:+ SP +:+ chunk +:+ continuation fuel more)
      with (prefix +:+ CRLF +:+ ((SP +:+ chunk) +:+ continuation fuel more))
      by (by rewrite !append_assoc).
    rewrite splitLines_crlf by done. rewrite Hsplit.
    split; [done|]. split; [by constructor|].
    intros Hlen. cbn [fold_right]. rewrite Hback.
    + unfold SP. rewrite append_cons, append_nil_l. cbn [JS.drop]. apply take_drop.
    + subst more. rewrite length_drop. simpl in *. lia.
Qed.

Lemma unfoldSpec_continuations ls : forall current,
  Forall (fun l => isContinuation l = true) ls ->
  unfoldSpec current ls
  = [current +:+ fold_right (fun l text => JS.drop 1 l +:+ text) EmptyString ls].
Proof.
  induction ls as [|l ls IH]; intros current Hall.
  - cbn. by rewrite append_nil_r.
  - inversion Hall as [|? ? Hl Hls]; subst. cbn [unfoldSpec fold_right].
    rewrite Hl, IH by done. by rewrite append_assoc.
Qed.

(** Unfolding gives back a line that was folded. *)
Lemma unfoldLines_foldLine line :
  lacks "010" line = true -> unfoldLines (foldLine line) = [line].
Proof.
  intros Hl. rewrite unfoldLines_refines. unfold unfoldLinesSpec.
  destruct (Nat.le_gt_cases (String.length line) 75) as [Hshort|Hlong].
  - rewrite foldLine_short, splitLines_one by done. reflexivity.
  - rewrite foldLine_long by done. unfold foldedTail.
    destruct (splitLines_continuation (String.length (JS.drop 75 line))
                (JS.drop 75 line) (JS.take 75 line)) as (ls & -> & Hcont & Hback);
      [by apply lacks_take | by apply lacks_drop |].
    rewrite unfoldSpec_continuations by done. rewrite Hback by done.
    by rewrite take_drop.
Qed.
End FoldUnfold.

(** ** The scenarios of the specification *)

(** The first run: the mapped zone, the stable identifier and sequence 0. *)
Example scenario_first_run :
  map NormalizedEvent.lines
      (normalizedEvents (fst (runFeed (scenarioFeed "20240101T000000Z" "M") emptyWorld)))
  = [["BEGIN:VEVENT"; "UID:9ffce6342e10418414264c00e57fb5d6@calproxy"; "SEQUENCE:0";
      "DTSTAMP:20240101T000000Z"; "DTSTART;TZID=America/New_York:20240601T090000";
      "SUMMARY:M"; "ORGANIZER:O"; "END:VEVENT"]].
Proof. vm_compute. reflexivity. Qed.

(** The same feed twice: the sequence stays 0. *)
Example scenario_same_feed_twice :
  let feed := scenarioFeed "20240101T000000Z" "M" in
  sequencesOf (fst (runFeed feed (snd (runFeed feed emptyWorld))))
  = [("9ffce6342e10418414264c00e57fb5d6", 0)].
Proof. vm_compute. reflexivity. Qed.

(** A changed summary: a new event with sequence 0, and the cancellation of
    the first event with sequence 1. *)
Example scenario_changed_summary :
  sequencesOf
    (fst (runFeed (scenarioFeed "20240101T000000Z" "M2")
            (snd (runFeed (scenarioFeed "20240101T000000Z" "M") emptyWorld))))
  = [("8f35cefdca7bd0b7c0245f802e7d1fbb", 0); ("9ffce6342e10418414264c00e57fb5d6", 1)].
Proof. vm_compute. reflexivity. Qed.

(** A changed time stamp alone: the sequence stays 0. *)
Example scenario_changed_dtstamp :
  sequencesOf
    (fst (runFeed (scenarioFeed "20240202T000000Z" "M")
            (snd (runFeed (scenarioFeed "20240101T000000Z" "M") emptyWorld))))
  = [("9ffce6342e10418414264c00e57fb5d6", 0)].
Proof. vm_compute. reflexivity. Qed.

(** ** The store across a run of the reconciliation *)

Section StoreAcrossRuns.
Context `{Constants} `{Locale}.
Implicit Types (tenantHash defaultTimezone : option string) (w : World).
Implicit Types (event : IcsEvent) (evs : list IcsEvent) (k : string).
Implicit Types (old cur : list string).









(** The places that the loop over the old keys writes to. *)
Lemma cancelLoop_frame tenantHash cur old : forall acc w place,
  (forall k, In k old -> existsb (String.eqb k) cur = false ->
             place <> eventStoreKey tenantHash k) ->
  kv (snd (cancelLoop tenantHash cur old acc w)) !! place = kv w !! place.
Proof.
  induction old as [|k old IH]; intros acc w place Hfree; [done|].
  rewrite cancelLoop_cons.
  assert (forall k', In k' old -> existsb (String.eqb k') cur = false ->
                     place <> eventStoreKey tenantHash k') as Hrest
    by (intros k' Hk'; apply Hfree; by right).
  destruct (negb (existsb (String.eqb k) cur)) eqn:Hcur; [|by apply IH].
  apply negb_true_iff in Hcur.
  destruct (priorState tenantHash w k) as [st|] eqn:Hp.
  - destruct (createCancelled_some tenantHash w k st Hp) as (ne & -> & _).
    rewrite IH by done. cbn [kv]. apply lookup_insert_ne. intros Heq.
    by apply (Hfree k); [left| |].
  - rewrite createCancelled_none by done. by apply IH.
Qed.

Lemma cancelLoop_clock tenantHash cur old : forall acc w,
  clock (snd (cancelLoop tenantHash cur old acc w)) = clock w.
Proof.
  induction old as [|k old IH]; intros acc w; [done|].
  rewrite cancelLoop_cons. destruct (negb _); [|apply IH].
  destruct (priorState tenantHash w k) as [st|] eqn:Hp.
  - destruct (createCancelled_some tenantHash w k st Hp) as (ne & -> & _).
    by rewrite IH.
  - rewrite createCancelled_none by done. apply IH.
Qed.

(** No old key has disappeared: the loop adds nothing and writes nothing. *)
Lemma cancelLoop_all_current tenantHash cur old : forall acc w,
  (forall k, In k old -> existsb (String.eqb k) cur = true) ->
  cancelLoop tenantHash cur old acc w = (acc, w).
Proof.
  induction old as [|k old IH]; intros acc w Hall; [done|].
  rewrite cancelLoop_cons, (Hall k) by (by left). cbn [negb].
  apply IH. intros k' Hk'. apply Hall. by right.
Qed.

Lemma normalizeCalendar_world parsed tenantHash defaultTimezone w :
  let w' := afterLoops parsed tenantHash defaultTimezone w in
  snd (normalizeCalendar parsed tenantHash defaultTimezone w)
  = {| kv := <[snapshotStoreKey tenantHash :=
                 VSnapshot {| eventKeys := map eventKeyOf (events parsed);
                              generatedAt := clock w' (ticks w') |}]> (kv w');
       clock := clock w'; ticks := S (ticks w') |}.
Proof.
  cbv zeta. rewrite normalizeCalendar_run. cbn [snd]. unfold afterLoops.
  by destruct (kv _ !! snapshotStoreKey tenantHash) as [[st|snap|text]|].
Qed.

Lemma priorState_snapshot tenantHash (m : gmap string KvValue) c t snap k :
  priorState tenantHash
    {| kv := <[snapshotStoreKey tenantHash := VSnapshot snap]> m; clock := c; ticks := t |} k
  = priorState tenantHash {| kv := m; clock := c; ticks := t |} k.
Proof.
  rewrite !priorState_lookup. cbn [kv]. rewrite lookup_insert_ne; [done|].
  intros Heq. symmetry in Heq. by apply eventStoreKey_snapshot in Heq.
Qed.



(** The places that a run writes to belong to the tenant. *)
Lemma normalizeCalendar_frame parsed tenantHash defaultTimezone w place :
  (forall rest, place <> scoped tenantHash rest) ->
  kv (snd (normalizeCalendar parsed tenantHash defaultTimezone w)) !! place
  = kv w !! place.
Proof.
  intros Hfree. rewrite normalizeCalendar_world. cbv zeta. cbn [kv].
  rewrite lookup_insert_ne by (intros Heq; by apply (Hfree "snapshot:keys")).
  unfold afterLoops.
  assert (kv (worldAfter tenantHash defaultTimezone (events parsed) w) !! place
          = kv w !! place) as Hev.
  { apply worldAfter_frame. intros event _. apply Hfree. }
  destruct (kv _ !! snapshotStoreKey tenantHash) as [[st|snap|text]|]; try done.
  rewrite cancelLoop_frame; [done|]. intros k _ _. apply Hfree.
Qed.
End StoreAcrossRuns.

(** ** C1: the sequence number of an event and its state record *)

Section SequenceClaim.
Context `{Constants} `{Locale}.
Implicit Types (tenantHash defaultTimezone : option string) (w : World).
Implicit Types (event : IcsEvent) (evs : list IcsEvent) (k : string).

(** The record of the key of a current event is, when the run is over, the
    one that the loop over the events has left: neither the loop over the
    old keys nor the new snapshot touches it. *)
Lemma normalizeCalendar_keeps_current parsed tenantHash defaultTimezone w k :
  existsb (String.eqb k) (map eventKeyOf (events parsed)) = true ->
  priorState tenantHash (snd (normalizeCalendar parsed tenantHash defaultTimezone w)) k
  = priorState tenantHash (worldAfter tenantHash defaultTimezone (events parsed) w) k.
Proof.
  intros Hcur. rewrite normalizeCalendar_world. cbv zeta. rewrite priorState_snapshot.
  rewrite !priorState_lookup. cbn [kv]. unfold afterLoops.
  destruct (kv _ !! snapshotStoreKey tenantHash) as [[st|snap|text]|]; try done.
  rewrite cancelLoop_frame; [done|]. intros k' _ Hk' Heq.
  apply eventStoreKey_inj in Heq. subst k'. congruence.
Qed.

(** C1.  When [normalizeCalendar] reaches an event, the sequence number it
    emits for it is 0 if the store has no state record for the event key, the
    stored sequence if the record has the content hash of the event, and the
    stored sequence plus one if the record has another content hash.  The
    number is the SEQUENCE line of the emitted event, and the record of the
    key is rewritten with this number, the content hash of the event and the
    reading of the clock: this is the record of the key in the store that
    [normalizeCalendar] leaves for the feed that ends with the event, and in
    the store that it leaves for the whole feed unless a later event of the
    feed has the same key, whose turn then rewrites the record by the same
    rule. *)
Theorem normalizeCalendar_sequence parsed tenantHash defaultTimezone w before event after :
  events parsed = before ++ event :: after ->
  let reached := worldAfter tenantHash defaultTimezone before w in
  let prior := priorState tenantHash reached (eventKeyOf event) in
  let contentHash := computeContentHash event in
  snd (eventLoop tenantHash defaultTimezone before [] [] w) = reached
  /\ exists ne,
       let written :=
         Some {| EventState.sequence := NormalizedEvent.sequence ne;
                 EventState.contentHash := contentHash;
                 EventState.lastSeen := clock reached (ticks reached) |} in
       nth_error
         (normalizedEvents (fst (normalizeCalendar parsed tenantHash defaultTimezone w)))
         (List.length before) = Some ne
       /\ nth_error (NormalizedEvent.lines ne) 2
          = Some ("SEQUENCE:" +:+ JS.toString (NormalizedEvent.sequence ne))
       /\ (prior = None -> NormalizedEvent.sequence ne = 0)
       /\ (forall st, prior = Some st -> EventState.contentHash st = contentHash ->
             NormalizedEvent.sequence ne = EventState.sequence st)
       /\ (forall st, prior = Some st -> EventState.contentHash st <> contentHash ->
             NormalizedEvent.sequence ne = EventState.sequence st + 1)
       /\ priorState tenantHash
            (worldAfter tenantHash defaultTimezone (before ++ [event]) w)
            (eventKeyOf event) = written
       /\ priorState tenantHash
            (snd (normalizeCalendar (withEvents parsed (before ++ [event]))
                    tenantHash defaultTimezone w))
            (eventKeyOf event) = written
       /\ (existsb (String.eqb (eventKeyOf event)) (map eventKeyOf after) = false ->
           priorState tenantHash
             (snd (normalizeCalendar parsed tenantHash defaultTimezone w))
             (eventKeyOf event) = written).
Proof.
  intros Hevents reached prior contentHash.
  split; [by rewrite eventLoop_run|].
  exists (snd (fst (processEvent tenantHash defaultTimezone event reached))).
  cbv zeta.
  assert (priorState tenantHash
            (worldAfter tenantHash defaultTimezone (before ++ [event]) w)
            (eventKeyOf event)
          = Some {| EventState.sequence :=
                      NormalizedEvent.sequence
                        (snd (fst (processEvent tenantHash defaultTimezone event reached)));
                    EventState.contentHash := contentHash;
                    EventState.lastSeen := clock reached (ticks reached) |}) as Hwritten.
  { rewrite worldAfter_app. cbn [worldAfter]. fold reached.
    rewrite processEvent_run. cbn [fst snd NormalizedEvent.sequence].
    rewrite priorState_insert. fold prior contentHash. by destruct (decide _). }
  assert (forall evs, existsb (String.eqb (eventKeyOf event))
                        (map eventKeyOf (before ++ event :: evs)) = true) as Hcurrent.
  { intros evs. apply existsb_exists. exists (eventKeyOf event). split.
    - apply in_map, in_or_app. right. by left.
    - apply String.eqb_refl. }
  split.
  { destruct (normalizeCalendar_events parsed tenantHash defaultTimezone w) as [added ->].
    rewrite Hevents, eventsFrom_app. cbn [eventsFrom]. fold reached.
    rewrite <- app_assoc.
    rewrite List.nth_error_app2 by (rewrite eventsFrom_length; lia).
    rewrite eventsFrom_length, Nat.sub_diag. reflexivity. }
  split.
  { rewrite processEvent_run. cbn [fst snd NormalizedEvent.sequence NormalizedEvent.lines].
    fold prior contentHash.
    destruct (normalizeEventLines_head event (computeStableUid event)
                (nextSequence prior contentHash) defaultTimezone) as [rest ->].
    reflexivity. }
  split.
  { rewrite processEvent_run. cbn [fst snd NormalizedEvent.sequence].
    fold prior. by intros ->. }
  split.
  { rewrite processEvent_run. cbn [fst snd NormalizedEvent.sequence].
    fold prior contentHash. intros st -> Hh. cbn. by rewrite Hh, String.eqb_refl. }
  split.
  { rewrite processEvent_run. cbn [fst snd NormalizedEvent.sequence].
    fold prior contentHash. intros st -> Hh. cbn. apply String.eqb_neq in Hh.
    by rewrite Hh. }
  split; [exact Hwritten|].
  split.
  { rewrite normalizeCalendar_keeps_current by (cbn [withEvents events]; apply Hcurrent).
    exact Hwritten. }
  intros Hlater.
  rewrite normalizeCalendar_keeps_current by (rewrite Hevents; apply Hcurrent).
  rewrite Hevents.
  change (before ++ event :: after) with (before ++ [event] ++ after).
  rewrite app_assoc, worldAfter_app, priorState_after_loop by done.
  exact Hwritten.
Qed.
End SequenceClaim.

(** C1 on a calendar of one event and an empty store: the event gets the
    sequence 0, and the store that [normalizeCalendar] leaves holds the
    record of its key with this sequence, its content hash and the first
    reading of the clock. *)
Lemma normalizeCalendar_sequence_witness :
  exists ne,
    nth_error
      (normalizedEvents
         (fst (@normalizeCalendar specConstants codeUnitLocale meetingCalendar None None
                 emptyWorld))) 0 = Some ne
    /\ NormalizedEvent.sequence ne = 0
    /\ priorState None
         (snd (@normalizeCalendar specConstants codeUnitLocale meetingCalendar None None
                 emptyWorld))
         (eventKeyOf meeting)
       = Some {| EventState.sequence := 0;
                 EventState.contentHash := computeContentHash meeting;
                 EventState.lastSeen := sampleClock 0 |}.
Proof.
  destruct (@normalizeCalendar_sequence specConstants codeUnitLocale meetingCalendar
              None None emptyWorld [] meeting [] eq_refl)
    as (_ & ne & Hnth & _ & Hnone & _ & _ & _ & _ & Hfinal).
  exists ne. split; [exact Hnth|].
  assert (NormalizedEvent.sequence ne = 0) as Hseq by (apply Hnone; reflexivity).
  split; [exact Hseq|]. rewrite (Hfinal eq_refl), Hseq. reflexivity.
Defined.
Section RunsOfTheReconciliation.
Context `{Constants} `{Locale}.
Implicit Types (tenantHash defaultTimezone : option string) (w : World).
Implicit Types (event : IcsEvent) (evs : list IcsEvent) (k : string).

Lemma existsb_eqb_In k (l : list string) :
  existsb (String.eqb k) l = true <-> In k l.
Proof.
  rewrite existsb_exists. split.
  - intros (x & Hx & Heq). apply String.eqb_eq in Heq. by subst x.
  - intros Hin. exists k. split; [done|apply String.eqb_refl].
Qed.

Lemma existsb_eqb_not_In k (l : list string) :
  ~ In k l -> existsb (String.eqb k) l = false.
Proof.
  intros Hn. destruct (existsb (String.eqb k) l) eqn:He; [|done].
  by apply existsb_eqb_In in He.
Qed.




(** X3.  A run for the tenant with the hash [p] writes only to places whose
    name begins with [p] and a colon: every other place of the namespace
    holds after the run what it held before. *)
Theorem normalizeCalendar_tenant_isolation parsed p defaultTimezone w place :
  JS.truthy p = true ->
  JS.startsWith (p +:+ ":") place = false ->
  kv (snd (normalizeCalendar parsed (Some p) defaultTimezone w)) !! place = kv w !! place.
Proof.
  intros Hp Hplace. apply normalizeCalendar_frame. intros rest ->.
  unfold scoped in Hplace. rewrite Hp in Hplace.
  rewrite <- append_assoc, startsWith_append in Hplace. discriminate Hplace.
Qed.

Lemma nextSequence_same sequence contentHash lastSeen :
  nextSequence (Some {| EventState.sequence := sequence;
                        EventState.contentHash := contentHash;
                        EventState.lastSeen := lastSeen |}) contentHash
  = sequence.
Proof. unfold nextSequence. cbn. by rewrite String.eqb_refl. Qed.

(** With keys that are all different, the record of an event after the loop
    is the one that its own turn has written. *)
Lemma worldAfter_record_distinct tenantHash defaultTimezone evs : forall w event,
  List.NoDup (map eventKeyOf evs) -> In event evs ->
  exists t,
    priorState tenantHash (worldAfter tenantHash defaultTimezone evs w) (eventKeyOf event)
    = Some {| EventState.sequence :=
                nextSequence (priorState tenantHash w (eventKeyOf event))
                             (computeContentHash event);
              EventState.contentHash := computeContentHash event;
              EventState.lastSeen := t |}.
Proof.
  induction evs as [|e rest IH]; intros w event Hnd Hin; [done|].
  cbn [map] in Hnd. apply List.NoDup_cons_iff in Hnd as [He Hnd].
  cbn [worldAfter]. destruct Hin as [->|Hin].
  - exists (clock w (ticks w)).
    rewrite priorState_after_loop by (by apply existsb_eqb_not_In).
    rewrite processEvent_world, priorState_insert. by rewrite decide_True.
  - destruct (IH (snd (processEvent tenantHash defaultTimezone e w)) event Hnd Hin)
      as [t Ht].
    exists t. rewrite Ht. do 3 f_equal.
    rewrite processEvent_world, priorState_insert. rewrite decide_False; [done|].
    intros Heq. apply He. rewrite Heq. by apply in_map.
Qed.

Lemma eventsFrom_ext tenantHash defaultTimezone evs : forall w1 w2,
  List.NoDup (map eventKeyOf evs) ->
  (forall event, In event evs ->
     nextSequence (priorState tenantHash w1 (eventKeyOf event)) (computeContentHash event)
     = nextSequence (priorState tenantHash w2 (eventKeyOf event))
                    (computeContentHash event)) ->
  eventsFrom tenantHash defaultTimezone evs w1
  = eventsFrom tenantHash defaultTimezone evs w2.
Proof.
  induction evs as [|e rest IH]; intros w1 w2 Hnd Hsame; [done|].
  cbn [map] in Hnd. apply List.NoDup_cons_iff in Hnd as [He Hnd].
  cbn [eventsFrom]. f_equal.
  - rewrite !processEvent_run. cbn [fst snd]. by rewrite (Hsame e) by (by left).
  - apply IH; [done|]. intros event Hin. rewrite !processEvent_world.
    assert (eventKeyOf e <> eventKeyOf event) as Hne
      by (intros Heq; apply He; rewrite Heq; by apply in_map).
    rewrite !priorState_insert, !decide_False by done.
    rewrite !priorState_lookup. cbn [kv]. rewrite <- !priorState_lookup.
    apply (Hsame event). by right.
Qed.

(** X4.  Idempotence: when the events of a feed have keys that are all
    different, a second run on the same feed emits the events that the
    first run has emitted for the feed, with the same sequence numbers and
    the same lines, and it emits no cancellation. *)
Theorem normalizeCalendar_idempotent parsed tenantHash defaultTimezone w :
  List.NoDup (map eventKeyOf (events parsed)) ->
  let first := normalizeCalendar parsed tenantHash defaultTimezone w in
  let second := normalizeCalendar parsed tenantHash defaultTimezone (snd first) in
  normalizedEvents (fst second)
  = firstn (List.length (events parsed)) (normalizedEvents (fst first)).
Proof.
  intros Hnd. cbv zeta.
  destruct (normalizeCalendar_events parsed tenantHash defaultTimezone w) as [added ->].
  rewrite <- (eventsFrom_length tenantHash defaultTimezone (events parsed) w) at 1.
  rewrite take_app_length.
  set (w1 := snd (normalizeCalendar parsed tenantHash defaultTimezone w)).
  rewrite normalizeCalendar_run. cbn [fst normalizedEvents].
  assert (kv w1 !! snapshotStoreKey tenantHash
          = Some (VSnapshot
                    {| eventKeys := map eventKeyOf (events parsed);
                       generatedAt :=
                         clock (afterLoops parsed tenantHash defaultTimezone w)
                               (ticks (afterLoops parsed tenantHash defaultTimezone w)) |}))
    as Hsnap.
  { subst w1. rewrite normalizeCalendar_world. cbv zeta. cbn [kv].
    by rewrite lookup_insert_eq. }
  rewrite worldAfter_frame
    by (intros event _ Heq; symmetry in Heq; by apply eventStoreKey_snapshot in Heq).
  rewrite Hsnap. cbn [eventKeys].
  rewrite cancelLoop_all_current by (intros k Hk; by apply existsb_eqb_In).
  cbn [fst]. clear Hsnap. apply eventsFrom_ext; [done|]. intros event Hin.
  destruct (worldAfter_record_distinct tenantHash defaultTimezone _ w event Hnd Hin)
    as [t Ht].
  assert (priorState tenantHash w1 (eventKeyOf event)
          = priorState tenantHash
              (worldAfter tenantHash defaultTimezone (events parsed) w)
              (eventKeyOf event)) as ->.
  { subst w1. rewrite normalizeCalendar_world. cbv zeta. rewrite priorState_snapshot.
    rewrite !priorState_lookup. cbn [kv]. unfold afterLoops.
    destruct (kv _ !! snapshotStoreKey tenantHash) as [[st|snap|text]|]; try done.
    rewrite cancelLoop_frame; [done|]. intros k _ Hk Heq.
    apply eventStoreKey_inj in Heq. subst k.
    assert (existsb (String.eqb (eventKeyOf event)) (map eventKeyOf (events parsed))
            = true) as Hex by (apply existsb_eqb_In; by apply in_map).
    congruence. }
  rewrite Ht. apply nextSequence_same.
Qed.




End RunsOfTheReconciliation.

Lemma normalizeCalendar_tenant_isolation_witness :
  kv (snd (@normalizeCalendar specConstants codeUnitLocale meetingCalendar (Some "t1")
             None sharedWorld)) !! "t2:event:abc"
  = kv sharedWorld !! "t2:event:abc".
Proof.
  apply (@normalizeCalendar_tenant_isolation specConstants codeUnitLocale meetingCalendar
           "t1" None sharedWorld "t2:event:abc"); reflexivity.
Defined.

Lemma normalizeCalendar_idempotent_witness :
  normalizedEvents
    (fst (@normalizeCalendar specConstants codeUnitLocale meetingCalendar None None
            (snd (@normalizeCalendar specConstants codeUnitLocale meetingCalendar None
                    None emptyWorld))))
  = firstn 1
      (normalizedEvents
         (fst (@normalizeCalendar specConstants codeUnitLocale meetingCalendar None None
                 emptyWorld))).
Proof.
  apply (@normalizeCalendar_idempotent specConstants codeUnitLocale meetingCalendar
           None None emptyWorld).
  repeat constructor. intros [].
Defined.


(** ** What the content hash does not see *)

Section ContentHashInvariance.
Implicit Types (event : IcsEvent) (l : list string).

Lemma codeUnitLe_trans a b c : codeUnitLe a b -> codeUnitLe b c -> codeUnitLe a c.
Proof.
  unfold codeUnitLe. intros Hab Hbc.
  apply Is_true_true. apply Is_true_true in Hab, Hbc.
  by apply (transitivity (R := String.le) (y := b)).
Qed.

(** A list has one sorted arrangement. *)
Lemma sorted_unique l : forall l',
  StronglySorted codeUnitLe l -> StronglySorted codeUnitLe l' ->
  Permutation l l' -> l = l'.
Proof.
  induction l as [|x l IH]; intros [|y l'] Hs Hs' Hp.
  - done.
  - by apply Permutation_nil in Hp.
  - symmetry in Hp. by apply Permutation_nil in Hp.
  - apply StronglySorted_inv in Hs as [Hs Hx]. apply StronglySorted_inv in Hs' as [Hs' Hy].
    assert (x = y) as <-.
    { assert (In x (y :: l')) as [->|Hx'];
        [eapply Permutation_in; [exact Hp|by left] | done |].
      assert (In y (x :: l)) as [->|Hy'];
        [eapply Permutation_in; [symmetry; exact Hp|by left] | done |].
      apply String.leb_antisym.
      - by apply (proj1 (List.Forall_forall _ _) Hx).
      - by apply (proj1 (List.Forall_forall _ _) Hy). }
    f_equal. apply IH; [done|done|]. by apply Permutation_cons_inv in Hp.
Qed.

(** Sorting forgets the order of its input. *)
Lemma sortStrings_permutation l l' : Permutation l l' -> sortStrings l = sortStrings l'.
Proof.
  intros Hp.
  apply sorted_unique;
    try (apply Sorted_StronglySorted; [exact codeUnitLe_trans|apply sortStrings_sorted]).
  rewrite !sortStrings_perm. exact Hp.
Qed.

Lemma stableProps_lines event :
  stableProps event
  = JS.join LF
      (sortStrings
         (map (fun nv => fst nv +:+ ":" +:+ snd nv)
              (map nameValue (List.filter stable (properties event))))).
Proof. unfold stableProps. by rewrite map_map. Qed.

(** X6.  The content hash of an event depends only on the names and the
    values of its properties other than DTSTAMP, LAST-MODIFIED and SEQUENCE,
    counted with their repetitions: neither the order of the properties nor
    their parameters change it. *)
Theorem computeContentHash_permutation event event' :
  Permutation (map nameValue (List.filter stable (properties event)))
              (map nameValue (List.filter stable (properties event'))) ->
  computeContentHash event = computeContentHash event'.
Proof.
  intros Hp. unfold computeContentHash. rewrite !stableProps_lines.
  do 2 f_equal. apply sortStrings_permutation. by apply Permutation_map.
Qed.
End ContentHashInvariance.

(** The two events [lunch] and [lunchReordered] have one content hash. *)
Lemma computeContentHash_permutation_witness :
  computeContentHash lunch = computeContentHash lunchReordered.
Proof.
  apply (computeContentHash_permutation lunch lunchReordered).
  vm_compute. apply perm_swap.
Defined.

(** ** The parser: properties, events and blocks *)

Section ParserShape.
Implicit Types (line : string) (body header : list string) (st : ParserState).

Lemma indexOf_lacks c s : JS.indexOf c s = None <-> lacks c s = true.
Proof.
  induction s as [|a s IH]; [done|]. cbn [JS.indexOf lacks].
  destruct (JS.ascii_eqb a c); cbn [negb andb]; [done|].
  destruct (JS.indexOf c s); [|tauto]. split; [done|]. intros Hl.
  apply IH in Hl. discriminate Hl.
Qed.

Lemma indexOf_split c s i :
  JS.indexOf c s = Some i ->
  s = JS.take i s +:+ String c (JS.drop (S i) s) /\ lacks c (JS.take i s) = true.
Proof.
  revert i. induction s as [|a s IH]; intros i; [done|]. cbn [JS.indexOf].
  destruct (JS.ascii_eqb a c) eqn:Ha.
  - intros [= <-]. apply ascii_eqb_eq in Ha. subst a. by cbn.
  - destruct (JS.indexOf c s) as [j|]; [|done]. intros [= <-].
    destruct (IH j eq_refl) as [Hs Hl].
    change (JS.drop (S (S j)) (String a s)) with (JS.drop (S j) s).
    change (JS.take (S j) (String a s)) with (String a (JS.take j s)).
    rewrite append_cons, <- Hs. cbn [lacks]. by rewrite Ha, Hl.
Qed.

Lemma take_upTo c s i : JS.indexOf c s = Some i -> JS.take i s = upTo c s.
Proof.
  revert i. induction s as [|a s IH]; intros i; [done|]. cbn [JS.indexOf upTo].
  destruct (JS.ascii_eqb a c); [by intros [= <-]|].
  destruct (JS.indexOf c s) as [j|]; [|done]. intros [= <-].
  cbn [JS.take]. by rewrite (IH j).
Qed.

(** X7.  [parseProperty] gives nothing exactly for the lines without a
    colon.  For any other line, the value is the text after the first colon
    and the name is the text before the first colon, up to its first
    semicolon, in upper case. *)
Theorem parseProperty_spec line :
  match parseProperty line with
  | None => lacks ":" line = true
  | Some p =>
      exists before,
        line = before +:+ ":" +:+ value p
        /\ lacks ":" before = true
        /\ name p = JS.toUpperCase (upTo ";" before)
  end.
Proof.
  unfold parseProperty. destruct (JS.indexOf ":" line) as [i|] eqn:Hi.
  - destruct (indexOf_split ":" line i Hi) as [Hline Hl]. cbv zeta.
    destruct (JS.indexOf ";" (JS.take i line)) as [j|] eqn:Hj;
      exists (JS.take i line); cbn [name value].
    + split; [done|]. split; [done|]. by rewrite (take_upTo _ _ _ Hj).
    + split; [done|]. split; [done|]. apply indexOf_lacks in Hj.
      by rewrite upTo_lacks.
  - by apply indexOf_lacks.
Qed.

Lemma parsedProps_app body body' :
  parsedProps (body ++ body') = parsedProps body ++ parsedProps body'.
Proof. unfold parsedProps. by rewrite flat_map_app. Qed.

Lemma parsedProps_one line :
  parsedProps [line] = match parseProperty line with Some p => [p] | None => [] end.
Proof. unfold parsedProps. cbn [flat_map]. by rewrite app_nil_r. Qed.

Lemma lastUid_snoc props p :
  lastUid (props ++ [p])
  = if String.eqb (name p) "UID" then value p else lastUid props.
Proof. unfold lastUid. by rewrite fold_left_app. Qed.

Lemma parserInvariant_start : parserInvariant parserStart.
Proof. repeat split; try constructor; discriminate. Qed.

Lemma oneOf_cons n m names : oneOf (m :: names) n = String.eqb n m || oneOf names n.
Proof. reflexivity. Qed.

Lemma parseLine_invariant st line : parserInvariant st -> parserInvariant (parseLine st line).
Proof.
  intros (Hev & Hbl & Hft & Hin & Htz). unfold parseLine.
  destruct (String.eqb line "BEGIN:VTIMEZONE") eqn:Hbz.
  { split; [done|]. split; [done|]. split; [done|]. split; [done|].
    intros _. exists []. apply String.eqb_eq in Hbz. by subst line. }
  destruct (inTimezone st) eqn:Hz.
  { destruct (Htz eq_refl) as (body & Hlines & Hbody). cbv zeta.
    destruct (String.eqb line "END:VTIMEZONE") eqn:Hez; cbn [negb].
    - split; [done|]. split.
      { cbn [out pushTimezone timezoneBlocks]. apply Forall_app. split; [done|].
        constructor; [|done]. exists body. split; [done|].
        apply String.eqb_eq in Hez. subst line. by rewrite Hlines. }
      split; [done|]. split; [done|]. discriminate.
    - split; [done|]. split; [done|]. split; [done|]. split; [done|].
      intros _. exists (body ++ [line]). split; [by rewrite Hlines|].
      rewrite forallb_app, Hbody. cbn. unfold timezoneBodyLine.
      by rewrite !oneOf_cons, Hbz, Hez. }
  destruct (String.eqb line "BEGIN:VEVENT") eqn:Hbe.
  { split; [done|]. split; [done|]. split; [done|]. split; [|done].
    intros _. exists []. apply String.eqb_eq in Hbe. by subst line. }
  destruct (inEvent st) eqn:He.
  { destruct (Hin eq_refl) as (body & Hlines & Hbody & Hprops & Huid). cbv zeta.
    assert ((match parseProperty line with
             | Some prop => currentEventProps st ++ [prop]
             | None => currentEventProps st
             end) = parsedProps (body ++ [line])) as Hprops'.
    { rewrite parsedProps_app, parsedProps_one, Hprops.
      destruct (parseProperty line); by rewrite ?app_nil_r. }
    assert ((match parseProperty line with
             | Some prop => if String.eqb (name prop) "UID" then value prop
                            else currentUid st
             | None => currentUid st
             end) = lastUid (parsedProps (body ++ [line]))) as Huid'.
    { rewrite parsedProps_app, parsedProps_one, Huid.
      destruct (parseProperty line); rewrite ?app_nil_r; [|done].
      by rewrite lastUid_snoc. }
    rewrite Hprops', Huid', Hlines.
    destruct (String.eqb line "END:VEVENT") eqn:Hee; cbn [negb].
    - split.
      { cbn [out pushEvent events]. apply Forall_app. split; [done|].
        constructor; [|done]. exists body. split; [done|].
        apply String.eqb_eq in Hee. by subst line. }
      split; [done|]. split; [done|]. split; [discriminate|done].
    - split; [done|]. split; [done|]. split; [done|]. split; [|done].
      intros _. exists (body ++ [line]). split; [done|].
      rewrite forallb_app, Hbody. cbn. unfold eventBodyLine.
      by rewrite !oneOf_cons, Hbz, Hbe, Hee. }
  destruct (negb (headerDone st)).
  { split; [done|]. split; [done|]. split; [done|]. split; done. }
  destruct (String.eqb line "END:VCALENDAR") eqn:Hec.
  { split; [done|]. split; [done|]. split.
    { cbn [out pushFooter footerLines]. apply Forall_app. split; [done|].
      constructor; [|done]. apply String.eqb_eq in Hec. by subst line. }
    split; done. }
  split; [done|]. split; [done|]. split; [done|].
  split; [by rewrite He|by rewrite Hz].
Qed.

Lemma parseFrom_invariant lines : forall st,
  parserInvariant st -> parserInvariant (parseFrom st lines).
Proof.
  induction lines as [|line lines IH]; intros st Hst; [done|].
  rewrite parseFrom_cons. by apply IH, parseLine_invariant.
Qed.

(** X8.  Whatever the text, every event that [parseIcs] returns has raw
    lines that begin with BEGIN:VEVENT, end with END:VEVENT and have none of
    the two nor BEGIN:VTIMEZONE in between; its properties are those of the
    raw lines after the first, END:VEVENT included, and its [uid] is the
    value of its last UID.  Every time zone block is the lines from
    BEGIN:VTIMEZONE to the first END:VTIMEZONE, joined by CRLF, and every
    footer line is END:VCALENDAR. *)
Theorem parseIcs_wellformed ics :
  Forall wellFormedEvent (events (parseIcs ics))
  /\ Forall wellFormedBlock (timezoneBlocks (parseIcs ics))
  /\ Forall (eq "END:VCALENDAR") (footerLines (parseIcs ics)).
Proof.
  destruct (parseFrom_invariant (unfoldLines ics) parserStart parserInvariant_start)
    as (Hev & Hbl & Hft & _).
  done.
Qed.
End ParserShape.
Section ParserOnFeeds.
Implicit Types (line : string) (body header : list string) (c : ParsedCalendar).
Implicit Types (zones bodies : list (list string)).

Lemma headerLine_tests line :
  headerLine line = true ->
  String.eqb line "BEGIN:VTIMEZONE" = false /\ String.eqb line "BEGIN:VEVENT" = false.
Proof.
  unfold headerLine. rewrite !oneOf_cons. intros Hl. apply negb_true_iff in Hl.
  apply orb_false_elim in Hl as [H1 Hl]. by apply orb_false_elim in Hl as [H2 _].
Qed.

Lemma eventBodyLine_tests line :
  eventBodyLine line = true ->
  String.eqb line "BEGIN:VTIMEZONE" = false /\ String.eqb line "BEGIN:VEVENT" = false
  /\ String.eqb line "END:VEVENT" = false.
Proof.
  unfold eventBodyLine. rewrite !oneOf_cons. intros Hl. apply negb_true_iff in Hl.
  apply orb_false_elim in Hl as [H1 Hl]. apply orb_false_elim in Hl as [H2 Hl].
  by apply orb_false_elim in Hl as [H3 _].
Qed.

Lemma timezoneBodyLine_tests line :
  timezoneBodyLine line = true ->
  String.eqb line "BEGIN:VTIMEZONE" = false /\ String.eqb line "END:VTIMEZONE" = false.
Proof.
  unfold timezoneBodyLine. rewrite !oneOf_cons. intros Hl. apply negb_true_iff in Hl.
  apply orb_false_elim in Hl as [H1 Hl]. by apply orb_false_elim in Hl as [H2 _].
Qed.

(** The lines before the first block go to the header. *)
Lemma parse_header header : forall c tzLines evLines props u,
  forallb headerLine header = true ->
  parseFrom (idle c tzLines evLines props u false) header
  = idle {| headerLines := headerLines c ++ header; timezoneBlocks := timezoneBlocks c;
            events := events c; footerLines := footerLines c |}
         tzLines evLines props u false.
Proof.
  induction header as [|line header IH]; intros c tzLines evLines props u Hh.
  - rewrite app_nil_r. by destruct c.
  - cbn [forallb] in Hh. apply andb_true_iff in Hh as [Hl Hh].
    destruct (headerLine_tests line Hl) as [Hbz Hbe]. rewrite parseFrom_cons.
    assert (parseLine (idle c tzLines evLines props u false) line
            = idle (pushHeader line c) tzLines evLines props u false) as ->.
    { unfold parseLine, idle. cbn [inTimezone inEvent headerDone negb].
      by rewrite Hbz, Hbe. }
    rewrite IH by done. unfold pushHeader. cbn [headerLines timezoneBlocks events footerLines].
    by rewrite <- app_assoc.
Qed.

(** Inside a time zone block, up to its closing line. *)
Lemma parse_in_timezone body : forall c acc evLines props u done,
  forallb timezoneBodyLine body = true ->
  parseFrom {| out := c; inTimezone := true; inEvent := false;
               currentTimezoneLines := acc; currentEventLines := evLines;
               currentEventProps := props; currentUid := u; headerDone := done |}
            (body ++ ["END:VTIMEZONE"])
  = idle (pushTimezone (JS.join CRLF (acc ++ body ++ ["END:VTIMEZONE"])) c)
         (acc ++ body ++ ["END:VTIMEZONE"]) evLines props u done.
Proof.
  induction body as [|line body IH]; intros c acc evLines props u done Hb.
  - reflexivity.
  - cbn [forallb] in Hb. apply andb_true_iff in Hb as [Hl Hb].
    destruct (timezoneBodyLine_tests line Hl) as [Hbz Hez].
    cbn [app]. rewrite parseFrom_cons. unfold parseLine at 1.
    cbn [inTimezone]. rewrite Hbz, Hez. cbv zeta. cbn [negb].
    cbn [out inEvent currentEventLines currentEventProps currentUid headerDone
         currentTimezoneLines].
    rewrite IH by done. by rewrite <- !app_assoc.
Qed.

Lemma parse_timezoneBlock body c tzLines evLines props u done :
  forallb timezoneBodyLine body = true ->
  parseFrom (idle c tzLines evLines props u done) (timezoneBlock body)
  = idle (pushTimezone (JS.join CRLF (timezoneBlock body)) c)
         (timezoneBlock body) evLines props u done.
Proof.
  intros Hb. unfold timezoneBlock. rewrite parseFrom_cons.
  change (parseLine (idle c tzLines evLines props u done) "BEGIN:VTIMEZONE")
    with {| out := c; inTimezone := true; inEvent := false;
            currentTimezoneLines := ["BEGIN:VTIMEZONE"]; currentEventLines := evLines;
            currentEventProps := props; currentUid := u; headerDone := done |}.
  by rewrite parse_in_timezone.
Qed.

(** Inside an event, up to its closing line. *)
Lemma parse_in_event body : forall c tzLines seen done,
  forallb eventBodyLine body = true ->
  parseFrom {| out := c; inTimezone := false; inEvent := true;
               currentTimezoneLines := tzLines;
               currentEventLines := "BEGIN:VEVENT" :: seen;
               currentEventProps := parsedProps seen;
               currentUid := lastUid (parsedProps seen); headerDone := done |}
            (body ++ ["END:VEVENT"])
  = idle (pushEvent (eventOfBody (seen ++ body)) c) tzLines
         (eventBlock (seen ++ body)) (parsedProps ((seen ++ body) ++ ["END:VEVENT"]))
         (lastUid (parsedProps ((seen ++ body) ++ ["END:VEVENT"]))) done.
Proof.
  induction body as [|line body IH]; intros c tzLines seen done Hb.
  - rewrite app_nil_r. cbn [app]. rewrite parseFrom_cons. cbn [parseFrom fold_left].
    unfold parseLine, idle, eventOfBody, eventBlock. cbn [inTimezone inEvent].
    change (String.eqb "END:VEVENT" "BEGIN:VTIMEZONE") with false.
    change (String.eqb "END:VEVENT" "BEGIN:VEVENT") with false.
    change (String.eqb "END:VEVENT" "END:VEVENT") with true. cbv zeta. cbn [negb].
    cbn [out currentEventLines currentEventProps currentUid headerDone
         currentTimezoneLines].
    rewrite !parsedProps_app, parsedProps_one.
    change (parseProperty "END:VEVENT")
      with (Some {| name := "END"; params := []; value := "VEVENT" |}).
    cbv beta iota. rewrite lastUid_snoc. cbn [name].
    change (String.eqb "END" "UID") with false. reflexivity.
  - cbn [forallb] in Hb. apply andb_true_iff in Hb as [Hl Hb].
    destruct (eventBodyLine_tests line Hl) as (Hbz & Hbe & Hee).
    cbn [app]. rewrite parseFrom_cons. unfold parseLine at 1.
    cbn [inTimezone inEvent]. rewrite Hbz, Hbe, Hee. cbv zeta. cbn [negb].
    cbn [out currentEventLines currentEventProps currentUid headerDone
         currentTimezoneLines].
    assert ((match parseProperty line with
             | Some prop => parsedProps seen ++ [prop]
             | None => parsedProps seen
             end) = parsedProps (seen ++ [line])) as ->.
    { rewrite parsedProps_app, parsedProps_one.
      destruct (parseProperty line); by rewrite ?app_nil_r. }
    assert ((match parseProperty line with
             | Some prop => if String.eqb (name prop) "UID" then value prop
                            else lastUid (parsedProps seen)
             | None => lastUid (parsedProps seen)
             end) = lastUid (parsedProps (seen ++ [line]))) as ->.
    { rewrite parsedProps_app, parsedProps_one.
      destruct (parseProperty line); rewrite ?app_nil_r; [|done].
      by rewrite lastUid_snoc. }
    change (("BEGIN:VEVENT" :: seen) ++ [line]) with ("BEGIN:VEVENT" :: (seen ++ [line])).
    rewrite (IH c tzLines (seen ++ [line]) done Hb). by rewrite <- !app_assoc.
Qed.

Lemma parse_eventBlock body c tzLines evLines props u done :
  forallb eventBodyLine body = true ->
  parseFrom (idle c tzLines evLines props u done) (eventBlock body)
  = idle (pushEvent (eventOfBody body) c) tzLines (eventBlock body)
         (parsedProps (body ++ ["END:VEVENT"]))
         (lastUid (parsedProps (body ++ ["END:VEVENT"]))) true.
Proof.
  intros Hb. unfold eventBlock at 1. rewrite parseFrom_cons.
  change (parseLine (idle c tzLines evLines props u done) "BEGIN:VEVENT")
    with {| out := c; inTimezone := false; inEvent := true;
            currentTimezoneLines := tzLines;
            currentEventLines := "BEGIN:VEVENT" :: [];
            currentEventProps := parsedProps [];
            currentUid := lastUid (parsedProps []); headerDone := true |}.
  by rewrite parse_in_event.
Qed.

Lemma parse_zones zones : forall c tzLines evLines props u done,
  forallb (forallb timezoneBodyLine) zones = true ->
  exists tzLines',
    parseFrom (idle c tzLines evLines props u done) (flat_map timezoneBlock zones)
    = idle {| headerLines := headerLines c;
              timezoneBlocks :=
                timezoneBlocks c ++ map (fun z => JS.join CRLF (timezoneBlock z)) zones;
              events := events c; footerLines := footerLines c |}
           tzLines' evLines props u done.
Proof.
  induction zones as [|z zones IH]; intros c tzLines evLines props u done Hz.
  - exists tzLines. cbn [flat_map map]. rewrite app_nil_r. by destruct c.
  - cbn [forallb] in Hz. apply andb_true_iff in Hz as [Hb Hz].
    cbn [flat_map map]. rewrite parseFrom_app, parse_timezoneBlock by done.
    destruct (IH (pushTimezone (JS.join CRLF (timezoneBlock z)) c) (timezoneBlock z)
                 evLines props u done Hz) as [tzLines' ->].
    exists tzLines'. unfold pushTimezone.
    cbn [headerLines timezoneBlocks events footerLines]. by rewrite <- app_assoc.
Qed.

Lemma parse_events bodies : forall c tzLines evLines props u done,
  forallb (forallb eventBodyLine) bodies = true ->
  exists evLines' props' u',
    parseFrom (idle c tzLines evLines props u done) (flat_map eventBlock bodies)
    = idle {| headerLines := headerLines c; timezoneBlocks := timezoneBlocks c;
              events := events c ++ map eventOfBody bodies;
              footerLines := footerLines c |}
           tzLines evLines' props' u'
           (match bodies with [] => done | _ => true end).
Proof.
  induction bodies as [|b bodies IH]; intros c tzLines evLines props u done Hb.
  - exists evLines, props, u. cbn [flat_map map]. rewrite app_nil_r. by destruct c.
  - cbn [forallb] in Hb. apply andb_true_iff in Hb as [Hb Hbs].
    cbn [flat_map map]. rewrite parseFrom_app, parse_eventBlock by done.
    destruct (IH (pushEvent (eventOfBody b) c) tzLines (eventBlock b)
                 (parsedProps (b ++ ["END:VEVENT"]))
                 (lastUid (parsedProps (b ++ ["END:VEVENT"]))) true Hbs)
      as (evLines' & props' & u' & ->).
    exists evLines', props', u'. unfold pushEvent.
    cbn [headerLines timezoneBlocks events footerLines]. rewrite <- app_assoc.
    by destruct bodies.
Qed.

(** X9.  On a feed that consists of header lines, time zone blocks, events
    and the closing line END:VCALENDAR, the parser returns the header lines,
    one block for each time zone block, one event for each event, in their
    order, and the closing line as the footer.  Without an event nothing
    ends the header: the closing line is then the last header line and the
    footer is empty. *)
Theorem parseLines_feed header zones bodies :
  forallb headerLine header = true ->
  forallb (forallb timezoneBodyLine) zones = true ->
  forallb (forallb eventBodyLine) bodies = true ->
  parseLines (feedLines header zones bodies)
  = match bodies with
    | [] =>
        {| headerLines := header ++ ["END:VCALENDAR"];
           timezoneBlocks := map (fun z => JS.join CRLF (timezoneBlock z)) zones;
           events := []; footerLines := [] |}
    | _ =>
        {| headerLines := header;
           timezoneBlocks := map (fun z => JS.join CRLF (timezoneBlock z)) zones;
           events := map eventOfBody bodies; footerLines := ["END:VCALENDAR"] |}
    end.
Proof.
  intros Hh Hz Hb. unfold parseLines, feedLines.
  change parserStart
    with (idle {| headerLines := []; timezoneBlocks := []; events := [];
                  footerLines := [] |} [] [] [] EmptyString false).
  rewrite parseFrom_app, parse_header by done.
  cbn [headerLines timezoneBlocks events footerLines app].
  rewrite parseFrom_app.
  destruct (parse_zones zones
              {| headerLines := header; timezoneBlocks := []; events := [];
                 footerLines := [] |} [] [] [] EmptyString false Hz) as [tzLines' ->].
  cbn [headerLines timezoneBlocks events footerLines app].
  rewrite parseFrom_app.
  destruct (parse_events bodies
              {| headerLines := header;
                 timezoneBlocks := map (fun z => JS.join CRLF (timezoneBlock z)) zones;
                 events := []; footerLines := [] |} tzLines' [] [] EmptyString false Hb)
    as (evLines' & props' & u' & ->).
  cbn [headerLines timezoneBlocks events footerLines app].
  by destruct bodies.
Qed.
End ParserOnFeeds.

(** A feed with one time zone block and one event whose third line has no
    colon. *)
Lemma parseLines_feed_witness :
  parseLines (feedLines sampleHeader [sampleZone] [sampleBody])
  = {| headerLines := sampleHeader;
       timezoneBlocks := [JS.join CRLF (timezoneBlock sampleZone)];
       events := [eventOfBody sampleBody]; footerLines := ["END:VCALENDAR"] |}.
Proof.
  apply (parseLines_feed sampleHeader [sampleZone] [sampleBody]); reflexivity.
Defined.

(** ** The length of the folded lines *)

Section FoldedLengths.
Implicit Types (line rest prefix : string).

Lemma splitLines_continuation_lengths fuel : forall rest prefix,
  lacks "010" prefix = true -> lacks "010" rest = true ->
  (String.length prefix <= 75)%nat ->
  Forall (fun l => (String.length l <= 75)%nat)
         (JS.splitLines (prefix +:+ continuation fuel rest)).
Proof.
  induction fuel as [|fuel IH]; intros rest prefix Hp Hr Hlen.
  - cbn [continuation]. rewrite append_nil_r, splitLines_one by done. constructor; [done|constructor].
  - destruct rest as [|a rest].
    { cbn [continuation JS.truthy]. rewrite append_nil_r, splitLines_one by done.
      constructor; [done|constructor]. }
    cbn [continuation JS.truthy].
    set (chunk := JS.take 74 (String a rest)).
    set (more := JS.drop 74 (String a rest)).
    replace (prefix +:+ CRLF +:+ SP +:+ chunk +:+ continuation fuel more)
      with (prefix +:+ CRLF +:+ ((SP +:+ chunk) +:+ continuation fuel more))
      by (by rewrite !append_assoc).
    rewrite splitLines_crlf by done. constructor; [done|].
    apply IH.
    + unfold SP. rewrite append_cons, append_nil_l. apply lacks_cons.
      split; [done|]. by apply lacks_take.
    + by apply lacks_drop.
    + unfold SP. rewrite append_cons, append_nil_l. cbn [String.length]. subst chunk.
      rewrite length_take. lia.
Qed.

(** X10.  Every line of the text that [foldLine] returns for a line without
    a line feed has at most 75 characters. *)
Theorem foldLine_lengths line :
  lacks "010" line = true ->
  Forall (fun l => (String.length l <= 75)%nat) (JS.splitLines (foldLine line)).
Proof.
  intros Hl. destruct (Nat.le_gt_cases (String.length line) 75) as [Hshort|Hlong].
  - rewrite foldLine_short, splitLines_one by done. constructor; [done|constructor].
  - rewrite foldLine_long by done. unfold foldedTail.
    apply splitLines_continuation_lengths; [by apply lacks_take|by apply lacks_drop|].
    rewrite length_take. lia.
Qed.
End FoldedLengths.

(** The header line of 80 characters is folded into lines of 75 and 6
    characters. *)
Lemma foldLine_lengths_witness :
  Forall (fun l => (String.length l <= 75)%nat) (JS.splitLines (foldLine longHeaderLine)).
Proof. apply (foldLine_lengths longHeaderLine). reflexivity. Defined.

(** ** The lines of an emitted event *)

Section EventLines.
Context `{Constants} `{Locale}.
Implicit Types (p : IcsProperty) (props : list IcsProperty) (n : string).
Implicit Types (names order : list string).

Lemma truthy_append_r s t : JS.truthy t = true -> JS.truthy (s +:+ t) = true.
Proof. destruct s; [done|]. by rewrite append_cons. Qed.

Lemma normalizeDateTimeProp_truthy p tz : JS.truthy (normalizeDateTimeProp p tz) = true.
Proof.
  unfold normalizeDateTimeProp. cbv zeta.
  destruct (isDateOnly _); [|destruct (isUtc _)]; by apply truthy_append_r.
Qed.

(** No property is dropped: the line of a property is never empty. *)
Lemma normalizeProperty_truthy p tz : JS.truthy (normalizeProperty p tz) = true.
Proof.
  unfold normalizeProperty.
  destruct (oneOf _ (name p)); [apply normalizeDateTimeProp_truthy|].
  destruct (String.eqb _ _).
  { unfold normalizeRecurrenceId. cbv zeta.
    destruct (isDateOnly _); [|destruct (isUtc _)]; done. }
  destruct (String.eqb _ _).
  { unfold normalizeRrule. cbv zeta.
    destruct (search reBysetpos _) as [[[? ?] ?]|]; [|done].
    destruct (search reByday _) as [[[? ?] ?]|]; [|done].
    by destruct (search reBydayList _). }
  destruct (oneOf _ (name p)).
  { rewrite normalizeExdateRdate_unfold. cbv zeta.
    destruct (startsDateOnly _); [|destruct (JS.truthy (JS.optOrElse _ _))];
      by apply truthy_append_r. }
  destruct (oneOf _ (name p)); [apply normalizeDateTimeProp_truthy|].
  unfold reconstructProperty. cbv zeta. by apply truthy_append_r.
Qed.

Lemma pushLines_map tz props : forall lines,
  fold_left (fun lines p => pushLine lines (normalizeProperty p tz)) props lines
  = lines ++ map (fun p => normalizeProperty p tz) props.
Proof.
  induction props as [|p props IH]; intros lines; [by rewrite app_nil_r|].
  cbn [fold_left map]. rewrite IH. unfold pushLine.
  rewrite normalizeProperty_truthy. by rewrite <- app_assoc.
Qed.

Lemma reconstruct_map props : forall (lines : list string),
  fold_left (fun ls p => ls ++ [reconstructProperty p]) props lines
  = lines ++ map reconstructProperty props.
Proof.
  induction props as [|p props IH]; intros lines; [by rewrite app_nil_r|].
  cbn [fold_left map]. rewrite IH. by rewrite <- app_assoc.
Qed.

Lemma oneOf_In names n : oneOf names n = true <-> In n names.
Proof.
  unfold oneOf. rewrite existsb_exists. split.
  - intros (x & Hx & Heq). apply String.eqb_eq in Heq. by subst x.
  - intros Hin. exists n. split; [done|apply String.eqb_refl].
Qed.

Lemma oneOf_app names names' n : oneOf (names ++ names') n = oneOf names n || oneOf names' n.
Proof. unfold oneOf. apply existsb_app. Qed.

Lemma distinctNames_snoc props p :
  distinctNames (props ++ [p])
  = if oneOf (distinctNames props) (name p) then distinctNames props
    else distinctNames props ++ [name p].
Proof. unfold distinctNames. by rewrite fold_left_app. Qed.

Lemma distinctNames_NoDup props : List.NoDup (distinctNames props).
Proof.
  induction props as [|p props IH] using rev_ind; [constructor|].
  rewrite distinctNames_snoc. destruct (oneOf _ (name p)) eqn:Hp; [done|].
  apply (Permutation_NoDup (Permutation_cons_append _ _)).
  constructor; [|done]. intros Hn. apply oneOf_In in Hn. congruence.
Qed.

Lemma distinctNames_complete props p :
  In p props -> In (name p) (distinctNames props).
Proof.
  induction props as [|q props IH] using rev_ind; [done|].
  rewrite distinctNames_snoc. intros [Hin|[<-|[]]]%in_app_or.
  - destruct (oneOf _ (name q)); [by apply IH|]. apply in_or_app. left. by apply IH.
  - destruct (oneOf _ (name q)) eqn:Hq; [by apply oneOf_In|].
    apply in_or_app. right. by left.
Qed.

Lemma filter_named_absent props n :
  ~ In n (distinctNames props) -> List.filter (named n) props = [].
Proof.
  intros Hn. induction props as [|p props IH] using rev_ind; [done|].
  rewrite List.filter_app. cbn [List.filter]. rewrite distinctNames_snoc in Hn.
  destruct (named n p) eqn:Hp.
  - exfalso. apply Hn. apply String.eqb_eq in Hp. subst n.
    destruct (oneOf _ (name p)) eqn:Hq; [by apply oneOf_In|].
    apply in_or_app. right. by left.
  - rewrite IH; [done|]. intros Hin. apply Hn.
    destruct (oneOf _ (name p)); [done|]. apply in_or_app. by left.
Qed.

(** The groups of [propsByName]. *)
Lemma groupAdd_map (F : string -> list IcsProperty) p names :
  List.NoDup names ->
  groupAdd p (map (fun n => (n, F n)) names)
  = map (fun n => (n, if String.eqb n (name p) then F n ++ [p] else F n)) names
    ++ (if oneOf names (name p) then [] else [(name p, [p])]).
Proof.
  induction names as [|m names IH]; intros Hnd; [done|].
  apply List.NoDup_cons_iff in Hnd as [Hm Hnd].
  cbn [map groupAdd]. rewrite oneOf_cons.
  destruct (String.eqb m (name p)) eqn:Hmp.
  - rewrite String.eqb_sym, Hmp. cbn [orb]. rewrite app_nil_r. f_equal.
    apply String.eqb_eq in Hmp. subst m. apply map_ext_in. intros n Hn.
    destruct (String.eqb n (name p)) eqn:Hnp; [|done].
    apply String.eqb_eq in Hnp. by subst n.
  - rewrite String.eqb_sym, Hmp. cbn [orb]. rewrite IH by done. done.
Qed.

Lemma propsByName_spec props :
  fold_left (fun m p => groupAdd p m) props []
  = map (fun n => (n, List.filter (named n) props)) (distinctNames props).
Proof.
  induction props as [|p props IH] using rev_ind; [done|].
  rewrite fold_left_app. cbn [fold_left]. rewrite IH.
  rewrite groupAdd_map by apply distinctNames_NoDup. rewrite distinctNames_snoc.
  destruct (oneOf (distinctNames props) (name p)) eqn:Hp.
  - rewrite app_nil_r. apply map_ext. intros n. rewrite List.filter_app.
    cbn [List.filter]. change (named n p) with (String.eqb (name p) n).
    rewrite (String.eqb_sym (name p) n).
    destruct (String.eqb n (name p)); by rewrite ?app_nil_r.
  - rewrite map_app. cbn [map]. f_equal.
    + apply map_ext. intros n. rewrite List.filter_app.
      cbn [List.filter]. change (named n p) with (String.eqb (name p) n).
    rewrite (String.eqb_sym (name p) n).
      destruct (String.eqb n (name p)); by rewrite ?app_nil_r.
    + rewrite List.filter_app. cbn [List.filter].
      change (named (name p) p) with (String.eqb (name p) (name p)).
      rewrite String.eqb_refl, filter_named_absent; [done|].
      intros Hin. apply oneOf_In in Hin. congruence.
Qed.

Lemma groupGet_map (F : string -> list IcsProperty) names n :
  groupGet n (map (fun n => (n, F n)) names)
  = if oneOf names n then Some (F n) else None.
Proof.
  induction names as [|m names IH]; [done|]. cbn [map groupGet]. rewrite oneOf_cons.
  rewrite String.eqb_sym. destruct (String.eqb n m) eqn:Hnm; cbn [orb]; [|done].
  apply String.eqb_eq in Hnm. by subst m.
Qed.

(** The loop over [PROPERTY_ORDER]. *)
Lemma emitOrdered_fold tz props order : forall lines emitted,
  fold_left (emitOrdered tz (map (fun n => (n, List.filter (named n) props))
                                 (distinctNames props)))
            order (lines, emitted)
  = (lines ++ flat_map (fun n => map (fun p => normalizeProperty p tz)
                                     (List.filter (named n) props)) order,
     emitted ++ List.filter (oneOf (distinctNames props)) order).
Proof.
  induction order as [|n order IH]; intros lines emitted; [by rewrite !app_nil_r|].
  cbn [fold_left flat_map List.filter]. unfold emitOrdered at 2.
  rewrite groupGet_map. destruct (oneOf (distinctNames props) n) eqn:Hn.
  - cbn [fst snd]. rewrite pushLines_map, IH. rewrite <- !app_assoc. done.
  - rewrite IH, filter_named_absent; [done|].
    intros Hin. apply oneOf_In in Hin. congruence.
Qed.

(** The loop over the names that are left. *)
Lemma emitRemaining_fold emitted (F : string -> list IcsProperty) names :
  forall (lines : list string),
  fold_left (emitRemaining emitted) (map (fun n => (n, F n)) names) lines
  = lines
    ++ flat_map (fun n => map reconstructProperty (F n))
         (List.filter (fun n => negb (oneOf emitted n) && negb (oneOf ["BEGIN"; "END"] n))
                      names).
Proof.
  induction names as [|n names IH]; intros lines; [by rewrite app_nil_r|].
  cbn [map fold_left List.filter]. rewrite IH. unfold emitRemaining. cbn [fst snd].
  destruct (oneOf emitted n); cbn [negb andb]; [done|].
  destruct (oneOf _ n); cbn [negb]; [done|].
  rewrite reconstruct_map. cbn [flat_map]. by rewrite <- app_assoc.
Qed.

(** X11.  The lines of an emitted event: BEGIN:VEVENT, the UID line and the
    SEQUENCE line; then, for each name of PROPERTY_ORDER in that order, the
    normalized lines of the properties of that name, in their order in the
    event; then, for each other name in the order of its first occurrence,
    the reconstructed lines of the properties of that name; then END:VEVENT.
    The properties named UID, SEQUENCE, BEGIN and END of the event give no
    line unless PROPERTY_ORDER lists their name, and no other property is
    dropped. *)
Theorem normalizeEventLines_spec event stableUid sequence defaultTz :
  let tz := JS.optOrElse defaultTz DEFAULT_TIMEZONE in
  let props := properties event in
  normalizeEventLines event stableUid sequence defaultTz
  = ["BEGIN:VEVENT"; "UID:" +:+ stableUid +:+ "@calproxy";
     "SEQUENCE:" +:+ JS.toString sequence]
    ++ flat_map (fun n => map (fun p => normalizeProperty p tz)
                              (List.filter (named n) props)) PROPERTY_ORDER
    ++ flat_map (fun n => map reconstructProperty (List.filter (named n) props))
                (List.filter (unordered PROPERTY_ORDER) (distinctNames props))
    ++ ["END:VEVENT"].
Proof.
  cbv zeta. unfold normalizeEventLines. cbv zeta.
  rewrite propsByName_spec, emitOrdered_fold, emitRemaining_fold.
  rewrite <- !app_assoc. do 2 f_equal. f_equal. f_equal.
  apply filter_ext_in. intros n Hn. unfold unordered.
  change (["UID"; "SEQUENCE"; "BEGIN"; "END"] ++ PROPERTY_ORDER)
    with (["UID"; "SEQUENCE"] ++ (["BEGIN"; "END"] ++ PROPERTY_ORDER)).
  rewrite !oneOf_app.
  assert (oneOf (List.filter (oneOf (distinctNames (properties event))) PROPERTY_ORDER) n
          = oneOf PROPERTY_ORDER n) as ->.
  { apply eq_true_iff_eq. rewrite !oneOf_In, filter_In, oneOf_In. tauto. }
  destruct (oneOf ["UID"; "SEQUENCE"] n), (oneOf PROPERTY_ORDER n),
    (oneOf ["BEGIN"; "END"] n); done.
Qed.
End EventLines.

(** ** The default zone and the order of the events *)

Section DefaultZone.
Context `{Constants} `{Locale}.
Implicit Types (p : IcsProperty) (tz : string).

Lemma optOrElse_own (a : option string) tz :
  JS.truthy (JS.optOrElse a EmptyString) = true -> JS.optOrElse a tz = JS.optOrElse a EmptyString.
Proof.
  destruct a as [s|]; [|done]. cbn [JS.optOrElse]. unfold JS.orElse.
  by destruct (JS.truthy s).
Qed.

Lemma normalizeProperty_zoneFree p tz tz' :
  zoneFree p = true -> normalizeProperty p tz = normalizeProperty p tz'.
Proof.
  unfold zoneFree, normalizeProperty, normalizeDateTimeProp, normalizeRecurrenceId.
  rewrite !oneOf_cons. cbv zeta.
  destruct (String.eqb (name p) "DTSTART") eqn:H1; cbn [orb negb];
    [|destruct (String.eqb (name p) "DTEND") eqn:H2; cbn [orb negb];
      [|destruct (String.eqb (name p) "RECURRENCE-ID") eqn:H3; cbn [orb negb]; [|done]]];
    (destruct (isDateOnly _); [done|]; destruct (isUtc _); [done|];
     rewrite !orb_false_r; intros Hown;
     by rewrite (optOrElse_own _ tz), (optOrElse_own _ tz')).
Qed.

(** X12.  The default zone of a request matters only for the DTSTART, DTEND
    and RECURRENCE-ID properties that have a local time and no zone of their
    own: the lines of an event without such a property are the same for
    every default zone. *)
Theorem normalizeEventLines_default_zone event stableUid sequence defaultTz defaultTz' :
  forallb zoneFree (properties event) = true ->
  normalizeEventLines event stableUid sequence defaultTz
  = normalizeEventLines event stableUid sequence defaultTz'.
Proof.
  intros Hall. unfold normalizeEventLines. cbv zeta.
  rewrite !propsByName_spec, !emitOrdered_fold, !emitRemaining_fold.
  do 3 f_equal. apply flat_map_ext. intros n. apply map_ext_in. intros p Hp.
  apply normalizeProperty_zoneFree. apply filter_In in Hp as [Hp _].
  by apply (proj1 (forallb_forall _ _) Hall).
Qed.
End DefaultZone.

Lemma normalizeEventLines_default_zone_witness :
  @normalizeEventLines specConstants codeUnitLocale zonedEvent "u" 0 (Some "Europe/Paris")
  = @normalizeEventLines specConstants codeUnitLocale zonedEvent "u" 0 None.
Proof.
  apply (@normalizeEventLines_default_zone specConstants codeUnitLocale zonedEvent "u" 0
           (Some "Europe/Paris") None).
  reflexivity.
Defined.

Section SortedEvents.
Context {A : Type} (le : A -> A -> bool).
Hypothesis le_total : forall x y, le x y = false -> le y x = true.

Lemma insertSorted_total_HdRel x y l :
  le y x = true -> HdRel (fun a b => le a b = true) y l ->
  HdRel (fun a b => le a b = true) y (insertSorted le x l).
Proof.
  intros Hyx Hy. destruct l as [|z l]; cbn [insertSorted]; [by constructor|].
  destruct (le x z); constructor; [done|]. by inversion Hy.
Qed.

Lemma sortBy_total_sorted l : Sorted (fun a b => le a b = true) (sortBy le l).
Proof.
  induction l as [|x l IH]; [constructor|]. cbn [sortBy].
  induction IH as [|y l' Hs IH' Hy]; cbn [insertSorted]; [by repeat constructor|].
  destruct (le x y) eqn:Hxy.
  - constructor; [by constructor|]. by constructor.
  - constructor; [done|]. apply insertSorted_total_HdRel; [|done]. by apply le_total.
Qed.
End SortedEvents.

Section SortEvents.
Context `{Constants} `{Locale}.
Implicit Types (evs : list NormalizedEvent).

(** X13.  [sortEvents] only reorders the events: it returns the masters and
    then the exceptions.  When the collation answers the two orders of a
    pair consistently, neighbouring masters are in the order of their
    stable identifiers, and neighbouring exceptions in the order of their
    stable identifiers and then of their recurrence identifiers. *)
Theorem sortEvents_spec evs :
  (forall a b, localeCompare b a = CompOpp (localeCompare a b)) ->
  exists masters exceptions,
    sortEvents evs = masters ++ exceptions
    /\ Permutation (masters ++ exceptions) evs
    /\ Forall (fun e => NormalizedEvent.isException e = false) masters
    /\ Forall (fun e => NormalizedEvent.isException e = true) exceptions
    /\ Sorted (fun a b => masterLe a b = true) masters
    /\ Sorted (fun a b => exceptionLe a b = true) exceptions.
Proof.
  intros Hanti. unfold sortEvents. cbv zeta. eexists _, _. split; [reflexivity|].
  split.
  { rewrite !sortBy_perm. clear. induction evs as [|e evs IH]; [done|].
    cbn [List.filter]. destruct (NormalizedEvent.isException e); cbn [negb app].
    - rewrite <- Permutation_middle. by constructor.
    - by constructor. }
  split.
  { eapply Permutation_Forall; [symmetry; apply sortBy_perm|].
    apply List.Forall_forall. intros e He. apply filter_In in He as [_ He].
    by apply negb_true_iff. }
  split.
  { eapply Permutation_Forall; [symmetry; apply sortBy_perm|].
    apply List.Forall_forall. intros e He. by apply filter_In in He as [_ He]. }
  split.
  - apply sortBy_total_sorted. intros x y. unfold masterLe, localeLe.
    rewrite (Hanti (NormalizedEvent.stableUid x) (NormalizedEvent.stableUid y)).
    by destruct (localeCompare _ _).
  - apply sortBy_total_sorted. intros x y. unfold exceptionLe, localeLe.
    rewrite (Hanti (NormalizedEvent.stableUid x) (NormalizedEvent.stableUid y)).
    rewrite (Hanti (JS.optOrElse (NormalizedEvent.recurrenceId x) EmptyString)
                   (JS.optOrElse (NormalizedEvent.recurrenceId y) EmptyString)).
    destruct (localeCompare (NormalizedEvent.stableUid x) _); cbn [CompOpp]; try done.
    by destruct (localeCompare _ _).
Qed.
End SortEvents.

(** The collation by code units is consistent. *)
Lemma sortEvents_spec_witness :
  exists masters exceptions,
    @sortEvents codeUnitLocale unsortedEvents = masters ++ exceptions
    /\ Permutation (masters ++ exceptions) unsortedEvents
    /\ Forall (fun e => NormalizedEvent.isException e = false) masters
    /\ Forall (fun e => NormalizedEvent.isException e = true) exceptions
    /\ Sorted (fun a b => @masterLe codeUnitLocale a b = true) masters
    /\ Sorted (fun a b => @exceptionLe codeUnitLocale a b = true) exceptions.
Proof.
  apply (@sortEvents_spec codeUnitLocale unsortedEvents).
  intros a b. apply String.compare_antisym.
Defined.

(** ** Reconstructed lines parse back *)

Section ReconstructParse.
Context `{Locale}.
Implicit Types (p : IcsProperty) (ps : JsMap) (s t k v : string) (c : ascii).

Lemma indexOf_append c s t :
  lacks c s = true -> JS.indexOf c (s +:+ String c t) = Some (String.length s).
Proof.
  induction s as [|a s IH]; cbn [lacks].
  - intros _. rewrite append_nil_l. cbn [JS.indexOf]. by rewrite ascii_eqb_refl.
  - intros [Ha Hs]%andb_true_iff. apply negb_true_iff in Ha.
    rewrite append_cons. cbn [JS.indexOf String.length]. by rewrite Ha, IH.
Qed.

Lemma drop_S_append c s t : JS.drop (S (String.length s)) (s +:+ String c t) = t.
Proof.
  induction s as [|a s IH]; [done|]. rewrite append_cons. cbn [String.length].
  exact IH.
Qed.

Lemma reconstruct_paramText ps : forall start,
  fold_left (fun result kv => result +:+ ";" +:+ fst kv +:+ "=" +:+ snd kv) ps start
  = start +:+ paramText ps.
Proof.
  induction ps as [|kv ps IH]; intros start; [by rewrite append_nil_r|].
  cbn [fold_left paramText]. rewrite IH. by rewrite !append_assoc.
Qed.

Lemma plainParam_parts kv :
  plainParam kv = true ->
  JS.toUpperCase (fst kv) = fst kv
  /\ lacks ":" (fst kv) = true /\ lacks ";" (fst kv) = true /\ lacks "=" (fst kv) = true
  /\ lacks ":" (snd kv) = true /\ lacks ";" (snd kv) = true.
Proof.
  unfold plainParam, plainName. rewrite !andb_true_iff, String.eqb_eq. tauto.
Qed.

Lemma paramText_lacks_colon ps :
  forallb plainParam ps = true -> lacks ":" (paramText ps) = true.
Proof.
  induction ps as [|kv ps IH]; [done|]. cbn [forallb paramText].
  intros [Hkv Hps]%andb_true_iff.
  destruct (plainParam_parts kv Hkv) as (_ & Hk & _ & _ & Hv & _).
  change (";" +:+ fst kv +:+ "=" +:+ snd kv +:+ paramText ps)
    with (String ";" (fst kv +:+ String "=" (snd kv +:+ paramText ps))).
  cbn [lacks]. rewrite lacks_append. cbn [lacks]. rewrite lacks_append.
  by rewrite Hk, Hv, IH.
Qed.

Lemma split_paramText ps : forall d,
  forallb plainParam ps = true -> lacks ";" d = true ->
  JS.split ";" (d +:+ paramText ps)
  = d :: map (fun kv => fst kv +:+ "=" +:+ snd kv) ps.
Proof.
  induction ps as [|kv ps IH]; intros d Hps Hd.
  - cbn [paramText map]. rewrite append_nil_r. by apply split_lacks.
  - cbn [forallb] in Hps. apply andb_true_iff in Hps as [Hkv Hps].
    destruct (plainParam_parts kv Hkv) as (_ & _ & Hk & _ & _ & Hv).
    cbn [paramText map].
    replace (";" +:+ fst kv +:+ "=" +:+ snd kv +:+ paramText ps)
      with (String ";" ((fst kv +:+ "=" +:+ snd kv) +:+ paramText ps))
      by (by rewrite !append_assoc).
    rewrite split_at by done. f_equal. apply IH; [done|].
    change (fst kv +:+ "=" +:+ snd kv) with (fst kv +:+ String "=" (snd kv)).
    rewrite lacks_append. cbn [lacks]. by rewrite Hk, Hv.
Qed.

Lemma Map_set_fresh k v (m : JsMap) :
  ~ In k (map fst m) -> Map_set k v m = m ++ [(k, v)].
Proof.
  induction m as [|[k' v'] m IH]; intros Hk; [done|]. cbn [Map_set app].
  destruct (String.eqb k' k) eqn:Heq.
  - apply String.eqb_eq in Heq. subst k'. exfalso. apply Hk. by left.
  - rewrite IH; [done|]. intros Hin. apply Hk. by right.
Qed.

Lemma addParam_part kv (m : JsMap) :
  plainParam kv = true ->
  addParam m (fst kv +:+ "=" +:+ snd kv) = Map_set (fst kv) (snd kv) m.
Proof.
  intros Hkv. destruct (plainParam_parts kv Hkv) as (Hup & _ & _ & Hk & _).
  unfold addParam.
  change (fst kv +:+ "=" +:+ snd kv) with (fst kv +:+ String "=" (snd kv)).
  rewrite indexOf_append by done. by rewrite take_append, drop_S_append, Hup.
Qed.

Lemma addParam_fold ps : forall (m : JsMap),
  forallb plainParam ps = true -> List.NoDup (map fst (m ++ ps)) ->
  fold_left addParam (map (fun kv => fst kv +:+ "=" +:+ snd kv) ps) m = m ++ ps.
Proof.
  induction ps as [|kv ps IH]; intros m Hps Hnd; [by rewrite app_nil_r|].
  cbn [forallb] in Hps. apply andb_true_iff in Hps as [Hkv Hps].
  cbn [map fold_left]. rewrite addParam_part by done.
  assert (~ In (fst kv) (map fst m)) as Hfresh.
  { rewrite map_app in Hnd. cbn [map] in Hnd. apply NoDup_remove_2 in Hnd.
    intros Hin. apply Hnd. apply in_or_app. by left. }
  rewrite Map_set_fresh by done. destruct kv as [k v]. cbn [fst snd].
  rewrite IH; [by rewrite <- app_assoc|done|]. by rewrite <- app_assoc.
Qed.

Lemma parseProperty_line n ps v :
  plainName n = true -> forallb plainParam ps = true -> List.NoDup (map fst ps) ->
  parseProperty (n +:+ paramText ps +:+ ":" +:+ v)
  = Some {| name := n; params := ps; value := v |}.
Proof.
  intros Hn Hps Hnd. unfold plainName in Hn.
  apply andb_true_iff in Hn as [[Hup Hcolon]%andb_true_iff Hsemi].
  apply String.eqb_eq in Hup.
  unfold parseProperty.
  replace (n +:+ paramText ps +:+ ":" +:+ v) with ((n +:+ paramText ps) +:+ String ":" v)
    by (by rewrite append_assoc).
  rewrite indexOf_append
    by (rewrite lacks_append, Hcolon; by apply paramText_lacks_colon).
  cbv zeta. rewrite take_append, drop_S_append.
  destruct ps as [|kv ps].
  - cbn [paramText]. rewrite append_nil_r.
    rewrite (proj2 (indexOf_lacks ";" n)) by done. by rewrite Hup.
  - cbn [paramText].
    replace (";" +:+ fst kv +:+ "=" +:+ snd kv +:+ paramText ps)
      with (String ";" ((fst kv +:+ "=" +:+ snd kv) +:+ paramText ps))
      by (by rewrite !append_assoc).
    rewrite indexOf_append by done. rewrite take_append, drop_S_append, Hup.
    cbn [forallb] in Hps. pose proof Hps as Hall.
    apply andb_true_iff in Hps as [Hkv Hps].
    destruct (plainParam_parts kv Hkv) as (_ & _ & Hk & _ & _ & Hv).
    rewrite split_paramText; [|done|].
    2:{ change (fst kv +:+ "=" +:+ snd kv) with (fst kv +:+ String "=" (snd kv)).
        rewrite lacks_append. cbn [lacks]. by rewrite Hk, Hv. }
    change ((fst kv +:+ "=" +:+ snd kv) :: map (fun kv => fst kv +:+ "=" +:+ snd kv) ps)
      with (map (fun kv => fst kv +:+ "=" +:+ snd kv) (kv :: ps)).
    by rewrite addParam_fold.
Qed.

(** X14.  A reconstructed line parses back to the property it was made of,
    with the parameters in their sorted order, when the name and the
    parameter keys are in upper case, the keys are all different, and the
    name, the keys and the parameter values have no colon, no semicolon
    and, for the keys, no equals sign. *)
Theorem parseProperty_reconstructProperty p :
  plainName (name p) = true ->
  forallb plainParam (params p) = true ->
  List.NoDup (map fst (params p)) ->
  parseProperty (reconstructProperty p)
  = Some {| name := name p;
            params := sortBy (fun a b => localeLe (fst a) (fst b)) (params p);
            value := value p |}.
Proof.
  intros Hn Hps Hnd. unfold reconstructProperty. cbv zeta.
  rewrite reconstruct_paramText, append_assoc.
  set (sorted := sortBy _ (params p)).
  assert (Permutation sorted (params p)) as Hperm by apply sortBy_perm.
  apply parseProperty_line; [done| |].
  - apply forallb_forall. intros kv Hkv.
    apply (proj1 (forallb_forall _ _) Hps). by apply (Permutation_in _ Hperm).
  - apply (Permutation_NoDup (l := map fst (params p))); [|done].
    apply Permutation_map. by symmetry.
Qed.
End ReconstructParse.

(** The attendee, whose parameters come back in the order CN, ROLE. *)
Lemma parseProperty_reconstructProperty_witness :
  parseProperty (@reconstructProperty codeUnitLocale attendee)
  = Some {| name := "ATTENDEE";
            params := @sortBy (string * string)
                        (fun a b => @localeLe codeUnitLocale (fst a) (fst b))
                        [("ROLE", "CHAIR"); ("CN", "Ada")];
            value := "mailto:ada@example.org" |}.
Proof.
  apply (@parseProperty_reconstructProperty codeUnitLocale attendee);
    [reflexivity|reflexivity|].
  repeat constructor; cbn; intuition discriminate.
Defined.

(** ** The output is never empty *)

Section OutputNotEmpty.
Context `{Constants} `{Locale}.
Implicit Types (s t : string) (parts : list string).

Lemma truthy_append_l s t : JS.truthy s = true -> JS.truthy (s +:+ t) = true.
Proof. by destruct s. Qed.

Lemma join_truthy sep parts :
  Exists (fun p => JS.truthy p = true) parts -> JS.truthy (JS.join sep parts) = true.
Proof.
  induction parts as [|p parts IH]; intros Hex; [by inversion Hex|].
  unfold JS.join in *. destruct parts as [|q parts].
  - inversion Hex as [? ? Hp|? ? Hn]; [done|by inversion Hn].
  - change (String.concat sep (p :: q :: parts))
      with (p +:+ sep +:+ String.concat sep (q :: parts)).
    inversion Hex as [? ? Hp|? ? Hrest]; subst.
    + by apply truthy_append_l.
    + apply truthy_append_r, truthy_append_r. by apply IH.
Qed.

Lemma generateVtimezone_truthy tz : JS.truthy (generateVtimezone tz) = true.
Proof.
  unfold generateVtimezone. destruct (_ || _); [done|].
  destruct (String.eqb _ _); [done|]. by destruct (String.eqb _ _).
Qed.

Lemma search_found {A : Type} (m : string -> option (A * string)) s :
  forall pre x rest,
  search m s = Some (pre, x, rest) -> exists s', m s' = Some (x, rest).
Proof.
  induction s as [|a s IH]; intros pre x rest; cbn [search].
  - destruct (m EmptyString) as [[y r]|] eqn:Hm; [|done].
    intros [= <- <- <-]. by exists EmptyString.
  - destruct (m (String a s)) as [[y r]|] eqn:Hm.
    + intros [= <- <- <-]. by exists (String a s).
    + destruct (search m s) as [[[pre' y] r]|] eqn:Hs; [|done].
      intros [= <- <- <-]. by apply (IH pre').
Qed.

Lemma includes_truthy sub s :
  JS.includes sub s = true -> JS.truthy sub = true -> JS.truthy s = true.
Proof. destruct s; [|done]. by destruct sub. Qed.

Lemma rewriteTimezoneBlock_truthy block :
  JS.truthy block = true -> JS.truthy (rewriteTimezoneBlock block) = true.
Proof.
  intros Hb. unfold rewriteTimezoneBlock.
  destruct (search reTzid block) as [[[pre found] rest]|] eqn:Hs; [|done].
  cbv zeta. destruct (negb _); [|done].
  apply search_found in Hs as [s' Hs']. unfold reTzid in Hs'.
  destruct (JS.startsWith "TZID:" s'); [|done].
  destruct (lineRest (JS.drop 5 s')) as [run r].
  destruct (JS.truthy run) eqn:Hrun; [|done]. injection Hs' as <- <-.
  unfold replaceFirst. destruct (search _ block) as [[[pre' u] rest']|]; [|done].
  apply truthy_append_r, truthy_append_l. unfold normalizeTimezone.
  destruct (MS_TO_IANA_TIMEZONES run) as [iana|]; [|done].
  cbn [JS.optOrElse]. unfold JS.orElse. by destruct (JS.truthy iana) eqn:Hi.
Qed.

(** The text of a calendar has a time zone block, its own or the
    generated one: it is not empty. *)
Lemma serializeCalendar_truthy (c : NormalizedCalendar) defaultTz :
  JS.truthy (serializeCalendar c defaultTz) = true.
Proof.
  unfold serializeCalendar. apply join_truthy. unfold outputEntries. cbv zeta.
  apply Exists_app. right.
  destruct (existsb _ (timezoneBlocks (parsed c))) eqn:Hex.
  - apply Exists_app. right. apply Exists_app. left.
    apply existsb_exists in Hex as (block & Hin & Hinc).
    apply List.Exists_exists. exists (rewriteTimezoneBlock block). split.
    + by apply in_map.
    + apply rewriteTimezoneBlock_truthy. by apply (includes_truthy _ _ Hinc).
  - apply Exists_app. left. constructor. apply generateVtimezone_truthy.
Qed.
End OutputNotEmpty.
(** ** The request handler and the store *)

Section HandlerFacts.
Context `{Constants} `{Locale}.
Context (computeEtag computeHash : string -> string).
Context (stateJson : EventState -> string) (snapshotJson : CalendarSnapshot -> string).
Context (parseConfig : string -> option TenantConfig).
Implicit Types (w : World) (hash rawIcs : string) (ifNoneMatch envTimezone : option string).

Local Abbreviation lastGoodOf hash w :=
  (fst (getLastGoodSnapshot stateJson snapshotJson (Some hash) w)).
Local Abbreviation cachedHashOf hash w :=
  (fst (getUpstreamHash stateJson snapshotJson (Some hash) w)).
Local Abbreviation handle :=
  (handleCalendarRequest computeEtag computeHash stateJson snapshotJson parseConfig).

Lemma getLastGoodSnapshot_run prefix w :
  getLastGoodSnapshot stateJson snapshotJson prefix w
  = (fst (getLastGoodSnapshot stateJson snapshotJson prefix w), w).
Proof. reflexivity. Qed.

Lemma getUpstreamHash_run prefix w :
  getUpstreamHash stateJson snapshotJson prefix w
  = (fst (getUpstreamHash stateJson snapshotJson prefix w), w).
Proof. reflexivity. Qed.

Lemma getTenantConfig_run hash w :
  getTenantConfig stateJson snapshotJson parseConfig hash w
  = (fst (getTenantConfig stateJson snapshotJson parseConfig hash w), w).
Proof. reflexivity. Qed.

Lemma ifText_default {A : Type} (text : option string) (yes : string -> A) (no : A) :
  ifText text yes no
  = if JS.truthy (default EmptyString text) then yes (default EmptyString text) else no.
Proof. by destruct text. Qed.

Lemma caught_run hash error w :
  caught computeEtag stateJson snapshotJson hash error w
  = (ifText (lastGoodOf hash w) (serveSnapshot computeEtag)
       (failure 500 ("Error processing calendar: " +:+ error)), w).
Proof. reflexivity. Qed.

(** The three stages of the handler on a text. *)
Lemma serveFresh_run ifNoneMatch hash tz rawIcs upstreamHash w :
  let run := normalizeCalendar (parseIcs rawIcs) (Some hash) tz w in
  let output := serializeCalendar (fst run) tz in
  let etag := computeEtag output in
  serveFresh computeEtag ifNoneMatch hash tz rawIcs upstreamHash w
  = if matches ifNoneMatch etag then (notModified etag, snd run)
    else (createIcsResponse output etag,
          {| kv := <[upstreamHashStoreKey (Some hash) := VText upstreamHash]>
                     (<[latestStoreKey (Some hash) := VText output]> (kv (snd run)));
             clock := clock (snd run); ticks := ticks (snd run) |}).
Proof.
  cbv zeta. unfold serveFresh. rewrite bind_run.
  destruct (normalizeCalendar (parseIcs rawIcs) (Some hash) tz w) as [normalized w1].
  cbn [fst snd]. by destruct (matches ifNoneMatch _).
Qed.

Lemma serveCachedOrFresh_run ifNoneMatch hash tz rawIcs w :
  serveCachedOrFresh computeEtag computeHash stateJson snapshotJson ifNoneMatch hash tz
    rawIcs w
  = if bool_decide (cachedHashOf hash w = Some (computeHash rawIcs))
       && JS.truthy (default EmptyString (lastGoodOf hash w))
    then (let etag := computeEtag (default EmptyString (lastGoodOf hash w)) in
          if matches ifNoneMatch etag then notModified etag
          else createIcsResponse (default EmptyString (lastGoodOf hash w)) etag, w)
    else serveFresh computeEtag ifNoneMatch hash tz rawIcs (computeHash rawIcs) w.
Proof.
  unfold serveCachedOrFresh. cbv zeta. rewrite bind_run, getUpstreamHash_run.
  rewrite bind_run.
  destruct (decide (cachedHashOf hash w = Some (computeHash rawIcs))) as [Heq|Hne].
  - rewrite getLastGoodSnapshot_run, ifText_default.
    rewrite bool_decide_true by done. cbn [andb].
    by destruct (JS.truthy _).
  - rewrite bool_decide_false by done. reflexivity.
Qed.

Lemma serveText_run ifNoneMatch hash tz rawIcs w :
  serveText computeEtag computeHash stateJson snapshotJson ifNoneMatch hash tz rawIcs w
  = if negb (JS.includes "BEGIN:VCALENDAR" rawIcs)
    then (failure 502 "Invalid ICS: missing VCALENDAR", w)
    else if negb (JS.includes "BEGIN:VEVENT" rawIcs)
            && JS.truthy (default EmptyString (lastGoodOf hash w))
    then (serveSnapshot computeEtag (default EmptyString (lastGoodOf hash w)), w)
    else serveCachedOrFresh computeEtag computeHash stateJson snapshotJson ifNoneMatch
           hash tz rawIcs w.
Proof.
  unfold serveText. destruct (negb (JS.includes "BEGIN:VCALENDAR" rawIcs)); [done|].
  rewrite bind_run. destruct (negb (JS.includes "BEGIN:VEVENT" rawIcs)); cbn [andb].
  - rewrite getLastGoodSnapshot_run, ifText_default. by destruct (JS.truthy _).
  - reflexivity.
Qed.

Lemma handle_run ifNoneMatch hash envTimezone upstream w :
  handle ifNoneMatch hash envTimezone upstream w
  = match fst (getTenantConfig stateJson snapshotJson parseConfig hash w) with
    | None =>
        ({| Response.status := 404; Response.body := Some "Calendar not found";
            Response.headers := [] |}, w)
    | Some config =>
        match upstream with
        | Thrown error => caught computeEtag stateJson snapshotJson hash error w
        | Returned response =>
            if negb (upstreamOk response) then
              (if JS.truthy (default EmptyString (lastGoodOf hash w))
                  && (400 <=? upstreamStatus response)
               then serveSnapshot computeEtag (default EmptyString (lastGoodOf hash w))
               else failure 502 ("Upstream calendar unavailable: "
                                 +:+ JS.toString (upstreamStatus response)), w)
            else
              match upstreamText response with
              | Thrown error => caught computeEtag stateJson snapshotJson hash error w
              | Returned rawIcs =>
                  serveText computeEtag computeHash stateJson snapshotJson ifNoneMatch
                    hash (orUndefined (timezone config) envTimezone) rawIcs w
              end
        end
    end.
Proof.
  unfold handleCalendarRequest. rewrite bind_run.
  destruct (getTenantConfig stateJson snapshotJson parseConfig hash w)
    as [config w'] eqn:Hconfig.
  assert (w' = w) as -> by (by injection Hconfig). cbn [fst].
  destruct config as [config|]; [|done].
  destruct upstream as [response|error]; [|done].
  destruct (negb (upstreamOk response)); [done|].
  by destruct (upstreamText response).
Qed.

(** The three ways through the handler: a response that the request
    header does not change, the cached snapshot, and a fresh run. *)
Lemma handle_paths hash envTimezone upstream w :
  (exists resp,
     (Response.status resp = 200 ->
      exists content, JS.truthy content = true
                      /\ resp = serveSnapshot computeEtag content)
     /\ Response.status resp <> 304
     /\ forall ifNoneMatch, handle ifNoneMatch hash envTimezone upstream w = (resp, w))
  \/ (exists cached,
        JS.truthy cached = true
        /\ forall ifNoneMatch,
             handle ifNoneMatch hash envTimezone upstream w
             = (if matches ifNoneMatch (computeEtag cached)
                then notModified (computeEtag cached)
                else createIcsResponse cached (computeEtag cached), w))
  \/ (exists config response rawIcs,
        fst (getTenantConfig stateJson snapshotJson parseConfig hash w) = Some config
        /\ upstream = Returned response
        /\ upstreamOk response = true
        /\ upstreamText response = Returned rawIcs
        /\ JS.includes "BEGIN:VCALENDAR" rawIcs = true
        /\ (JS.truthy (default EmptyString (lastGoodOf hash w)) = true ->
            JS.includes "BEGIN:VEVENT" rawIcs = true
            /\ cachedHashOf hash w <> Some (computeHash rawIcs))
        /\ forall ifNoneMatch,
             handle ifNoneMatch hash envTimezone upstream w
             = serveFresh computeEtag ifNoneMatch hash
                 (orUndefined (timezone config) envTimezone) rawIcs
                 (computeHash rawIcs) w).
Proof.
  assert (forall error,
            exists resp,
              (Response.status resp = 200 ->
               exists content, JS.truthy content = true
                               /\ resp = serveSnapshot computeEtag content)
              /\ Response.status resp <> 304
              /\ caught computeEtag stateJson snapshotJson hash error w = (resp, w))
    as Hcaught.
  { intros error. rewrite caught_run, ifText_default.
    destruct (JS.truthy (default EmptyString (lastGoodOf hash w))) eqn:Hgood.
    - eexists. split; [|split; [|reflexivity]]; [|done]. intros _. by eexists.
    - eexists. split; [|split; [|reflexivity]]; done. }
  destruct (fst (getTenantConfig stateJson snapshotJson parseConfig hash w))
    as [config|] eqn:Hconfig.
  2:{ left. eexists. split; [|split]; [| |intros inm; by rewrite handle_run, Hconfig];
        done. }
  destruct upstream as [response|error].
  2:{ left. destruct (Hcaught error) as (resp & H200 & H304 & Hrun).
      exists resp. split; [done|]. split; [done|]. intros inm.
      by rewrite handle_run, Hconfig. }
  destruct (upstreamOk response) eqn:Hok.
  2:{ left. eexists. split; [|split];
        [| |intros inm; rewrite handle_run, Hconfig, Hok; reflexivity].
      - destruct (_ && _) eqn:Hserve; [|done]. intros _.
        apply andb_true_iff in Hserve as [Hgood _]. by eexists.
      - by destruct (_ && _). }
  destruct (upstreamText response) as [rawIcs|error] eqn:Htext.
  2:{ left. destruct (Hcaught error) as (resp & H200 & H304 & Hrun).
      exists resp. split; [done|]. split; [done|]. intros inm.
      by rewrite handle_run, Hconfig, Hok, Htext. }
  destruct (JS.includes "BEGIN:VCALENDAR" rawIcs) eqn:Hcal.
  2:{ left. eexists. split; [|split];
        [| |intros inm; rewrite handle_run, Hconfig, Hok, Htext, serveText_run, Hcal;
            reflexivity]; done. }
  destruct (negb (JS.includes "BEGIN:VEVENT" rawIcs)
            && JS.truthy (default EmptyString (lastGoodOf hash w))) eqn:Hempty.
  { left. eexists. split; [|split];
      [| |intros inm; rewrite handle_run, Hconfig, Hok, Htext, serveText_run, Hcal, Hempty;
          reflexivity]; [|done].
    intros _. apply andb_true_iff in Hempty as [_ Hgood]. by eexists. }
  destruct (bool_decide (cachedHashOf hash w = Some (computeHash rawIcs))
            && JS.truthy (default EmptyString (lastGoodOf hash w))) eqn:Hcached.
  { right. left. exists (default EmptyString (lastGoodOf hash w)).
    apply andb_true_iff in Hcached as [Hhash Hgood]. split; [done|]. intros inm.
    rewrite handle_run, Hconfig, Hok, Htext, serveText_run, Hcal, Hempty.
    cbn [negb]. rewrite serveCachedOrFresh_run, Hhash, Hgood. reflexivity. }
  right. right. exists config, response, rawIcs.
  do 5 (split; [done|]). split.
  - intros Hgood. rewrite Hgood, andb_true_r in Hempty, Hcached.
    apply negb_false_iff in Hempty. by apply bool_decide_eq_false in Hcached.
  - intros inm. rewrite handle_run, Hconfig, Hok, Htext, serveText_run, Hcal, Hempty.
    cbn [negb]. by rewrite serveCachedOrFresh_run, Hcached.
Qed.

(** X15.  The handler of a tenant changes the store and the clock only
    when the upstream server has answered with a success status and a text
    that contains BEGIN:VCALENDAR, and then the response has status 200 or
    304.  When the tenant has a last good snapshot, the text moreover
    contains BEGIN:VEVENT and its hash is not the stored upstream hash: an
    unknown tenant, a failing upstream server, a text that is no calendar,
    an empty feed and an unchanged feed leave every stored state as it
    was. *)
Theorem handleCalendarRequest_writes ifNoneMatch hash envTimezone upstream w :
  let result := handle ifNoneMatch hash envTimezone upstream w in
  snd result = w
  \/ exists response rawIcs,
       upstream = Returned response
       /\ upstreamOk response = true
       /\ upstreamText response = Returned rawIcs
       /\ JS.includes "BEGIN:VCALENDAR" rawIcs = true
       /\ (JS.truthy (default EmptyString (lastGoodOf hash w)) = true ->
           JS.includes "BEGIN:VEVENT" rawIcs = true
           /\ cachedHashOf hash w <> Some (computeHash rawIcs))
       /\ (Response.status (fst result) = 200 \/ Response.status (fst result) = 304).
Proof.
  cbv zeta.
  destruct (handle_paths hash envTimezone upstream w)
    as [(resp & _ & _ & Hrun)|[(cached & _ & Hrun)
        |(config & response & rawIcs & _ & Hup & Hok & Htext & Hcal & Hgood & Hrun)]];
    rewrite Hrun; [by left|by left|].
  right. exists response, rawIcs. do 5 (split; [done|]).
  rewrite serveFresh_run. cbv zeta.
  destruct (matches ifNoneMatch _); cbn; auto.
Qed.

Lemma scoped_free hash place :
  JS.truthy hash = true -> JS.startsWith (hash +:+ ":") place = false ->
  forall rest, place <> scoped (Some hash) rest.
Proof.
  intros Hp Hplace rest ->. unfold scoped in Hplace. rewrite Hp in Hplace.
  rewrite <- append_assoc, startsWith_append in Hplace. discriminate Hplace.
Qed.

Lemma serveFresh_frame ifNoneMatch hash tz rawIcs upstreamHash w place :
  (forall rest, place <> scoped (Some hash) rest) ->
  kv (snd (serveFresh computeEtag ifNoneMatch hash tz rawIcs upstreamHash w)) !! place
  = kv w !! place.
Proof.
  intros Hfree. rewrite serveFresh_run. cbv zeta.
  destruct (matches ifNoneMatch _); cbn [snd kv].
  - by apply normalizeCalendar_frame.
  - rewrite !lookup_insert_ne by (intros Heq; symmetry in Heq; by apply Hfree in Heq).
    by apply normalizeCalendar_frame.
Qed.

(** X16.  The handler of the tenant [hash] writes only to places whose
    name begins with [hash] and a colon: the configurations and the
    states of the other tenants are as they were. *)
Theorem handleCalendarRequest_tenant_isolation
    ifNoneMatch hash envTimezone upstream w place :
  JS.truthy hash = true ->
  JS.startsWith (hash +:+ ":") place = false ->
  kv (snd (handle ifNoneMatch hash envTimezone upstream w)) !! place = kv w !! place.
Proof.
  intros Hhash Hplace.
  destruct (handle_paths hash envTimezone upstream w)
    as [(resp & _ & _ & Hrun)|[(cached & _ & Hrun)
        |(config & response & rawIcs & _ & _ & _ & _ & _ & _ & Hrun)]];
    rewrite Hrun; [done|done|].
  apply serveFresh_frame. by apply scoped_free.
Qed.

(** X17.  After a response with status 200, and once the snapshot that the
    handler has handed to [ctx.waitUntil] is saved, the same request with
    the same answer of the upstream server changes nothing in the store, and
    its response is the first one again, or 304 with the same ETag when the
    header If-None-Match of the request is that ETag.  The route gives the
    hash of a tenant in hexadecimal digits, so that the place of its
    configuration is none of the places of its states. *)
Theorem handleCalendarRequest_repeated
    ifNoneMatch ifNoneMatch' hash envTimezone upstream w :
  JS.truthy hash = true ->
  JS.startsWith (hash +:+ ":") ("tenant:" +:+ hash) = false ->
  let first := handle ifNoneMatch hash envTimezone upstream w in
  let second := handle ifNoneMatch' hash envTimezone upstream (snd first) in
  Response.status (fst first) = 200 ->
  snd second = snd first
  /\ exists content,
       fst first = createIcsResponse content (computeEtag content)
       /\ (fst second = fst first
           \/ matches ifNoneMatch' (computeEtag content) = true
              /\ fst second = notModified (computeEtag content)).
Proof.
  intros Hhash Hfree. cbv zeta.
  destruct (handle_paths hash envTimezone upstream w)
    as [(resp & H200 & _ & Hrun)|[(cached & Hgood & Hrun)
        |(config & response & rawIcs & Hconfig & Hup & Hok & Htext & Hcal & _ & Hrun)]].
  - rewrite !Hrun. cbn [fst snd]. intros Hstatus.
    destruct (H200 Hstatus) as (content & _ & ->). split; [done|].
    exists content. split; [done|]. by left.
  - rewrite !Hrun. cbn [fst snd]. intros Hstatus. split; [done|].
    exists cached. destruct (matches ifNoneMatch _); [discriminate Hstatus|].
    split; [done|]. destruct (matches ifNoneMatch' _); [by right|by left].
  - rewrite (Hrun ifNoneMatch), serveFresh_run. cbv zeta.
    set (run := normalizeCalendar (parseIcs rawIcs) (Some hash) _ w).
    set (tz := orUndefined (timezone config) envTimezone).
    set (output := serializeCalendar (fst run) tz).
    destruct (matches ifNoneMatch (computeEtag output)); [discriminate|].
    cbn [fst snd]. intros _.
    set (w1 := {| kv := _; clock := clock (snd run); ticks := ticks (snd run) |}).
    assert (lastGoodOf hash w1 = Some output) as Hlatest.
    { unfold getLastGoodSnapshot. rewrite bind_run. unfold kvGet. subst w1.
      cbn [kv fst mret M_ret]. rewrite lookup_insert_ne.
      - by rewrite lookup_insert_eq.
      - unfold upstreamHashStoreKey, latestStoreKey. intros Heq.
        by apply scoped_inj in Heq. }
    assert (cachedHashOf hash w1 = Some (computeHash rawIcs)) as Hcached.
    { unfold getUpstreamHash. rewrite bind_run. unfold kvGet. subst w1.
      cbn [kv fst mret M_ret]. by rewrite lookup_insert_eq. }
    assert (fst (getTenantConfig stateJson snapshotJson parseConfig hash w1)
            = Some config) as Hconfig1.
    { rewrite <- Hconfig. unfold getTenantConfig. rewrite !bind_run. unfold kvGet.
      subst w1. cbn [kv fst mret M_ret].
      pose proof (scoped_free hash _ Hhash Hfree) as Hne.
      rewrite !lookup_insert_ne by (intros Heq; symmetry in Heq; by apply Hne in Heq).
      subst run. by rewrite normalizeCalendar_frame. }
    assert (JS.truthy output = true) as Houtput by apply serializeCalendar_truthy.
    rewrite handle_run, Hconfig1, Hup, Hok, Htext. cbn [negb].
    rewrite serveText_run, Hcal, Hlatest. cbn [negb default]. unfold id.
    rewrite Houtput, andb_true_r.
    rewrite serveCachedOrFresh_run, Hcached, Hlatest. cbn [default]. unfold id.
    rewrite bool_decide_true by done. rewrite Houtput. cbn [andb]. cbv zeta.
    destruct (negb (JS.includes "BEGIN:VEVENT" rawIcs)); cbn [fst snd].
    + split; [done|]. exists output. split; [done|]. by left.
    + split; [done|]. exists output. split; [done|].
      destruct (matches ifNoneMatch' _) eqn:Hm; [by right|by left].
Qed.
End HandlerFacts.
(** The handler of the tenant [ab12] leaves the place of another tenant
    alone, and answers a second request from its snapshot. *)
Lemma handleCalendarRequest_tenant_isolation_witness :
  kv (snd (sampleHandler None tenantWorld)) !! "tenant:cd34"
  = kv tenantWorld !! "tenant:cd34".
Proof.
  apply (@handleCalendarRequest_tenant_isolation specConstants codeUnitLocale sha256Hex
           sha256Hex (fun _ => "{}") (fun _ => "{}") sampleConfig None "ab12" None
           sampleUpstream tenantWorld "tenant:cd34"); reflexivity.
Defined.

Lemma handleCalendarRequest_repeated_witness :
  snd (sampleHandler None (snd (sampleHandler None tenantWorld)))
  = snd (sampleHandler None tenantWorld)
  /\ exists content,
       fst (sampleHandler None tenantWorld) = createIcsResponse content (sha256Hex content)
       /\ (fst (sampleHandler None (snd (sampleHandler None tenantWorld)))
           = fst (sampleHandler None tenantWorld)
           \/ matches None (sha256Hex content) = true
              /\ fst (sampleHandler None (snd (sampleHandler None tenantWorld)))
                 = notModified (sha256Hex content)).
Proof.
  apply (@handleCalendarRequest_repeated specConstants codeUnitLocale sha256Hex
           sha256Hex (fun _ => "{}") (fun _ => "{}") sampleConfig None None "ab12" None
           sampleUpstream tenantWorld); [reflexivity|reflexivity|].
  vm_compute. reflexivity.
Defined.

(** ** Unfolding the folded lines of an event *)

Section FoldedEvents.
Implicit Types (line l a b : string) (lines ls cs : list string).

Lemma splitLines_app_crlf a b :
  JS.splitLines (a +:+ CRLF +:+ b) = JS.splitLines a ++ JS.splitLines b.
Proof.
  induction a as [|x a IH]; [reflexivity|].
  rewrite append_cons. cbn [JS.splitLines].
  destruct (JS.ascii_eqb x "010"); [by rewrite IH|].
  assert (JS.startsWith LF (a +:+ CRLF +:+ b) = JS.startsWith LF a) as Hstart
    by (by destruct a).
  change (String "010" EmptyString) with LF. rewrite Hstart.
  destruct (JS.ascii_eqb x "013" && JS.startsWith LF a); [exact IH|].
  rewrite IH. destruct (JS.splitLines a) as [|h t] eqn:Ha; [|done].
  by apply splitLines_nonempty in Ha.
Qed.

(** The physical lines of a folded line. *)
Lemma splitLines_foldLine line :
  lacks "010" line = true ->
  exists cs,
    JS.splitLines (foldLine line) = JS.take 75 line :: cs
    /\ Forall (fun l => isContinuation l = true) cs
    /\ JS.take 75 line
       +:+ fold_right (fun l text => JS.drop 1 l +:+ text) EmptyString cs = line.
Proof.
  intros Hl. destruct (Nat.le_gt_cases (String.length line) 75) as [Hshort|Hlong].
  - exists []. rewrite foldLine_short, splitLines_one, take_all by done.
    split; [done|]. split; [constructor|]. cbn. apply append_nil_r.
  - rewrite foldLine_long by done. unfold foldedTail.
    destruct (splitLines_continuation (String.length (JS.drop 75 line))
                (JS.drop 75 line) (JS.take 75 line)) as (cs & Hsplit & Hcont & Hback);
      [by apply lacks_take | by apply lacks_drop |].
    exists cs. split; [done|]. split; [done|]. rewrite Hback by done. apply take_drop.
Qed.

Lemma unfoldSpec_break cs : forall current next rest,
  Forall (fun l => isContinuation l = true) cs -> isContinuation next = false ->
  unfoldSpec current (cs ++ next :: rest)
  = (current +:+ fold_right (fun l text => JS.drop 1 l +:+ text) EmptyString cs)
    :: unfoldSpec next rest.
Proof.
  induction cs as [|c cs IH]; intros current next rest Hcs Hnext.
  - cbn [app unfoldSpec fold_right]. by rewrite Hnext, append_nil_r.
  - inversion Hcs as [|? ? Hc Hcs']; subst. cbn [app unfoldSpec fold_right].
    rewrite Hc, IH by done. by rewrite append_assoc.
Qed.

Lemma isContinuation_take n line :
  isContinuation (JS.take (S n) line) = isContinuation line.
Proof. by destruct line. Qed.

Lemma foldable_parts line :
  foldable line = true -> lacks "010" line = true /\ isContinuation line = false.
Proof.
  unfold foldable. intros [Hl Hc]%andb_true_iff. by apply negb_true_iff in Hc.
Qed.

Lemma splitLines_folded ls : forall line,
  forallb foldable (line :: ls) = true ->
  exists tail,
    JS.splitLines (JS.join CRLF (map foldLine (line :: ls))) = JS.take 75 line :: tail
    /\ unfoldSpec (JS.take 75 line) tail = line :: ls.
Proof.
  induction ls as [|next ls IH]; intros line Hall;
    cbn [forallb] in Hall; apply andb_true_iff in Hall as [Hline Hall];
    destruct (foldable_parts line Hline) as [Hl Hc];
    destruct (splitLines_foldLine line Hl) as (cs & Hsplit & Hcont & Hback).
  - exists cs. split; [done|]. rewrite unfoldSpec_continuations by done.
    by rewrite Hback.
  - destruct (IH next Hall) as (tail & Hnext & Hunfold).
    exists (cs ++ JS.take 75 next :: tail). split.
    + change (JS.join CRLF (map foldLine (line :: next :: ls)))
        with (foldLine line +:+ CRLF +:+ JS.join CRLF (map foldLine (next :: ls))).
      by rewrite splitLines_app_crlf, Hsplit, Hnext.
    + cbn [forallb] in Hall. apply andb_true_iff in Hall as [Hn _].
      destruct (foldable_parts next Hn) as [_ Hnc].
      rewrite unfoldSpec_break by (done || by rewrite isContinuation_take).
      by rewrite Hback, Hunfold.
Qed.

(** X18.  Unfolding gives back the lines that the serializer has folded
    and joined: for lines without a line feed that do not begin with a
    space or a tab, at least one of them, [unfoldLines] of the folded lines
    joined by CRLF is the list of the lines. *)
Theorem unfoldLines_folded_lines lines :
  lines <> [] -> forallb foldable lines = true ->
  unfoldLines (JS.join CRLF (map foldLine lines)) = lines.
Proof.
  intros Hne Hall. destruct lines as [|line ls]; [done|].
  destruct (splitLines_folded ls line Hall) as (tail & Hsplit & Hunfold).
  rewrite unfoldLines_refines. unfold unfoldLinesSpec. by rewrite Hsplit.
Qed.
End FoldedEvents.

(** The header line of 80 characters and a short line. *)
Lemma unfoldLines_folded_lines_witness :
  unfoldLines (JS.join CRLF (map foldLine [longHeaderLine; "SUMMARY:M"]))
  = [longHeaderLine; "SUMMARY:M"].
Proof.
  apply (unfoldLines_folded_lines [longHeaderLine; "SUMMARY:M"]); [discriminate|reflexivity].
Defined.
